(** * BoxedIn: the agent loop, the sandbox runner and the tool store

    A shallow embedding of [src/core/tools.mjs], [src/core/memory.mjs],
    [src/core/sandbox.mjs] and the run chain of [src/core/agent.mjs], with the
    properties of the specification stated and settled over it.

    Conventions of the embedding.
    - JavaScript strings are [string]s over 8-bit characters (code units
      U+0000..U+00FF); the only line terminators in that range are LF and CR.
    - A number inside a JSON value is a [Number]: a rational (every finite
      double is one), an infinity or NaN.  The numbers that the program
      itself computes with (exit codes, epoch milliseconds, the limits) are
      integers, modelled by [Z]; [null] and [undefined] are [None] there.
    - A plain object used as a dictionary is a [gmap string _] that maps a
      property name to what the code last assigned under it.  For every name
      but one this is an own property.  The name [__proto__] is the
      exception: assigning a record under it adds no own property and makes
      the record the prototype of the dictionary, and reading it gives the
      record back.  [Js.own] is the dictionary of own properties and
      [Js.readTool] is a read, inherited properties included.
    - [await] is sequential composition; an exception is the [Throw] case of
      the result type [res]; a promise that is never settled (a child that
      never ends, a process brought down by an unhandled [error] event) is
      the [Never] case. *)

From Stdlib Require Import ZArith Ascii.
From Stdlib Require QArith Qcanon.
From stdpp Require Import gmap strings list fin_maps pretty.

#[local] Set Warnings "-register-all".
Local Open Scope Z_scope.

(** ** Results of awaited calls *)

Inductive Error : Type :=
  | EISDIR | ENOTDIR | EEXIST | ENOENT | ZodError | SyntaxError | TypeError.

(** An awaited call returns a value, throws, or never settles. *)
Inductive res (A : Type) : Type :=
  | Ok (a : A)
  | Throw (e : Error)
  | Never.
Arguments Ok {A} a.
Arguments Throw {A} e.
Arguments Never {A}.

#[global] Instance res_ret : MRet res := λ A a, Ok a.
#[global] Instance res_bind : MBind res := λ A B k r,
  match r with Ok a => k a | Throw e => Throw e | Never => Never end.

(** Code that acts on a store [S]: what a call did to the store before it
    threw is kept, as in JavaScript. *)
Definition M (S A : Type) : Type := S → res A * S.

#[global] Instance M_ret {S} : MRet (M S) := λ A a s, (Ok a, s).
#[global] Instance M_bind {S} : MBind (M S) := λ A B k m s,
  match m s with
  | (Ok a, s') => k a s'
  | (Throw e, s') => (Throw e, s')
  | (Never, s') => (Never, s')
  end.

#[global] Instance M_fmap {S} : FMap (M S) := λ A B f m s,
  match m s with
  | (Ok a, s') => (Ok (f a), s')
  | (Throw e, s') => (Throw e, s')
  | (Never, s') => (Never, s')
  end.

Definition throw {S A} (e : Error) : M S A := λ s, (Throw e, s).
Definition liftRes {S A} (r : res A) : M S A := λ s, (r, s).
Definition gets {S A} (f : S → A) : M S A := λ s, (Ok (f s), s).
Definition modify {S} (f : S → S) : M S unit := λ s, (Ok tt, f s).

(** [try { m } catch (e) { h e }] *)
Definition tryCatch {S A} (m : M S A) (h : Error → M S A) : M S A := λ s,
  match m s with
  | (Throw e, s') => h e s'
  | r => r
  end.

(** Run code written for a part [S] of the store [T]. *)
Definition zoom {S T A} (get : T → S) (set : S → T → T) (m : M S A) : M T A :=
  λ t, let '(r, s') := m (get t) in (r, set s' t).

(** A computation leaves a component [f] of the store alone; and: it does so
    unless it returns. *)
Definition Preserves {S A X} (f : S → X) (m : M S A) : Prop :=
  ∀ s r s', m s = (r, s') → f s' = f s.

Definition PreservesOnFailure {S A X} (f : S → X) (m : M S A) : Prop :=
  ∀ s r s', m s = (r, s') → (∀ x, r ≠ Ok x) → f s' = f s.

(** A computation settles, whatever the store; and: it returns. *)
Definition Settles {S A} (m : M S A) : Prop := ∀ s, (m s).1 ≠ Never.

Definition Returns {S A} (m : M S A) : Prop := ∀ s, ∃ a s', m s = (Ok a, s').

(** Whatever a computation started in [s] does, [Q] holds of its result and
    of the store it leaves. *)
Definition Post {S A} (m : M S A) (s : S) (Q : res A → S → Prop) : Prop :=
  ∀ r s', m s = (r, s') → Q r s'.

(** ** Character and string helpers *)

Module Str.

Definition eqb_ascii (a b : ascii) : bool := bool_decide (a = b).

(** [s.startsWith(p)] *)
Fixpoint startsWith (p s : string) : bool :=
  match p, s with
  | EmptyString, _ => true
  | String a p', String b s' => eqb_ascii a b && startsWith p' s'
  | String _ _, EmptyString => false
  end.

(** [s.endsWith(c)] for a one-character [c] *)
Fixpoint endsWithChar (c : ascii) (s : string) : bool :=
  match s with
  | EmptyString => false
  | String a EmptyString => eqb_ascii a c
  | String _ s' => endsWithChar c s'
  end.

(** [s.includes(c)] for a one-character [c] *)
Fixpoint hasChar (c : ascii) (s : string) : bool :=
  match s with
  | EmptyString => false
  | String a s' => eqb_ascii a c || hasChar c s'
  end.

(** [s.split(c)]: always at least one piece *)
Fixpoint split (c : ascii) (s : string) : list string :=
  match s with
  | EmptyString => [EmptyString]
  | String a s' =>
      if eqb_ascii a c then EmptyString :: split c s'
      else match split c s' with
           | h :: t => String a h :: t
           | [] => [String a EmptyString]
           end
  end.

(** [l.join(sep)] *)
Fixpoint join (sep : string) (l : list string) : string :=
  match l with
  | [] => EmptyString
  | [x] => x
  | x :: r => x +:+ sep +:+ join sep r
  end.

(** [s.slice(n)] for [n >= 0] *)
Fixpoint drop (n : nat) (s : string) : string :=
  match n, s with
  | O, _ => s
  | S n', String _ s' => drop n' s'
  | S _, EmptyString => EmptyString
  end.

(** [s.includes('\0')]: Node refuses such a string as a path and as a part
    of a command line (a [TypeError] with code [ERR_INVALID_ARG_VALUE]). *)
Definition hasNul (s : string) : bool := hasChar Ascii.zero s.

End Str.

(** ** [path] (POSIX flavour of Node's module) *)

Module Path.

Definition slash : ascii := "/"%char.

(** [normalizeString(path, allowAboveRoot)], segment by segment: empty
    segments and [.] are dropped, [..] removes the segment before it unless
    there is none or it is itself [..]; in that case it is kept when
    [allowAboveRoot] and dropped otherwise.  The accumulator holds the
    result reversed. *)
Definition pushSegment (allowAboveRoot : bool) (acc : list string) (seg : string)
  : list string :=
  if bool_decide (seg = "") || bool_decide (seg = ".") then acc
  else if bool_decide (seg = "..") then
    match acc with
    | [] => if allowAboveRoot then [".."] else []
    | top :: rest =>
        if bool_decide (top = "..") then
          (if allowAboveRoot then ".." :: acc else acc)
        else rest
    end
  else seg :: acc.

Definition normalizeSegments (allowAboveRoot : bool) (segs : list string)
  : list string :=
  rev (fold_left (pushSegment allowAboveRoot) segs []).

Definition isAbsolute (p : string) : bool := Str.startsWith "/" p.

Definition normalize (p : string) : string :=
  if bool_decide (p = "") then "."
  else
    let abs := isAbsolute p in
    let trailing := Str.endsWithChar slash p in
    let body := Str.join "/" (normalizeSegments (negb abs) (Str.split slash p)) in
    if bool_decide (body = "") then
      (if abs then "/" else if trailing then "./" else ".")
    else
      let body := if trailing then body +:+ "/" else body in
      if abs then "/" +:+ body else body.

(** [path.join(...args)] *)
Definition join (args : list string) : string :=
  match filter (λ a, a ≠ "") args with
  | [] => "."
  | parts => normalize (Str.join "/" parts)
  end.

(** [path.dirname(p)]: the scan runs from the last character down to
    index 1, skips trailing slashes, and cuts at the first slash found after
    a character that is not one. *)
Fixpoint skipSlashes (r : list ascii) : list ascii :=
  match r with
  | c :: r' => if Str.eqb_ascii c slash then skipSlashes r' else r
  | [] => []
  end.

Fixpoint cutAtSlash (r : list ascii) : option (list ascii) :=
  match r with
  | c :: r' => if Str.eqb_ascii c slash then Some r' else cutAtSlash r'
  | [] => None
  end.

Definition dirname (p : string) : string :=
  match p with
  | EmptyString => "."
  | String c0 rest =>
      let hasRoot := Str.eqb_ascii c0 slash in
      match cutAtSlash (skipSlashes (rev (String.list_ascii_of_string rest))) with
      | None => if hasRoot then "/" else "."
      | Some [] => if hasRoot then "//" else String c0 EmptyString
      | Some before => String c0 (String.string_of_list_ascii (rev before))
      end
  end.

End Path.

(** ** JSON values and the manifest schema *)

(** A JavaScript number. *)
Inductive Number : Type :=
  | Rational (q : Qcanon.Qc)
  | Infinite (negative : bool)
  | NaN.

#[global] Instance Qc_eq_decision : EqDecision Qcanon.Qc := Qcanon.Qc_eq_dec.

#[global] Instance Number_eq_dec : EqDecision Number.
Proof. solve_decision. Defined.

(** An integer as a number. *)
Definition ofZ (n : Z) : Number :=
  Rational (Qcanon.Q2Qc (QArith_base.inject_Z n)).

Definition isFinite (n : Number) : bool :=
  match n with Rational _ => true | _ => false end.

Inductive json : Type :=
  | JNull
  | JBool (b : bool)
  | JNum (n : Number)
  | JStr (s : string)
  | JArr (l : list json)
  | JObj (fields : list (string * json)).

(** [o[k]] on an own key of a value: [None] is [undefined]. *)
Fixpoint assoc (k : string) (fields : list (string * json)) : option json :=
  match fields with
  | [] => None
  | (k', v) :: r => if bool_decide (k' = k) then Some v else assoc k r
  end.

Definition prop (k : string) (j : json) : option json :=
  match j with JObj fields => assoc k fields | _ => None end.

(** Truthiness of a value that may be [undefined]. *)
Definition truthy (v : option json) : bool :=
  match v with
  | None | Some JNull | Some (JBool false) => false
  | Some (JNum n) => negb (bool_decide (n = ofZ 0)) && negb (bool_decide (n = NaN))
  | Some (JStr s) => negb (bool_decide (s = ""))
  | Some _ => true
  end.

(** [v || d] *)
Definition orElse (v : option json) (d : json) : json :=
  match v with
  | Some j => if truthy v then j else d
  | None => d
  end.

Inductive Language : Type := python | node.

#[global] Instance Language_eq_dec : EqDecision Language.
Proof. solve_decision. Defined.

Definition languageName (l : Language) : string :=
  match l with python => "python" | node => "node" end.

Record InputSpec : Type := mkInput {
  in_name : string; in_type : string; in_required : option bool }.

Record OutputSpec : Type := mkOutput { out_name : string; out_type : string }.

(** The output type of the [ToolManifest] schema (fields [id], [name], ...). *)
Record Manifest : Type := mkManifest {
  m_id : string;
  m_name : string;
  m_purpose : string;
  m_language : Language;
  m_entry : string;
  m_inputs : list InputSpec;
  m_outputs : list OutputSpec;
  m_usage : string;
  m_createdAt : Number;
  m_updatedAt : Number }.

(** The zod combinators that the schema uses.  Each one takes the property
    as read from the object ([None] when the key is absent). *)
Module Zod.

Definition string_ (v : option json) : res string :=
  match v with Some (JStr s) => Ok s | _ => Throw ZodError end.

(** [z.number()] of zod 3: any number but NaN, the infinities included. *)
Definition number_ (v : option json) : res Number :=
  match v with
  | Some (JNum NaN) => Throw ZodError
  | Some (JNum n) => Ok n
  | _ => Throw ZodError
  end.

Definition boolean_optional (v : option json) : res (option bool) :=
  match v with
  | None => Ok None
  | Some (JBool b) => Ok (Some b)
  | _ => Throw ZodError
  end.

Definition enum_language (v : option json) : res Language :=
  match v with
  | Some (JStr s) =>
      if bool_decide (s = "python") then Ok python
      else if bool_decide (s = "node") then Ok node
      else Throw ZodError
  | _ => Throw ZodError
  end.

Definition string_default (d : string) (v : option json) : res string :=
  match v with None => Ok d | _ => string_ v end.

(** [z.array(item)]: every element is parsed, a failure fails the array. *)
Fixpoint array_ {A} (item : json → res A) (l : list json) : res (list A) :=
  match l with
  | [] => Ok []
  | j :: r => a ← item j; t ← array_ item r; Ok (a :: t)
  end.

Definition array_default {A} (item : json → res A) (v : option json)
  : res (list A) :=
  match v with
  | None => Ok []
  | Some (JArr l) => array_ item l
  | _ => Throw ZodError
  end.

Definition object_ (j : json) : res json :=
  match j with JObj _ => Ok j | _ => Throw ZodError end.

End Zod.

Definition parseInput (j : json) : res InputSpec :=
  o ← Zod.object_ j;
  n ← Zod.string_ (prop "name" o);
  t ← Zod.string_ (prop "type" o);
  r ← Zod.boolean_optional (prop "required" o);
  Ok (mkInput n t r).

Definition parseOutput (j : json) : res OutputSpec :=
  o ← Zod.object_ j;
  n ← Zod.string_ (prop "name" o);
  t ← Zod.string_ (prop "type" o);
  Ok (mkOutput n t).

(** [ToolManifest.parse(m)] *)
Definition ToolManifest_parse (m : json) : res Manifest :=
  o ← Zod.object_ m;
  i ← Zod.string_ (prop "id" o);
  n ← Zod.string_ (prop "name" o);
  p ← Zod.string_ (prop "purpose" o);
  l ← Zod.enum_language (prop "language" o);
  e ← Zod.string_ (prop "entry" o);
  ins ← Zod.array_default parseInput (prop "inputs" o);
  outs ← Zod.array_default parseOutput (prop "outputs" o);
  u ← Zod.string_default "" (prop "usage" o);
  c ← Zod.number_ (prop "createdAt" o);
  up ← Zod.number_ (prop "updatedAt" o);
  Ok (mkManifest i n p l e ins outs u c up).

(** The object that the schema returns: the schema's keys only, an absent
    optional key left out. *)
Definition inputToJson (i : InputSpec) : json :=
  JObj ([("name", JStr (in_name i)); ("type", JStr (in_type i))] ++
        match in_required i with
        | Some b => [("required", JBool b)]
        | None => []
        end).

Definition outputToJson (o : OutputSpec) : json :=
  JObj [("name", JStr (out_name o)); ("type", JStr (out_type o))].

Definition manifestToJson (m : Manifest) : json :=
  JObj [ ("id", JStr (m_id m)); ("name", JStr (m_name m));
         ("purpose", JStr (m_purpose m));
         ("language", JStr (languageName (m_language m)));
         ("entry", JStr (m_entry m));
         ("inputs", JArr (inputToJson <$> m_inputs m));
         ("outputs", JArr (outputToJson <$> m_outputs m));
         ("usage", JStr (m_usage m));
         ("createdAt", JNum (m_createdAt m));
         ("updatedAt", JNum (m_updatedAt m)) ].

(** [JSON.parse(JSON.stringify(j))]: what is read back of a value written as
    JSON.  An infinity and NaN are written as [null]; every other value is
    read back as it was. *)
Module Json.

Fixpoint stored (j : json) : json :=
  match j with
  | JNum (Rational _) => j
  | JNum _ => JNull
  | JArr l => JArr (map stored l)
  | JObj fields => JObj (map (λ kv, (kv.1, stored kv.2)) fields)
  | _ => j
  end.

End Json.

(** ** The file system seen through [fs-extra] *)

Inductive Content : Type :=
  | Text (s : string)      (* written by [writeFile] *)
  | JsonDoc (j : json).    (* written by [writeJson] *)

Inductive Node : Type :=
  | Dir
  | File (c : Content).

(** A file system maps a location (the names from the root, or from the
    working directory for a relative path) to what is there. *)
Abbreviation FS := (gmap (list string) Node).

Module Fs.

(** Path resolution: [/a/b] is [[""; "a"; "b"]], [a/b] is [["a"; "b"]],
    [.] is the empty list (the working directory); repeated and trailing
    slashes and [.] segments do not matter. *)
Definition locate (p : string) : list string :=
  match filter (λ s, s ≠ ".") (Str.split Path.slash p) with
  | "" :: rest => "" :: filter (λ s, s ≠ "") rest
  | segs => filter (λ s, s ≠ "") segs
  end.

(** The root and the working directory always exist. *)
Definition isBase (loc : list string) : bool :=
  bool_decide (loc = []) || bool_decide (loc = [""]).

Definition isDir (fs : FS) (loc : list string) : bool :=
  isBase loc || match fs !! loc with Some Dir => true | _ => false end.

(** [mkdir -p], level by level: it fails on a file in the way (with
    [EEXIST] when the file is the last component of the path and [ENOTDIR]
    when it is above it) and keeps the directories made before that. *)
Fixpoint mkdirs (above : list string) (todo : list string) : M FS unit :=
  match todo with
  | [] => mret tt
  | n :: todo' =>
      let d := above ++ [n] in
      λ fs, match fs !! d with
            | Some (File _) =>
                (Throw (match todo' with [] => EEXIST | _ => ENOTDIR end), fs)
            | _ => mkdirs d todo' (<[d := Dir]> fs)
            end
  end.

(** [fs.ensureDir(p)].  A path that holds a NUL character is refused
    before anything is made; so it is by the calls below. *)
Definition ensureDir (p : string) : M FS unit :=
  if Str.hasNul p then throw TypeError else mkdirs [] (locate p).

(** [fs.writeFile] and [fs.writeJson]: the parent must be a directory and
    the target must not be one; an existing file is replaced. *)
Definition write (p : string) (c : Content) : M FS unit := λ fs,
  let loc := locate p in
  if Str.hasNul p then (Throw TypeError, fs)
  else if Str.endsWithChar Path.slash p || isDir fs loc then (Throw EISDIR, fs)
  else if isDir fs (removelast loc) then (Ok tt, <[loc := File c]> fs)
  else (Throw ENOENT, fs).

Definition writeFile (p : string) (s : string) : M FS unit := write p (Text s).

(** [fs.writeJson(p, j)] writes [JSON.stringify(j)]: the file holds what
    [JSON.parse] makes of that text. *)
Definition writeJson (p : string) (j : json) : M FS unit :=
  write p (JsonDoc (Json.stored j)).

(** [fs.pathExists(p)] never throws: the refusal of a path with a NUL
    character is caught and answered [false]. *)
Definition pathExists (p : string) : M FS bool := gets (λ fs,
  let loc := locate p in
  if Str.hasNul p then false
  else if Str.endsWithChar Path.slash p then isDir fs loc
  else isBase loc || match fs !! loc with Some _ => true | None => false end).

(** [fs.readJson(p)].  What [writeJson] stored is read back; other text
    goes through [JSON.parse], a parameter. *)
Definition readJson (JSON_parse : string → option json) (p : string)
  : M FS json := λ fs,
  if Str.hasNul p then (Throw TypeError, fs)
  else
    match fs !! locate p with
    | Some (File (JsonDoc j)) => (Ok j, fs)
    | Some (File (Text s)) =>
        match JSON_parse s with
        | Some j => (Ok j, fs)
        | None => (Throw SyntaxError, fs)
        end
    | Some Dir => (Throw EISDIR, fs)
    | None => (Throw ENOENT, fs)
    end.

(** [k] is directly under [d]: its name. *)
Fixpoint childName (d k : list string) : option string :=
  match d, k with
  | [], [n] => Some n
  | a :: d', b :: k' => if bool_decide (a = b) then childName d' k' else None
  | _, _ => None
  end.

(** [fs.readdir(p)]: the names directly under the directory. *)
Definition readdir (p : string) : M FS (list string) := λ fs,
  let d := locate p in
  if Str.hasNul p then (Throw TypeError, fs)
  else if isDir fs d then
    (Ok (omap (λ kv, childName d kv.1) (map_to_list fs)), fs)
  else (Throw ENOENT, fs).

End Fs.

(** ** [src/core/tools.mjs] *)

(** What [saveTool] returns and [loadTools] collects:
    [{ ...parsed, path, manifestPath }]. *)
Record ToolRecord : Type := mkTool {
  manifest : Manifest;
  path : string;
  manifestPath : string }.

Module Tools.

Definition saveTool (sandboxDir : string) (m : json) : M FS ToolRecord :=
  parsed ← liftRes (ToolManifest_parse m);
  let toolsDir := Path.join [sandboxDir; "tools"; m_id parsed] in
  _ ← Fs.ensureDir toolsDir;
  let manifestPath := Path.join [toolsDir; "manifest.json"] in
  _ ← Fs.writeJson manifestPath (manifestToJson parsed);
  mret (mkTool parsed toolsDir manifestPath).

(** The loop of [writeToolCode] over [Object.entries(files)]; a content
    that is not a string is refused by [fs.writeFile]. *)
Fixpoint writeFiles (toolsDir : string) (files : list (string * json))
  : M FS unit :=
  match files with
  | [] => mret tt
  | (rel, content) :: rest =>
      let abs := Path.join [toolsDir; rel] in
      _ ← Fs.ensureDir (Path.dirname abs);
      _ ← match content with
          | JStr s => Fs.writeFile abs s
          | _ => throw TypeError
          end;
      writeFiles toolsDir rest
  end.

Definition writeToolCode (sandboxDir toolId : string)
    (files : list (string * json)) : M FS string :=
  let toolsDir := Path.join [sandboxDir; "tools"; toolId] in
  _ ← Fs.ensureDir toolsDir;
  _ ← writeFiles toolsDir files;
  mret toolsDir.

Section Load.
Variable JSON_parse : string → option json.

(** One turn of the loop of [loadTools]; [fs] is not changed by it. *)
Definition loadOne (toolsRoot : string) (fs : FS)
    (out : gmap string ToolRecord) (d : string) : gmap string ToolRecord :=
  let manifestPath := Path.join [toolsRoot; d; "manifest.json"] in
  match Fs.pathExists manifestPath fs with
  | (Ok true, _) =>
      match (m ← Fs.readJson JSON_parse manifestPath;
             liftRes (ToolManifest_parse m)) fs with
      | (Ok parsed, _) =>
          <[d := mkTool parsed (Path.join [toolsRoot; d]) manifestPath]> out
      | _ => out  (* skip bad manifest *)
      end
  | _ => out
  end.

Definition loadTools (sandboxDir : string) : M FS (gmap string ToolRecord) :=
  let toolsRoot := Path.join [sandboxDir; "tools"] in
  _ ← Fs.ensureDir toolsRoot;
  names ← Fs.readdir toolsRoot;
  let ids := filter (λ d, Str.startsWith "." d = false) names in
  fs ← gets (λ fs, fs);
  mret (fold_left (loadOne toolsRoot fs) ids ∅).
End Load.

End Tools.

(** ** [src/core/memory.mjs] *)

Inductive Role : Type := user | assistant | system.

(** A turn of the history; the synthetic entry of [summarizeHistory] has no
    [ts]. *)
Record Turn : Type := mkTurn { role : Role; content : string; ts : option Z }.

Record Memory : Type := mkMemory {
  mem_tools : gmap string ToolRecord;
  history : list Turn;
  mem_runs : list json }.

Module Mem.

(** [memory.history.push({ role, content, ts: Date.now() })] *)
Definition addHistory (r : Role) (c : string) (now : Z) : M Memory unit :=
  modify (λ m, mkMemory (mem_tools m) (history m ++ [mkTurn r c (Some now)])
                        (mem_runs m)).

(** [l.slice(-n)]: the last [n] elements, and all of [l] for [-0]. *)
Definition sliceLast {A} (n : nat) (l : list A) : list A :=
  match n with
  | O => l
  | _ => drop (length l - n) l
  end.

Definition omittedNote (omitted : nat) : Turn :=
  mkTurn system
    ("Summarized context: " +:+ pretty omitted +:+ " earlier turns omitted.")
    None.

(** [summarizeHistory(memory, maxTurns = 40)]: the value returned, and the
    memory after the call. *)
Definition summarizeHistory (maxTurns : nat) : M Memory (list Turn) :=
  λ memory,
    if bool_decide (length (history memory) ≤ maxTurns)%nat
    then (Ok (history memory), memory)
    else
      let keep := sliceLast maxTurns (history memory) in
      let omitted := (length (history memory) - length keep)%nat in
      (Ok (omittedNote omitted :: keep), memory).

End Mem.

(** ** [src/core/sandbox.mjs] *)

Inductive Chunk : Type :=
  | OutChunk (s : string)    (* a [data] event of [p.stdout] *)
  | ErrChunk (s : string).   (* a [data] event of [p.stderr] *)

(** What the handlers installed by [_spawnWithLogs] can be called with. *)
Inductive ChildEvent : Type :=
  | Data (c : Chunk)
  | ExitEv (code : option Z) (signal : option string)
  | ErrorEv (err : string)   (* the argument is [String(err)] *)
  | TimerEv.                 (* the [setTimeout] callback *)

(** How a child process ends.  Node's [exit] event carries the exit code of a
    process that exited by itself, and [null] with the signal's name for one
    that a signal terminated; a process that could not be started gives an
    [error] event. *)
Inductive Ending : Type :=
  | Exits (code : Z)
  | Signalled (signal : string)
  | SpawnFails (err : string).

(** What a spawned child does when it is left alone.  Times are in
    milliseconds after the spawn.
    - [output]: what it prints, and when.
    - [ending]: when and how it ends; [None]: it never does.
    - [late]: output that arrives after the [exit] event, while the pipes are
      still open.
    - [brokenPipe]: [Some before] when the child closes its standard input
      before it has read what is written to it.  The write then fails with
      [EPIPE], an [error] event of [p.stdin], which has no listener: the
      process is brought down, after its callbacks have seen [before]. *)
Record Fate : Type := mkFate {
  output : list (Z * Chunk);
  ending : option (Z * Ending);
  late : list Chunk;
  brokenPipe : option (list Chunk) }.

Definition endingEvent (e : Ending) : ChildEvent :=
  match e with
  | Exits c => ExitEv (Some c) None
  | Signalled sig => ExitEv None (Some sig)
  | SpawnFails err => ErrorEv err
  end.

(** The output that has arrived before the moment [t]. *)
Definition arrivedBy (t : Z) (out : list (Z * Chunk)) : list Chunk :=
  (filter (λ tc : Z * Chunk, tc.1 < t) out).*2.

(** [setTimeout(f, ms)]: a delay outside 1..2^31-1 is replaced by 1. *)
Definition timerDelay (ms : Z) : Z :=
  if bool_decide (1 ≤ ms ≤ 2147483647) then ms else 1.

(** The events of a child that nobody kills, in the order the handlers see
    them, with the moment of the timer among them: the timer comes after the
    end of a child that ends before the delay has passed, and before
    everything that the child does later otherwise. *)
Definition events (delay : Z) (f : Fate) : list ChildEvent :=
  match ending f with
  | Some (t, e) =>
      if bool_decide (t < delay)
      then (Data <$> arrivedBy t (output f)) ++ endingEvent e
             :: (Data <$> late f) ++ [TimerEv]
      else (Data <$> arrivedBy delay (output f)) ++ [TimerEv]
  | None => (Data <$> arrivedBy delay (output f)) ++ [TimerEv]
  end.

(** What follows [p.kill('SIGKILL')]: the child is terminated by the signal,
    and its [exit] event carries no code. *)
Definition killed (f : Fate) : list ChildEvent :=
  ExitEv None (Some "SIGKILL") :: (Data <$> late f).

Record RunResult : Type := mkResult {
  code : option Z;
  stdout : string;
  stderr : string;
  logFile : string }.

Record Limits : Type := mkLimits {
  timeoutMs : Z; memoryMb : Z; cpu : string; network : bool }.

(** [config.limits]: any key may be missing. *)
Record LimitsOpt : Type := mkLimitsOpt {
  o_timeoutMs : option Z; o_memoryMb : option Z;
  o_cpu : option string; o_network : option bool }.

Record Spawned : Type := mkSpawned {
  command : string;
  argv : list json;
  sp_stdin : json;
  cwd : string;
  env : list (string * string) }.

Record Request : Type := mkRequest {
  rq_language : Language;
  rq_entry : string;
  rq_args : list json;
  rq_stdin : json;
  rq_runId : option string;
  rq_onStdout : bool;      (* is a callback given *)
  rq_onStderr : bool }.

(** Everything outside the program. *)
Record World : Type := mkWorld {
  now : nat → Z;                           (* the n-th [Date.now()] *)
  dockerProbe : nat → option Ending;       (* [docker --version]; [None]: hangs *)
  fate : nat → Spawned → Fate;             (* the n-th child spawned *)
  relative : string → string → string;     (* [path.relative] *)
  JSON_parse : string → option json;
  (* the patch that [parseJsonBlocks] finds in the n-th answer of the model:
     [Object.entries(fixJson.files)], or [None] when [fixJson?.files] is falsy *)
  patch : nat → string → res (option (list (string * json)));
  (* the edit of requirements.txt or package.json by the dependency
     heuristic (agent.mjs, lines 183-188 and 205-214) *)
  editDeps : Language → string → string → M FS unit;
  message : Error → string }.

(** The store of the process. *)
Record Proc : Type := mkProc {
  p_fs : FS;
  p_seen : list Chunk;     (* what [onStdout] and [onStderr] were called with *)
  p_spawned : nat;         (* children spawned so far *)
  p_ticks : nat }.         (* readings of the clock so far *)

Definition inFs {A} : M FS A → M Proc A :=
  zoom p_fs (λ fs p, mkProc fs (p_seen p) (p_spawned p) (p_ticks p)).

Definition isStr (j : json) : bool :=
  match j with JStr _ => true | _ => false end.

Module Sandbox.

Section WithWorld.
Variable w : World.

Definition dateNow : M Proc Z := λ p,
  (Ok (now w (p_ticks p)),
   mkProc (p_fs p) (p_seen p) (p_spawned p) (S (p_ticks p))).

(** The constructor: defaults, then the given limits. *)
Definition mkLimitsOf (l : LimitsOpt) : Limits :=
  mkLimits (default 60000 (o_timeoutMs l)) (default 512 (o_memoryMb l))
           (default "0.5" (o_cpu l)) (default false (o_network l)).

Record t : Type := new {
  sandboxDir : string; logsDir : string; limits : Limits }.

Definition ensure (sb : t) : M FS unit :=
  _ ← Fs.ensureDir (sandboxDir sb);
  _ ← Fs.ensureDir (logsDir sb);
  _ ← Fs.ensureDir (Path.join [sandboxDir sb; "tools"]);
  Fs.ensureDir (Path.join [sandboxDir sb; "runs"]).

(** [hasDocker]: [false] on [error], [code === 0] on [exit]; there is no
    timer on the probe. *)
Definition hasDocker : M Proc bool := λ p,
  let p' := mkProc (p_fs p) (p_seen p) (S (p_spawned p)) (p_ticks p) in
  match dockerProbe w (p_spawned p) with
  | Some (Exits c) => (Ok (bool_decide (c = 0)), p')
  | Some (Signalled _) => (Ok false, p')
  | Some (SpawnFails _) => (Ok false, p')
  | None => (Never, p')
  end.

(** The variables that the handlers of [_spawnWithLogs] close over. *)
Record Capture : Type := mkCapture {
  acc_stdout : string;
  acc_stderr : string;
  settled : option RunResult;   (* the promise, once resolved *)
  armed : bool;                 (* the timer is pending *)
  killSent : bool }.

(** [resolve(r)] settles a pending promise only. *)
Definition resolve (c : Capture) (r : RunResult) : option RunResult :=
  match settled c with Some r0 => Some r0 | None => Some r end.

Definition onEvent (onStdout onStderr : bool) (logFile : string)
    (st : Capture * list Chunk) (ev : ChildEvent) : Capture * list Chunk :=
  let '(c, seen) := st in
  match ev with
  | Data (OutChunk s) =>
      (mkCapture (acc_stdout c +:+ s) (acc_stderr c) (settled c) (armed c)
                 (killSent c),
       if onStdout then seen ++ [OutChunk s] else seen)
  | Data (ErrChunk s) =>
      (mkCapture (acc_stdout c) (acc_stderr c +:+ s) (settled c) (armed c)
                 (killSent c),
       if onStderr then seen ++ [ErrChunk s] else seen)
  | ExitEv code _ =>
      (mkCapture (acc_stdout c) (acc_stderr c)
         (resolve c (mkResult code (acc_stdout c) (acc_stderr c) logFile))
         false (killSent c), seen)
  | ErrorEv err =>
      (mkCapture (acc_stdout c) (acc_stderr c)
         (resolve c (mkResult (Some (-1)) (acc_stdout c) err logFile))
         false (killSent c), seen)
  | TimerEv =>
      (* the callback [p.kill('SIGKILL')], unless [clearTimeout] came first *)
      (if armed c
       then mkCapture (acc_stdout c) (acc_stderr c) (settled c) (armed c) true
       else c, seen)
  end.

Definition startCapture : Capture := mkCapture "" "" None true false.

(** The handlers run over the events of a child.  The child is killed
    only if the timer's callback has run; then the events of the kill
    follow. *)
Definition handle (onStdout onStderr : bool) (logFile : string)
    (delay : Z) (f : Fate) (seen : list Chunk) : Capture * list Chunk :=
  let st := fold_left (onEvent onStdout onStderr logFile) (events delay f)
                      (startCapture, seen) in
  if killSent st.1
  then fold_left (onEvent onStdout onStderr logFile) (killed f) st
  else st.

(** [spawn] throws on a command, a string argument, a working directory
    or an environment variable that holds a NUL character.  An argument
    that is not a string is converted to one. *)
Definition argRefused (a : json) : bool :=
  match a with JStr s => Str.hasNul s | _ => false end.

Definition refuses (sp : Spawned) : bool :=
  Str.hasNul (command sp) || existsb argRefused (argv sp)
  || Str.hasNul (cwd sp)
  || existsb (λ kv : string * string, Str.hasNul kv.1 || Str.hasNul kv.2)
             (env sp).

(** [_spawnWithLogs]; the writes to the log stream are left out.  When
    [spawn] throws, no child exists.  When [p.stdin.write] throws (a
    truthy standard input that is not a string), the promise is rejected
    but the child runs, with the handlers of its output and the timer in
    place. *)
Definition _spawnWithLogs (sb : t) (sp : Spawned) (logFile : string)
    (onStdout onStderr : bool) : M Proc RunResult := λ p,
  if refuses sp then (Throw TypeError, p)
  else
    let f := fate w (p_spawned p) sp in
    let after seen := mkProc (p_fs p) seen (S (p_spawned p)) (p_ticks p) in
    let '(c, seen) := handle onStdout onStderr logFile
                        (timerDelay (timeoutMs (limits sb))) f (p_seen p) in
    if negb (truthy (Some (sp_stdin sp))) then
      match settled c with
      | Some r => (Ok r, after seen)
      | None => (Never, after seen)
      end
    else if negb (isStr (sp_stdin sp)) then (Throw TypeError, after seen)
    else
      match brokenPipe f with
      | Some before =>
          (Never,
           after (fold_left (onEvent onStdout onStderr logFile)
                            (Data <$> before) (startCapture, p_seen p)).2)
      | None =>
          match settled c with
          | Some r => (Ok r, after seen)
          | None => (Never, after seen)
          end
      end.

Definition interpreterImage (l : Language) : string :=
  match l with python => "python:3.11-alpine" | node => "node:20-alpine" end.

(** The files that [run] looks at before it spawns anything. *)
Record Layout : Type := mkLayout {
  lay_logFile : string;
  lay_toolDir : string;
  lay_toolRel : string;
  lay_pyReq : string;
  lay_hasPyReq : bool;
  lay_hasNodePkg : bool }.

Definition spawnLogged (sb : t) (rq : Request) (lay : Layout) (sp : Spawned)
  : M Proc RunResult :=
  _spawnWithLogs sb sp (lay_logFile lay) (rq_onStdout rq) (rq_onStderr rq).

(** The branch [if (docker)]. *)
Definition runDocker (sb : t) (rq : Request) (lay : Layout)
  : M Proc RunResult :=
  let language := rq_language rq in
  let image := interpreterImage language in
  let cmd := (if bool_decide (language = python)
              then [JStr "python"] else [JStr "node"])
             ++ JStr (rq_entry rq) :: rq_args rq in
  let argsDocker :=
    JStr <$> (["run"; "--rm"; "-i"; "-v"; sandboxDir sb +:+ ":/app";
               "-w"; "/app";
               "--memory"; pretty (memoryMb (limits sb)) +:+ "m";
               "--cpus"; cpu (limits sb)]
              ++ if network (limits sb) then [] else ["--network"; "none"]) in
  let site := Path.join ["/app"; lay_toolRel lay; ".site"] in
  let req := Path.join ["/app"; lay_toolRel lay; "requirements.txt"] in
  envVars ←
    (if network (limits sb) && bool_decide (language = python)
        && lay_hasPyReq lay
     then
       _ ← spawnLogged sb rq lay
             (mkSpawned "docker"
                (argsDocker ++ (JStr <$> [image; "sh"; "-lc";
                   "python -m pip install --no-cache-dir -t " +:+ site
                   +:+ " -r " +:+ req]))
                (JStr "") (sandboxDir sb) []);
       mret [("PYTHONPATH", site)]
     else mret []);
  _ ← (if network (limits sb) && bool_decide (language = node)
          && lay_hasNodePkg lay
       then
         _ ← spawnLogged sb rq lay
               (mkSpawned "docker"
                  (argsDocker ++ (JStr <$> [image; "sh"; "-lc";
                     "cd " +:+ Path.join ["/app"; lay_toolRel lay]
                     +:+ " && npm install --omit=dev"]))
                  (JStr "") (sandboxDir sb) []);
         mret tt
       else mret tt);
  let envArgs :=
    flat_map (λ kv : string * string,
                [JStr "-e"; JStr (kv.1 +:+ "=" +:+ kv.2)]) envVars in
  spawnLogged sb rq lay
    (mkSpawned "docker" (argsDocker ++ envArgs ++ JStr image :: cmd)
               (rq_stdin rq) (sandboxDir sb) []).

(** The fallback: local execution with the sandbox as working directory. *)
Definition runLocal (sb : t) (rq : Request) (lay : Layout)
  : M Proc RunResult :=
  let language := rq_language rq in
  let command := if bool_decide (language = python) then "python3" else "node" in
  let execArgs := JStr (rq_entry rq) :: rq_args rq in
  let site := Path.join [lay_toolDir lay; ".site"] in
  envVars ←
    (if network (limits sb) && bool_decide (language = python)
        && lay_hasPyReq lay
     then
       _ ← spawnLogged sb rq lay
             (mkSpawned "sh"
                (JStr <$> ["-lc";
                   "python3 -m pip install --no-cache-dir -t " +:+ site
                   +:+ " -r " +:+ lay_pyReq lay])
                (JStr "") (sandboxDir sb) []);
       mret [("PYTHONPATH", site)]
     else mret []);
  _ ← (if network (limits sb) && bool_decide (language = node)
          && lay_hasNodePkg lay
       then
         _ ← spawnLogged sb rq lay
               (mkSpawned "sh"
                  (JStr <$> ["-lc";
                     "cd " +:+ lay_toolDir lay +:+ " && npm install --omit=dev"])
                  (JStr "") (sandboxDir sb) []);
         mret tt
       else mret tt);
  spawnLogged sb rq lay
    (mkSpawned command execArgs (rq_stdin rq) (sandboxDir sb) envVars).

Definition layout (sb : t) (rq : Request) : M Proc Layout :=
  _ ← inFs (ensure sb);
  runName ← (match rq_runId rq with
             | Some r => if bool_decide (r = "") then pretty <$> dateNow
                         else mret r
             | None => pretty <$> dateNow
             end);
  let runDir := Path.join [sandboxDir sb; "runs"; runName] in
  _ ← inFs (Fs.ensureDir runDir);
  let logFile := Path.join [runDir; "exec.log"] in
  let toolDir := Path.dirname (Path.join [sandboxDir sb; rq_entry rq]) in
  let toolRel := relative w (sandboxDir sb) toolDir in
  let pyReq := Path.join [toolDir; "requirements.txt"] in
  hasPyReq ← inFs (Fs.pathExists pyReq);
  let nodePkg := Path.join [toolDir; "package.json"] in
  hasNodePkg ← inFs (Fs.pathExists nodePkg);
  mret (mkLayout logFile toolDir toolRel pyReq hasPyReq hasNodePkg).

Definition run (sb : t) (rq : Request) : M Proc RunResult :=
  lay ← layout sb rq;
  docker ← hasDocker;
  match docker with
  | true => runDocker sb rq lay
  | false => runLocal sb rq lay
  end.

End WithWorld.

End Sandbox.

(** ** [src/core/agent.mjs]: tool creation and the run chain *)

(** An element of [runs]. *)
Inductive RunEntry : Type :=
  | NotFound (id : option string)            (* [{ id, error: 'Tool not found' }] *)
  | Attempt (id : string) (args : list json) (r : RunResult)
                                             (* [{ id, args, ...res }] *)
  | RetryOf (id : string) (reason : option string) (r : RunResult).
                                             (* [{ id, retry: true, reason?, ...retry }] *)

(** An element of [plan.run]; [c_stdin = None] when the call has no own
    property [stdin]. *)
Record RunCall : Type := mkCall {
  c_id : option string;
  c_toolId : option string;
  c_args : option (list json);
  c_stdin : option json }.

Record Config : Type := mkConfig {
  cfg_dataDir : string;
  cfg_sandboxDir : string;
  cfg_limits : option LimitsOpt;
  cfg_interactive : bool }.

(** The variables of [runAgentLoop] that its steps change. *)
Record Agent : Type := mkAgent {
  proc : Proc;
  memory : Memory;
  tools : gmap string ToolRecord;
  created : list string;
  createdFiles : gmap string (list string);
  runs : list RunEntry;
  runIndex : gmap string RunResult;
  lastRun : option RunResult;
  asked : nat;                 (* answers of the model consumed so far *)
  requests : list Request }.   (* the arguments of the calls of [sandbox.run] *)

Definition inProc {A} : M Proc A → M Agent A :=
  zoom proc (λ p a, mkAgent p (memory a) (tools a) (created a) (createdFiles a)
                            (runs a) (runIndex a) (lastRun a) (asked a)
                            (requests a)).

Definition inMemory {A} : M Memory A → M Agent A :=
  zoom memory (λ m a, mkAgent (proc a) m (tools a) (created a) (createdFiles a)
                              (runs a) (runIndex a) (lastRun a) (asked a)
                              (requests a)).

Module Js.

Definition isUpper (c : ascii) : bool :=
  let n := nat_of_ascii c in (65 <=? n)%nat && (n <=? 90)%nat.

Definition lowerChar (c : ascii) : ascii :=
  if isUpper c then ascii_of_nat (nat_of_ascii c + 32) else c.

(** [s.toLowerCase()] on the letters A-Z. *)
Fixpoint toLowerCase (s : string) : string :=
  match s with
  | EmptyString => EmptyString
  | String c r => String (lowerChar c) (toLowerCase r)
  end.

(** The characters a-z and 0-9 *)
Definition isSlugChar (c : ascii) : bool :=
  let n := nat_of_ascii c in
  ((97 <=? n)%nat && (n <=? 122)%nat) || ((48 <=? n)%nat && (n <=? 57)%nat).

(** [s.replace(/[^a-z0-9]+/g, '-')]: [inRun] tells that the previous
    character was already replaced. *)
Fixpoint dashRuns (inRun : bool) (s : string) : string :=
  match s with
  | EmptyString => EmptyString
  | String c r =>
      if isSlugChar c then String c (dashRuns false r)
      else if inRun then dashRuns true r
      else String "-"%char (dashRuns true r)
  end.

(** [Object.entries(v)] of a JSON value, own keys in insertion order. *)
Definition entries (v : json) : list (string * json) :=
  match v with
  | JObj fields => fields
  | JArr l => imap (λ i x, (pretty i, x)) l
  | JStr s => imap (λ i c, (pretty i, JStr (String c EmptyString)))
                   (String.list_ascii_of_string s)
  | _ => []
  end.

(** The longest prefix of [s] without a character of the class [stop], and
    the rest. *)
Fixpoint span (stop : ascii → bool) (s : string) : string * string :=
  match s with
  | EmptyString => (EmptyString, EmptyString)
  | String c r =>
      if stop c then (EmptyString, s)
      else let '(a, b) := span stop r in (String c a, b)
  end.

(** [s] without the prefix [p], when it starts with it. *)
Fixpoint stripPrefix (p s : string) : option string :=
  match p, s with
  | EmptyString, _ => Some s
  | String a p', String b s' =>
      if Str.eqb_ascii a b then stripPrefix p' s' else None
  | String _ _, EmptyString => None
  end.

Definition isQuote (c : ascii) : bool :=
  Str.eqb_ascii c "'"%char || Str.eqb_ascii c (ascii_of_nat 34).

(** A match at the start of [s] of the prefix, a quote (single or double),
    a group of one or more characters that are not quotes, and a quote:
    the group.  The group is greedy, so it is the longest run without a
    quote, and the character after it has to be a quote. *)
Definition quotedHere (prefix s : string) : option string :=
  match stripPrefix prefix s with
  | Some (String q rest) =>
      if isQuote q then
        match span isQuote rest with
        | (String c g, String _ _) => Some (String c g)
        | _ => None
        end
      else None
  | _ => None
  end.

(** [s.match(re)] for such a pattern: group 1 of the leftmost match. *)
Fixpoint matchQuoted (prefix s : string) : option string :=
  match quotedHere prefix s with
  | Some g => Some g
  | None =>
      match s with
      | EmptyString => None
      | String _ r => matchQuoted prefix r
      end
  end.

(** *** Reading a dictionary of tools *)

(** The own properties of a dictionary: what was assigned under
    [__proto__] is not one of them. *)
Definition own {A} (m : gmap string A) : gmap string A := delete "__proto__" m.

(** The object that a record of the catalog is:
    [{ ...parsed, path, manifestPath }]. *)
Definition recordJson (t : ToolRecord) : json :=
  JObj (entries (manifestToJson (manifest t))
        ++ [("path", JStr (path t)); ("manifestPath", JStr (manifestPath t))]).

(** The properties of [Object.prototype]. *)
Definition objectPrototype : list string :=
  [ "__proto__"; "constructor"; "hasOwnProperty"; "isPrototypeOf";
    "propertyIsEnumerable"; "toLocaleString"; "toString"; "valueOf";
    "__defineGetter__"; "__defineSetter__"; "__lookupGetter__";
    "__lookupSetter__" ].

(** What [tools[k]] gives the loop over [plan.run]: a record of the
    catalog; a truthy value that is no record and has no [entry]; or a
    falsy value. *)
Inductive Read : Type :=
  | Found (t : ToolRecord)
  | Junk
  | Missing.

(** [tools[k]].  A name that was assigned gives its record.  Any other
    name is looked up in the prototype: first in the record that was made
    the prototype, if there is one, where it gives the value of a field;
    then in [Object.prototype], where it gives a function or, for
    [__proto__], [Object.prototype] itself. *)
Definition readTool (tools : gmap string ToolRecord) (k : string) : Read :=
  match tools !! k with
  | Some t => Found t
  | None =>
      let last := if bool_decide (k ∈ objectPrototype) then Junk else Missing in
      match tools !! "__proto__" with
      | Some proto =>
          match prop k (recordJson proto) with
          | Some v => if truthy (Some v) then Junk else Missing
          | None => last
          end
      | None => last
      end
  end.

End Js.

Inductive Field : Type := Fstdout | Fstderr | Fcode.

Definition fieldName (f : Field) : string :=
  match f with Fstdout => "stdout" | Fstderr => "stderr" | Fcode => "code" end.

Definition nl : string := String (ascii_of_nat 10) EmptyString.

Module Loop.

(** *** The closure [expand] *)
Section Expand.
Variable lastRun : option RunResult.
Variable runIndex : gmap string RunResult.

(** A character that [.] does not match (LF or CR). *)
Definition isLineTerminator (c : ascii) : bool :=
  Str.eqb_ascii c (ascii_of_nat 10) || Str.eqb_ascii c (ascii_of_nat 13).

Fixpoint hasLineTerminator (s : string) : bool :=
  match s with
  | EmptyString => false
  | String c r => isLineTerminator c || hasLineTerminator r
  end.

(** [s] without the suffix [suf], when it ends with it. *)
Fixpoint stripSuffix (suf s : string) : option string :=
  if bool_decide (s = suf) then Some EmptyString
  else match s with
       | EmptyString => None
       | String c r => String c <$> stripSuffix suf r
       end.

(** Group 1 of a match that ends with the given field: one or more
    characters, none of them a line terminator. *)
Definition runsField (rest : string) (f : Field) : option (string * Field) :=
  match stripSuffix ("." +:+ fieldName f) rest with
  | Some i =>
      if bool_decide (i = "") || hasLineTerminator i then None
      else Some (i, f)
  | None => None
  end.

(** [expr.match(/^runs\.(.+?)\.(stdout|stderr|code)$/)]: groups 1 and 2.
    The three endings exclude one another, so at most one split of the
    expression matches. *)
Definition matchRuns (expr : string) : option (string * Field) :=
  match Js.stripPrefix "runs." expr with
  | None => None
  | Some rest =>
      match runsField rest Fstdout with
      | Some m => Some m
      | None =>
          match runsField rest Fstderr with
          | Some m => Some m
          | None => runsField rest Fcode
          end
      end
  end.

(** [String(r[f] ?? '')] *)
Definition fieldText (r : RunResult) (f : Field) : string :=
  match f with
  | Fstdout => stdout r
  | Fstderr => stderr r
  | Fcode => match code r with Some n => pretty n | None => "" end
  end.

(** The callback given to [replace]. *)
Definition evalExpr (expr : string) : string :=
  if bool_decide (expr = "last.stdout") then
    match lastRun with Some r => stdout r | None => "" end
  else
    match matchRuns expr with
    | Some (i, f) =>
        match runIndex !! i with
        | None => ""
        | Some r => fieldText r f
        end
    | None => ""
    end.

Definition isCloseBrace (c : ascii) : bool := Str.eqb_ascii c "}"%char.

(** A match of [/\$\{([^}]+)\}/] at the start of [s]: group 1 and what
    follows the match. *)
Definition placeholderHere (s : string) : option (string * string) :=
  match s with
  | String c1 (String c2 r) =>
      if Str.eqb_ascii c1 "$"%char && Str.eqb_ascii c2 "{"%char then
        match Js.span isCloseBrace r with
        | (String c e, String _ rest) => Some (String c e, rest)
        | _ => None
        end
      else None
  | _ => None
  end.

(** [tpl.replace(/\$\{([^}]+)\}/g, ...)]: the leftmost match is replaced
    and the search goes on after it; where there is no match the
    character is copied.  [fuel] bounds the number of steps. *)
Fixpoint replaceFrom (fuel : nat) (s : string) : string :=
  match fuel with
  | O => s
  | S fuel' =>
      match placeholderHere s with
      | Some (expr, rest) => evalExpr expr +:+ replaceFrom fuel' rest
      | None =>
          match s with
          | EmptyString => EmptyString
          | String c r => String c (replaceFrom fuel' r)
          end
      end
  end.

Definition replacePlaceholders (s : string) : string :=
  replaceFrom (String.length s) s.

Definition expand (tpl : json) : json :=
  match tpl with
  | JStr s => if bool_decide (s = "") then tpl else JStr (replacePlaceholders s)
  | _ => tpl
  end.
End Expand.

Section WithWorld.
Variable w : World.
Variable config : Config.

Definition dateNow : M Agent Z := inProc (Sandbox.dateNow w).

Definition sandbox : Sandbox.t :=
  Sandbox.new (cfg_sandboxDir config) (Path.join [cfg_dataDir config; "logs"])
    (Sandbox.mkLimitsOf
       (default (mkLimitsOpt None None None None) (cfg_limits config))).

(** [config.limits?.network !== false] *)
Definition networkAllowed : bool :=
  match cfg_limits config with
  | Some l => match o_network l with Some false => false | _ => true end
  | None => true
  end.

Definition asString (j : json) : M Agent string :=
  match j with JStr s => mret s | _ => throw TypeError end.

Definition setTools (f : gmap string ToolRecord → gmap string ToolRecord)
    (g : list string → list string)
    (h : gmap string (list string) → gmap string (list string))
  : M Agent unit :=
  modify (λ a, mkAgent (proc a) (memory a) (f (tools a)) (g (created a))
                       (h (createdFiles a)) (runs a) (runIndex a)
                       (lastRun a) (asked a) (requests a)).

(** *** One turn of the loop over [plan.createTools] *)
Definition createTool (t : json) : M Agent unit :=
  tryCatch
    (_ ← (match t with JNull => throw TypeError | _ => mret tt end);
     toolIdV ←
       (if truthy (prop "id" t) then mret (orElse (prop "id" t) JNull)
        else
          nm ← asString (orElse (prop "name" t) (JStr "tool"));
          n ← dateNow;
          mret (JStr (Js.dashRuns false (Js.toLowerCase nm)
                      +:+ "-" +:+ pretty n)));
     toolId ← asString toolIdV;
     let files := Js.entries (orElse (prop "files" t) (JObj [])) in
     _ ← inProc (inFs (Tools.writeToolCode (cfg_sandboxDir config) toolId files));
     _ ← setTools (λ x, x) (λ x, x) (<[toolId := files.*1]>);
     c ← dateNow;
     u ← dateNow;
     rec ← inProc (inFs (Tools.saveTool (cfg_sandboxDir config)
              (JObj [ ("id", JStr toolId);
                      ("name", orElse (prop "name" t) (JStr toolId));
                      ("purpose", orElse (prop "purpose" t) (JStr "N/A"));
                      ("language", orElse (prop "language" t) (JStr "node"));
                      ("entry", orElse (prop "entry" t) (JStr "index.mjs"));
                      ("inputs", orElse (prop "inputs" t) (JArr []));
                      ("outputs", orElse (prop "outputs" t) (JArr []));
                      ("usage", orElse (prop "usage" t) (JStr ""));
                      ("createdAt", JNum (ofZ c));
                      ("updatedAt", JNum (ofZ u)) ])));
     setTools (<[toolId := rec]>) (λ l, l ++ [toolId]) (λ x, x))
    (λ e,
       n ← dateNow;
       inMemory (Mem.addHistory assistant
                   ("Failed to create tool: " +:+ message w e) n)).

Fixpoint materializeTools (specs : list json) : M Agent unit :=
  match specs with
  | [] => mret tt
  | t :: rest => _ ← createTool t; materializeTools rest
  end.

(** *** One turn of the loop over [plan.run] *)

(** [call.id || call.toolId] *)
Definition callId (call : RunCall) : option string :=
  match c_id call with
  | Some s => if bool_decide (s = "") then c_toolId call else Some s
  | None => c_toolId call
  end.

(** The property key that [tools[id]] reads. *)
Definition keyOf (i : option string) : string := default "undefined" i.

(** [lastRun?.stdout ?? ''] *)
Definition lastStdout (a : Agent) : string :=
  match lastRun a with Some r => stdout r | None => "" end.

Definition pushRun (e : RunEntry) : M Agent unit :=
  modify (λ a, mkAgent (proc a) (memory a) (tools a) (created a)
                       (createdFiles a) (runs a ++ [e]) (runIndex a)
                       (lastRun a) (asked a) (requests a)).

(** [runs.push(e); runIndex[id] = r; lastRun = r] *)
Definition recordRun (i : string) (e : RunEntry) (r : RunResult)
  : M Agent unit :=
  modify (λ a, mkAgent (proc a) (memory a) (tools a) (created a)
                       (createdFiles a) (runs a ++ [e])
                       (<[i := r]> (runIndex a)) (Some r) (asked a)
                       (requests a)).

Definition sandboxRun (rq : Request) : M Agent RunResult :=
  _ ← modify (λ a, mkAgent (proc a) (memory a) (tools a) (created a)
                           (createdFiles a) (runs a) (runIndex a)
                           (lastRun a) (asked a) (requests a ++ [rq]));
  inProc (Sandbox.run w sandbox rq).

Definition entryOf (i : string) (t : ToolRecord) : string :=
  Path.join ["tools"; i; m_entry (manifest t)].

Definition missingModule (l : Language) : string :=
  match l with
  | python => "ModuleNotFoundError: No module named "
  | node => "Cannot find module "
  end.

Definition autoInstall (l : Language) : string :=
  match l with
  | python => "auto-install-python"
  | node => "auto-install-node"
  end.

(** The dependency heuristic: the flag [autoFixed] and the value of
    [res] after it. *)
Definition heuristic (i : string) (t : ToolRecord) (args : list json)
    (stdin : json) (res : RunResult) : M Agent (bool * RunResult) :=
  if networkAllowed then
    tryCatch
      (let toolDir := Path.join [cfg_sandboxDir config; "tools"; i] in
       let l := m_language (manifest t) in
       match Js.matchQuoted (missingModule l) (stderr res) with
       | Some pkg =>
           _ ← inProc (inFs (editDeps w l toolDir pkg));
           n ← dateNow;
           retry ← sandboxRun
                     (mkRequest l (entryOf i t) args stdin
                        (Some (i +:+ "-deps-" +:+ pretty n)) true true);
           _ ← recordRun i (RetryOf i (Some (autoInstall l)) retry) retry;
           mret (bool_decide (code retry = Some 0), retry)
       | None => mret (false, res)
       end)
      (λ _, mret (false, res))
  else mret (false, res).

Definition fixPrompt (t : ToolRecord) (res : RunResult) : string :=
  "Tool " +:+ m_name (manifest t) +:+ " failed. stderr:" +:+ nl
  +:+ stderr res +:+ nl +:+ nl
  +:+ "Propose a minimal patch to fix. Return JSON {files:{path: content}}".

Definition askPatch (prompt : string)
  : M Agent (option (list (string * json))) := λ a,
  (patch w (asked a) prompt,
   mkAgent (proc a) (memory a) (tools a) (created a) (createdFiles a)
           (runs a) (runIndex a) (lastRun a) (S (asked a)) (requests a)).

(** The model-guided patch and its single retry. *)
Definition modelPatch (i : string) (t : ToolRecord) (args : list json)
    (call : RunCall) (res : RunResult) : M Agent unit :=
  fix_ ← askPatch (fixPrompt t res);
  match fix_ with
  | Some files =>
      _ ← inProc (inFs (Tools.writeToolCode (cfg_sandboxDir config) i files));
      n ← dateNow;
      retry ← sandboxRun
                (mkRequest (m_language (manifest t)) (entryOf i t) args
                   (orElse (c_stdin call) (JStr ""))
                   (Some (i +:+ "-retry-" +:+ pretty n))
                   (cfg_interactive config) (cfg_interactive config));
      pushRun (RetryOf i None retry)
  | None => mret tt
  end.

(** The standard input of the first attempt of a call. *)
Definition stdinOf (a : Agent) (call : RunCall) : json :=
  match c_stdin call with
  | Some v => expand (lastRun a) (runIndex a) (orElse (Some v) (JStr ""))
  | None => JStr (lastStdout a)
  end.

(** [v.slice] is a function for a string and for an array only. *)
Definition hasSlice (v : json) : bool :=
  match v with JStr _ | JArr _ => true | _ => false end.

(** The line that interactive mode prints before a run: it calls
    [stdin.slice(0, 120)] on a truthy standard input, which throws when
    that is neither a string nor an array. *)
Definition previewFails (stdin : json) : bool :=
  cfg_interactive config && truthy (Some stdin) && negb (hasSlice stdin).

Definition preview (stdin : json) : M Agent unit :=
  if previewFails stdin then throw TypeError else mret tt.

Definition stepCall (call : RunCall) : M Agent unit :=
  let id := callId call in
  a ← gets (λ a, a);
  match Js.readTool (tools a) (keyOf id) with
  | Js.Missing => pushRun (NotFound id)
  | Js.Junk =>
      (* [t.entry] is [undefined]: [path.join('tools', id, t.entry)] throws *)
      throw TypeError
  | Js.Found t =>
      let args := expand (lastRun a) (runIndex a) <$> default [] (c_args call) in
      let stdin := stdinOf a call in
      _ ← preview stdin;
      i ← (match id with Some s => mret s | None => throw TypeError end);
      n ← dateNow;
      res ← sandboxRun
              (mkRequest (m_language (manifest t)) (entryOf i t) args stdin
                 (Some (i +:+ "-" +:+ pretty n)) true true);
      _ ← recordRun i (Attempt i args res) res;
      if bool_decide (code res = Some 0) then mret tt
      else
        fixed ← heuristic i t args stdin res;
        if negb fixed.1 && negb (bool_decide (code fixed.2 = Some 0))
        then modelPatch i t args call fixed.2
        else mret tt
  end.

Fixpoint runChain (calls : list RunCall) : M Agent unit :=
  match calls with
  | [] => mret tt
  | call :: rest => _ ← stepCall call; runChain rest
  end.

End WithWorld.

End Loop.


(** ** [src/core/agent.mjs]: the history in the planning prompt *)

Module Prompt.

Definition roleName (r : Role) : string :=
  match r with user => "user" | assistant => "assistant" | system => "system" end.

(** [s.substring(0, n)] *)
Fixpoint substring0 (n : nat) (s : string) : string :=
  match n, s with
  | S n', String c r => String c (substring0 n' r)
  | _, _ => EmptyString
  end.

(** The line of a turn: its role, a colon and the first 500 characters of
    its content. *)
Definition line (h : Turn) : string :=
  roleName (role h) +:+ ": " +:+ substring0 500 (content h).

(** [summarizeHistory(memory).slice(-20).map(...).join('\n')] in
    [makePlanningPrompt]. *)
Definition historyText : M Memory string :=
  turns ← Mem.summarizeHistory 40;
  mret (Str.join nl (line <$> Mem.sliceLast 20 turns)).

End Prompt.

(** ** What the specification says of a run, to compare the code with *)

Module Spec.

(** The text of the chunks of standard output, in arrival order. *)
Fixpoint outText (chunks : list Chunk) : string :=
  match chunks with
  | [] => ""
  | OutChunk s :: r => s +:+ outText r
  | ErrChunk _ :: r => outText r
  end.

Fixpoint errText (chunks : list Chunk) : string :=
  match chunks with
  | [] => ""
  | ErrChunk s :: r => s +:+ errText r
  | OutChunk _ :: r => errText r
  end.

(** The chunks that reach a callback, given which callbacks there are. *)
Definition reaches (onStdout onStderr : bool) (c : Chunk) : bool :=
  match c with OutChunk _ => onStdout | ErrChunk _ => onStderr end.

Definition visible (onStdout onStderr : bool) (chunks : list Chunk)
  : list Chunk :=
  filter (λ c, reaches onStdout onStderr c = true) chunks.

(** How a child under a timer of [delay] milliseconds ends by itself, if
    it does so before the timer fires. *)
Definition finished (delay : Z) (f : Fate) : option Ending :=
  match ending f with
  | Some (t, e) => if bool_decide (t < delay) then Some e else None
  | None => None
  end.

(** The output of such a child up to its end or to the moment of the
    timer, whichever is first. *)
Definition early (delay : Z) (f : Fate) : list Chunk :=
  match ending f with
  | Some (t, e) =>
      if bool_decide (t < delay) then arrivedBy t (output f)
      else arrivedBy delay (output f)
  | None => arrivedBy delay (output f)
  end.

(** Everything that the callbacks are given of the output of such a
    child. *)
Definition delivered (delay : Z) (f : Fate) : list Chunk :=
  early delay f ++ late f.

(** The result of a run of such a child: the exit code of a child that
    exits, -1 and the error text for one that does not start, no exit code
    for one that a signal ends or that is still running when the timer
    fires; the output is what arrived up to then. *)
Definition outcome (delay : Z) (f : Fate) (logFile : string) : RunResult :=
  let chunks := early delay f in
  match finished delay f with
  | Some (Exits c) => mkResult (Some c) (outText chunks) (errText chunks) logFile
  | Some (Signalled _) => mkResult None (outText chunks) (errText chunks) logFile
  | Some (SpawnFails err) => mkResult (Some (-1)) (outText chunks) err logFile
  | None => mkResult None (outText chunks) (errText chunks) logFile
  end.

(** The timer of a sandbox. *)
Definition delayOf (sb : Sandbox.t) : Z :=
  timerDelay (timeoutMs (Sandbox.limits sb)).

(** The process of the tool of a request: it is given the standard input
    of the request, runs in the sandbox directory, and its command line
    ends with the entry and the arguments of the request. *)
Definition toolProcess (sb : Sandbox.t) (rq : Request) (sp : Spawned) : Prop :=
  sp_stdin sp = rq_stdin rq
  ∧ cwd sp = Sandbox.sandboxDir sb
  ∧ ∃ pre, argv sp = pre ++ JStr (rq_entry rq) :: rq_args rq.

(** A process that installs dependencies: a shell script, with an empty
    standard input. *)
Definition installer (sb : Sandbox.t) (sp : Spawned) : Prop :=
  sp_stdin sp = JStr ""
  ∧ cwd sp = Sandbox.sandboxDir sb
  ∧ ∃ pre script, argv sp = pre ++ [JStr "-lc"; JStr script].

(** What the callbacks are given before the tool's process starts, when
    the tool's process is the child number [n]: nothing; or, with the
    network allowed, the output of the installer, the child before it. *)
Definition installOutput (w : World) (sb : Sandbox.t) (rq : Request)
    (n : nat) (boot : list Chunk) : Prop :=
  boot = []
  ∨ (network (Sandbox.limits sb) = true
     ∧ ∃ n0 sp0, n = S n0 ∧ installer sb sp0
         ∧ boot = visible (rq_onStdout rq) (rq_onStderr rq)
                    (delivered (delayOf sb) (fate w n0 sp0))).

(** What a run that got as far as choosing its backend does when it
    returns: the result is that of its last child, the tool's process; the
    callbacks have seen the output of the dependency installation, if
    there was one, and then the output of that child. *)
Definition RunsTool (w : World) (sb : Sandbox.t) (rq : Request)
    (logFile : string) (p : Proc) (r : RunResult) (p' : Proc) : Prop :=
  ∃ n sp boot,
    r = outcome (delayOf sb) (fate w n sp) logFile
    ∧ p' = mkProc (p_fs p)
             (p_seen p ++ boot
              ++ visible (rq_onStdout rq) (rq_onStderr rq)
                   (delivered (delayOf sb) (fate w n sp)))
             (S n) (p_ticks p)
    ∧ toolProcess sb rq sp
    ∧ installOutput w sb rq n boot.



(** Templates as the specification describes them: text with
    placeholders [${EXPR}]. *)
Inductive Expr : Type :=
  | LastStdout                                  (* [last.stdout] *)
  | RunField (toolId : string) (f : Field)      (* [runs.<toolId>.<field>] *)
  | Other (text : string).                      (* anything else *)

Definition exprText (e : Expr) : string :=
  match e with
  | LastStdout => "last.stdout"
  | RunField i f => "runs." +:+ i +:+ "." +:+ fieldName f
  | Other t => t
  end.

Inductive Piece : Type :=
  | Lit (s : string)
  | Hole (e : Expr).

Fixpoint render (ps : list Piece) : string :=
  match ps with
  | [] => ""
  | Lit s :: r => s +:+ render r
  | Hole e :: r => "${" +:+ exprText e +:+ "}" +:+ render r
  end.

Section Values.
Variable lastRun : option RunResult.
Variable runIndex : gmap string RunResult.

(** The value of an expression: the standard output of the most recent
    run, a field of the run last recorded for a tool (the code in
    decimal), and the empty string in every other case. *)
Definition value (e : Expr) : string :=
  match e with
  | LastStdout => match lastRun with Some r => stdout r | None => "" end
  | RunField i f =>
      match runIndex !! i with
      | Some r =>
          match f with
          | Fstdout => stdout r
          | Fstderr => stderr r
          | Fcode => match code r with Some n => pretty n | None => "" end
          end
      | None => ""
      end
  | Other _ => ""
  end.

Fixpoint fill (ps : list Piece) : string :=
  match ps with
  | [] => ""
  | Lit s :: r => s +:+ fill r
  | Hole e :: r => value e +:+ fill r
  end.
End Values.

(** Text that holds no start of a placeholder: every [$] in it is followed,
    in the text, by a character other than an opening brace. *)
Fixpoint literal (s : string) : bool :=
  match s with
  | EmptyString => true
  | String c r =>
      (negb (Str.eqb_ascii c "$"%char)
       || match r with
          | String c' _ => negb (Str.eqb_ascii c' "{"%char)
          | EmptyString => false
          end)
      && literal r
  end.

(** The expressions and pieces the statement is about: an expression is
    not empty and holds no closing brace; a tool id is not empty and holds
    no line terminator; an expression of the third kind is none of the
    first two. *)
Definition WellFormedExpr (e : Expr) : Prop :=
  exprText e ≠ "" ∧ Str.hasChar "}"%char (exprText e) = false ∧
  match e with
  | LastStdout => True
  | RunField i _ => i ≠ "" ∧ Loop.hasLineTerminator i = false
  | Other t =>
      t ≠ "last.stdout" ∧ ∀ i f, t ≠ "runs." +:+ i +:+ "." +:+ fieldName f
  end.

Definition WellFormed (p : Piece) : Prop :=
  match p with
  | Lit s => literal s = true
  | Hole e => WellFormedExpr e
  end.

(** A path segment that [normalize] keeps as it is. *)
Definition plainSegment (s : string) : Prop :=
  s ≠ "" ∧ s ≠ "." ∧ s ≠ ".." ∧ Str.hasChar Path.slash s = false.

(** A segment of a normalized path: plain, or [..]. *)
Definition keptSegment (s : string) : Prop :=
  s ≠ "" ∧ s ≠ "." ∧ Str.hasChar Path.slash s = false.

(** The stack of [normalizeString], top first: plain segments above a run
    of [..], which is empty unless going above the start is allowed. *)
Definition Shape (allow : bool) (acc : list string) : Prop :=
  ∃ k P, acc = rev P ++ replicate k ".."
         ∧ Forall plainSegment P ∧ (allow = false → k = 0%nat).

(** The segments that [normalize] keeps of a path. *)
Definition normal (b : string) : list string :=
  Path.normalizeSegments (negb (Path.isAbsolute b)) (Str.split Path.slash b).

(** The text of a normalized path without a trailing slash. *)
Definition pathText (abs : bool) (segs : list string) : string :=
  (if abs then "/" else "") +:+ Str.join "/" segs.

(** Where a path is, given its normal segments. *)
Definition place (b : string) : list string :=
  (if Path.isAbsolute b then [""] else []) ++ normal b.

(** A name that [readdir] can give and that [loadTools] accepts for the
    directory of a tool: one segment without a NUL character, not
    hidden. *)
Definition listedName (d : string) : Prop :=
  d ≠ "" ∧ Str.hasChar Path.slash d = false ∧ Str.startsWith "." d = false
  ∧ Str.hasNul d = false.

(** Such a name that is also the name of an own property of the catalog:
    any but [__proto__]. *)
Definition directoryName (d : string) : Prop :=
  d ≠ "" ∧ Str.hasChar Path.slash d = false ∧ Str.startsWith "." d = false
  ∧ d ≠ "__proto__" ∧ Str.hasNul d = false.

(** The two times of a manifest are finite numbers. *)
Definition finiteTimes (m : Manifest) : Prop :=
  isFinite (m_createdAt m) = true ∧ isFinite (m_updatedAt m) = true.

(** Nothing is in the way from [above] down through [todo]: no file, and
    no name that cannot be one of a directory (one with a NUL character). *)
Fixpoint clear (fs : FS) (above todo : list string) : bool :=
  match todo with
  | [] => true
  | n :: todo' =>
      negb (Str.hasNul n)
      && match fs !! (above ++ [n]) with
         | Some (File _) => false
         | _ => clear fs (above ++ [n]) todo'
         end
  end.

Definition reachable (fs : FS) (loc : list string) : Prop :=
  clear fs [] loc = true.

(** Every level of the way down to [loc], [loc] included, is a directory. *)
Definition dirsTo (fs : FS) (loc : list string) : Prop :=
  ∀ pre suf, pre ≠ [] → loc = pre ++ suf → fs !! pre = Some Dir.

(** What [readJson] makes of the content of a file. *)
Definition contentJson (JSON_parse : string → option json) (c : Content)
  : option json :=
  match c with JsonDoc j => Some j | Text s => JSON_parse s end.

(** Where the record under the key [d] of the catalog comes from: the
    manifest of the entry [d] of [tools/]. *)
Definition fromManifest (JSON_parse : string → option json)
    (sandboxDir : string) (fs : FS) (d : string) (rec : ToolRecord) : Prop :=
  path rec = Path.join [Path.join [sandboxDir; "tools"]; d]
  ∧ manifestPath rec
    = Path.join [Path.join [sandboxDir; "tools"]; d; "manifest.json"]
  ∧ ∃ c j, fs !! Fs.locate (manifestPath rec) = Some (File c)
           ∧ contentJson JSON_parse c = Some j
           ∧ ToolManifest_parse j = Ok (manifest rec).

(** Every character of a string passes a test. *)
Fixpoint allChars (P : ascii → bool) (s : string) : bool :=
  match s with
  | EmptyString => true
  | String c r => P c && allChars P r
  end.

(** The characters of a tool id that the loop derives from a name. *)
Definition idChar (c : ascii) : bool :=
  Js.isSlugChar c || Str.eqb_ascii c "-"%char.

(** A relative path made of plain segments: no [..], no [.], no empty
    segment, not absolute. *)
Definition plainPath (rel : string) : Prop :=
  ∃ segs, segs ≠ [] ∧ Forall plainSegment segs ∧ rel = Str.join "/" segs.

(** [runId || `${Date.now()}`] in [run], read at the store [p]. *)
Definition runName (w : World) (rq : Request) (p : Proc) : string :=
  match rq_runId rq with
  | Some i => if bool_decide (i = "") then pretty (now w (p_ticks p)) else i
  | None => pretty (now w (p_ticks p))
  end.

(** The result that an entry of [runs] carries. *)
Definition entryResult (e : RunEntry) : option RunResult :=
  match e with
  | NotFound _ => None
  | Attempt _ _ r => Some r
  | RetryOf _ _ r => Some r
  end.

(** What one call of [plan.run] leaves in [runs]: nothing; the note of a
    missing tool; or a first attempt, perhaps a dependency retry, and
    perhaps the retry of a patch.  [lastRun] and the tool's entry in
    [runIndex] hold the result of the last of these entries that is not
    the retry of a patch. *)
Definition afterCall (a : Agent) (a' : Agent) : Prop :=
  (runs a' = runs a ∧ lastRun a' = lastRun a ∧ runIndex a' = runIndex a)
  ∨ (∃ i, runs a' = runs a ++ [NotFound i]
          ∧ lastRun a' = lastRun a ∧ runIndex a' = runIndex a)
  ∨ (∃ i front e res,
       runs a' = runs a ++ front ++ [e]
       ∧ entryResult e = Some res
       ∧ (∀ j retry, e ≠ RetryOf j None retry)
       ∧ lastRun a' = Some res ∧ runIndex a' !! i = Some res)
  ∨ (∃ i front e res retry,
       runs a' = runs a ++ front ++ [e; RetryOf i None retry]
       ∧ entryResult e = Some res
       ∧ (∀ j retry, e ≠ RetryOf j None retry)
       ∧ lastRun a' = Some res ∧ runIndex a' !! i = Some res).

(** [lastRun], when set, is the result of an entry of [runs]. *)
Definition recorded (a : Agent) : Prop :=
  ∀ r, lastRun a = Some r → ∃ e, e ∈ runs a ∧ entryResult e = Some r.



End Spec.

(** ** Concrete situations *)

Module Example.

(** A world without a container engine; [f] gives the fate of the n-th
    child by its command, [answers] the patches of the model. *)
Definition world (f : nat → Spawned → Fate)
    (answers : nat → option (list (string * json))) : World :=
  mkWorld (λ n, Z.of_nat n) (λ _, Some (SpawnFails "spawn docker ENOENT")) f
          (λ _ _, "tools/a") (λ _, None) (λ n _, Ok (answers n))
          (λ _ _ _, mret tt) (λ _, "error").

Definition noPatch : nat → option (list (string * json)) := λ _, None.

(** A child that prints [chunks] at once and ends a millisecond later; and
    one that prints [chunks] at once and then neither prints nor ends.
    Both read their standard input. *)
Definition ends (chunks : list Chunk) (e : Ending) : Fate :=
  mkFate ((λ c, (0, c)) <$> chunks) (Some (1, e)) [] None.

Definition stalls (chunks : list Chunk) : Fate :=
  mkFate ((λ c, (0, c)) <$> chunks) None [] None.

(** The tool's process prints a little and then hangs. *)
Definition hangs : World := world (λ _ _, stalls [OutChunk "par"]) noPatch.

(** [pip] prints while it installs; the tool prints [hi]. *)
Definition installs : World :=
  world (λ _ sp, if bool_decide (command sp = "sh")
                 then ends [OutChunk "Collecting requests"] (Exits 0)
                 else ends [OutChunk "hi"] (Exits 0))
        noPatch.

Definition offline : Sandbox.t :=
  Sandbox.new "/sb" "/data/logs" (mkLimits 60000 512 "0.5" false).

Definition online : Sandbox.t :=
  Sandbox.new "/sb" "/data/logs" (mkLimits 60000 512 "0.5" true).

Definition request : Request :=
  mkRequest python "tools/a/main.py" [] (JStr "") (Some "a-1") true true.

Definition blank : Proc := mkProc ∅ [] 0 0.

(** The tool directory holds a [requirements.txt]. *)
Definition withRequirements : Proc :=
  mkProc {[ [""; "sb"; "tools"; "a"; "requirements.txt"] := File (Text "requests") ]}
         [] 0 0.

(** The probe for the container engine never ends. *)
Definition noProbe : World :=
  mkWorld (λ n, Z.of_nat n) (λ _, None) (λ _ _, stalls [OutChunk "par"])
          (λ _ _, "tools/a") (λ _, None) (λ n _, Ok (noPatch n))
          (λ _ _ _, mret tt) (λ _, "error").

(** The files that a run of [request] in [/sb] looks at. *)
Definition layoutOfRequest : Sandbox.Layout :=
  Sandbox.mkLayout "/sb/runs/a-1/exec.log" "/sb/tools/a" "tools/a"
    "/sb/tools/a/requirements.txt" false false.

(** A file stands where the sandbox directory should be. *)
Definition fileInTheWay : Proc :=
  mkProc {[ [""] := Dir; [""; "sb"] := File (Text "x") ]} [] 0 0.

(** The request of the retry of a patch when the loop is not interactive:
    no callbacks. *)
Definition quiet : Request :=
  mkRequest python "tools/a/main.py" [] (JStr "") (Some "a-retry-2") false false.

End Example.

Module ExampleStore.

Definition manifestOf (id : string) : Manifest :=
  mkManifest id "Echo" "prints its input" node "index.mjs" [] [] ""
             (ofZ 1) (ofZ 1).

(** The text of a file is never valid JSON here; only what [writeJson]
    stored is read back. *)
Definition noText : string → option json := λ _, None.

(** A tool whose directory is [a] and whose manifest says [b]. *)
Definition renamed : FS :=
  {[ [""; "sb"; "tools"; "a"] := Dir;
     [""; "sb"; "tools"; "a"; "manifest.json"]
       := File (JsonDoc (manifestToJson (manifestOf "b"))) ]}.

(** The catalog that [loadTools] makes of it. *)
Definition loaded : gmap string ToolRecord :=
  {[ "a" := mkTool (manifestOf "b") "/sb/tools/a" "/sb/tools/a/manifest.json" ]}.

(** A hidden directory that holds a manifest. *)
Definition hiddenDir : FS :=
  {[ [""; "sb"; "tools"; ".cache"] := Dir;
     [""; "sb"; "tools"; ".cache"; "manifest.json"]
       := File (JsonDoc (manifestToJson (manifestOf "cache"))) ]}.

(** The outcome of saving the tool [echo] in an empty file system. *)
Definition saved : res ToolRecord * FS :=
  Tools.saveTool "/sb" (manifestToJson (manifestOf "echo")) ∅.

(** A patch whose only file climbs out of the tool directory. *)
Definition climbing : list (string * json) := [("../../../evil", JStr "x")].

(** A patch whose only file is named by an absolute path. *)
Definition rooted : list (string * json) := [("/etc/passwd", JStr "x")].

End ExampleStore.

Module ExampleTemplate.

Definition done_ : RunResult := mkResult (Some 0) "X" "" "/sb/runs/a-1/exec.log".

(** A tool whose id holds a line feed. *)
Definition twoLines : string := "a" +:+ nl +:+ "b".

Definition pieces : list Spec.Piece :=
  [ Spec.Lit "in: "; Spec.Hole Spec.LastStdout; Spec.Lit " costs $5 ";
    Spec.Hole (Spec.RunField "a" Fcode); Spec.Hole (Spec.Other "zz") ].

End ExampleTemplate.

Module ExampleLoop.

Definition config : Config :=
  mkConfig "/data" "/sb" (Some (mkLimitsOpt None None None (Some false))) false.

(** The catalog holds one python tool, [a]. *)
Definition toolA : ToolRecord :=
  mkTool (mkManifest "a" "A" "p" python "main.py" [] [] "" (ofZ 0) (ofZ 0))
         "/sb/tools/a" "/sb/tools/a/manifest.json".

Definition start : Agent :=
  mkAgent Example.blank (mkMemory ∅ [] []) {[ "a" := toolA ]} [] ∅ [] ∅ None 0 [].

(** A python tool planned without an [entry]. *)
Definition pySpec : json :=
  JObj [ ("id", JStr "upper"); ("name", JStr "upper");
         ("language", JStr "python");
         ("files", JObj [("main.py", JStr "print(input().upper())")]) ].

(** Every run of the tool prints [oops] and exits with 1. *)
Definition failing : World :=
  Example.world (λ _ _, Example.ends [OutChunk "oops"] (Exits 1))
                Example.noPatch.

(** The first run is killed by the timer; the model then sends a patch and
    the patched tool prints [fixed]. *)
Definition patched : World :=
  Example.world
    (λ n _, if bool_decide (n = 1)%nat then Example.stalls [OutChunk "par"]
            else Example.ends [OutChunk "fixed"] (Exits 0))
    (λ _, Some [("main.py", JStr "print(1)")]).

Definition withStdin (s : string) : RunCall :=
  mkCall (Some "a") None None (Some (JStr s)).

Definition piped : RunCall := mkCall (Some "a") None None None.

End ExampleLoop.

Module ExampleRuns.

(** What the two attempts of the call of [ExampleLoop.patched] return. *)
Definition killed : RunResult :=
  mkResult None "par" "" "/sb/runs/a-0/exec.log".

Definition afterPatch : RunResult :=
  mkResult (Some 0) "fixed" "" "/sb/runs/a-retry-1/exec.log".

End ExampleRuns.

(** * Properties *)

(** ** Sequencing *)

Lemma bind_inv {S A B} (m : M S A) (k : A → M S B) (s : S) r s' :
  (m ≫= k) s = (r, s') →
  (∃ a s1, m s = (Ok a, s1) ∧ k a s1 = (r, s'))
  ∨ (∃ e, m s = (Throw e, s') ∧ r = Throw e)
  ∨ (m s = (Never, s') ∧ r = Never).
Proof.
  unfold mbind, M_bind. destruct (m s) as [[a|e|] s1]; intros H.
  - left. eauto.
  - right. left. inversion H. eauto.
  - right. right. inversion H. eauto.
Qed.

Lemma bind_ok_inv {S A B} (m : M S A) (k : A → M S B) (s : S) b s' :
  (m ≫= k) s = (Ok b, s') → ∃ a s1, m s = (Ok a, s1) ∧ k a s1 = (Ok b, s').
Proof.
  intros H. destruct (bind_inv _ _ _ _ _ H) as [?|[(e & _ & ?)|[_ ?]]];
    [done | discriminate | discriminate].
Qed.

Lemma bind_ok {S A B} (m : M S A) (k : A → M S B) (s s1 : S) a :
  m s = (Ok a, s1) → (m ≫= k) s = k a s1.
Proof. unfold mbind, M_bind. by intros ->. Qed.

Section Preserves.
Context {S X : Type} (f : S → X).

Lemma preserves_ret {A} (a : A) : Preserves f (mret a : M S A).
Proof. intros s r s' H. by inversion H. Qed.

Lemma preserves_throw {A} e : Preserves f (throw e : M S A).
Proof. intros s r s' H. by inversion H. Qed.

Lemma preserves_liftRes {A} (x : res A) : Preserves f (liftRes x : M S A).
Proof. intros s r s' H. by inversion H. Qed.

Lemma preserves_gets {A} (g : S → A) : Preserves f (gets g).
Proof. intros s r s' H. by inversion H. Qed.

Lemma preserves_bind {A B} (m : M S A) (k : A → M S B) :
  Preserves f m → (∀ a, Preserves f (k a)) → Preserves f (m ≫= k).
Proof.
  intros Hm Hk s r s' H.
  destruct (bind_inv _ _ _ _ _ H) as [(a & s1 & H1 & H2)|[(e & H1 & _)|[H1 _]]].
  - rewrite (Hk _ _ _ _ H2). eauto.
  - eauto.
  - eauto.
Qed.

Lemma preserves_tryCatch {A} (m : M S A) (h : Error → M S A) :
  Preserves f m → (∀ e, Preserves f (h e)) → Preserves f (tryCatch m h).
Proof.
  intros Hm Hh s r s' H. unfold tryCatch in H.
  destruct (m s) as [[a|e|] s1] eqn:E.
  - inversion H; subst. eauto.
  - rewrite (Hh _ _ _ _ H). eauto.
  - inversion H; subst. eauto.
Qed.

Lemma preserves_modify (g : S → S) :
  (∀ s, f (g s) = f s) → Preserves f (modify g).
Proof. intros Hg s r s' H. inversion H. apply Hg. Qed.

Lemma preserves_zoom {T A} (get : S → T) (set : T → S → S) (m : M T A) :
  (∀ t s, f (set t s) = f s) → Preserves f (zoom get set m).
Proof.
  intros Hset s r s' H. unfold zoom in H.
  destruct (m (get s)) as [r0 t]. inversion H. apply Hset.
Qed.
End Preserves.

Create HintDb frame discriminated.
#[global] Hint Resolve preserves_ret preserves_throw preserves_liftRes
  preserves_gets preserves_bind preserves_tryCatch preserves_modify
  preserves_zoom : frame.

(** Rules for [Post], one for each way of building a computation. *)
Section PostRules.
Context {S : Type}.

Lemma post_ret {A} (a : A) (s : S) Q : Q (Ok a) s → Post (mret a) s Q.
Proof. intros H r s' E. cbv in E. by simplify_eq. Qed.

Lemma post_throw {A} e (s : S) (Q : res A → S → Prop) :
  Q (Throw e) s → Post (throw e) s Q.
Proof. intros H r s' E. cbv in E. by simplify_eq. Qed.

Lemma post_liftRes {A} (x : res A) (s : S) Q : Q x s → Post (liftRes x) s Q.
Proof. intros H r s' E. cbv in E. by simplify_eq. Qed.

Lemma post_gets {A} (f : S → A) (s : S) Q : Q (Ok (f s)) s → Post (gets f) s Q.
Proof. intros H r s' E. cbv in E. by simplify_eq. Qed.

Lemma post_modify (g : S → S) (s : S) Q : Q (Ok tt) (g s) → Post (modify g) s Q.
Proof. intros H r s' E. cbv in E. by simplify_eq. Qed.

Lemma post_bind {A B} (m : M S A) (k : A → M S B) (s : S) Q :
  Post m s (λ r s1, match r with
                    | Ok a => Post (k a) s1 Q
                    | Throw e => Q (Throw e) s1
                    | Never => Q Never s1
                    end) →
  Post (m ≫= k) s Q.
Proof.
  intros H r s' E.
  destruct (bind_inv _ _ _ _ _ E) as [(a & s1 & H1 & H2)|[(e & H1 & ->)|[H1 ->]]].
  - by apply (H _ _ H1).
  - apply (H _ _ H1).
  - apply (H _ _ H1).
Qed.

Lemma post_tryCatch {A} (m : M S A) (h : Error → M S A) (s : S) Q :
  Post m s (λ r s1, match r with
                    | Throw e => Post (h e) s1 Q
                    | _ => Q r s1
                    end) →
  Post (tryCatch m h) s Q.
Proof.
  intros H r s' E. unfold tryCatch in E.
  destruct (m s) as [[a|e|] s1] eqn:E1; specialize (H _ _ E1); cbn in H.
  - by inversion E; subst.
  - by apply H.
  - by inversion E; subst.
Qed.

Lemma post_zoom {T A} (get : S → T) (set : T → S → S) (m : M T A) (s : S) Q :
  (∀ r t', Q r (set t' s)) → Post (zoom get set m) s Q.
Proof.
  intros H r s' E. unfold zoom in E.
  destruct (m (get s)) as [r0 t']. inversion E; subst. apply H.
Qed.

Lemma post_weaken {A} (m : M S A) (s : S) (Q1 Q2 : res A → S → Prop) :
  Post m s Q1 → (∀ r s', Q1 r s' → Q2 r s') → Post m s Q2.
Proof. intros H HQ r s' E. apply HQ. by apply H. Qed.
End PostRules.

(** ** Memory *)

Lemma sliceLast_suffix {A} (n : nat) (l : list A) :
  (0 < n < length l)%nat →
  ∃ older, l = older ++ Mem.sliceLast n l
           ∧ length (Mem.sliceLast n l) = n
           ∧ length older = (length l - n)%nat.
Proof.
  intros [Hn Hl]. exists (take (length l - n) l).
  destruct n as [|n]; [lia|]. unfold Mem.sliceLast.
  rewrite take_drop, length_drop, length_take. repeat split; lia.
Qed.

(** C8.  With the default bound of 40 turns, [summarizeHistory] returns the
    history itself when it has at most 40 turns; otherwise it returns one
    synthetic [system] turn that tells how many earlier turns were omitted,
    followed by exactly the last 40 turns.  In both cases the memory after
    the call is the memory before it. *)
Theorem summarizeHistory_default (memory : Memory) :
  ∃ out, Mem.summarizeHistory 40 memory = (Ok out, memory) ∧
    if bool_decide (length (history memory) ≤ 40)%nat
    then out = history memory
    else ∃ older keep,
        history memory = older ++ keep ∧ length keep = 40%nat ∧
        out = mkTurn system
                ("Summarized context: " +:+ pretty (length older)
                 +:+ " earlier turns omitted.") None :: keep.
Proof.
  unfold Mem.summarizeHistory.
  destruct (bool_decide (length (history memory) ≤ 40)%nat) eqn:E.
  - eexists. split; [reflexivity|]. done.
  - apply bool_decide_eq_false in E.
    destruct (sliceLast_suffix 40 (history memory)) as (older & Hsplit & Hk & Ho);
      [lia|].
    eexists. split; [reflexivity|].
    exists older, (Mem.sliceLast 40 (history memory)).
    split; [done|]. split; [done|].
    unfold Mem.omittedNote. by rewrite Hk, Ho.
Qed.

(** ** Strings *)

Lemma str_app_nil_l (s : string) : "" +:+ s = s.
Proof. reflexivity. Qed.

Lemma str_app_cons (c : ascii) (a b : string) : String c a +:+ b = String c (a +:+ b).
Proof. reflexivity. Qed.

Lemma str_app_nil_r (s : string) : s +:+ "" = s.
Proof. induction s as [|c s IH]; [done|]. by rewrite str_app_cons, IH. Qed.

Lemma str_app_assoc (a b c : string) : (a +:+ b) +:+ c = a +:+ (b +:+ c).
Proof. induction a as [|x a IH]; [done|]. by rewrite !str_app_cons, IH. Qed.

Lemma str_app_length (a b : string) :
  String.length (a +:+ b) = (String.length a + String.length b)%nat.
Proof. induction a as [|x a IH]; [done|]. rewrite str_app_cons. simpl. by rewrite IH. Qed.


(** ** The sandbox *)

Section SandboxFacts.
Variable w : World.

Lemma handle_data onStdout onStderr logFile chunks c seen :
  fold_left (Sandbox.onEvent onStdout onStderr logFile) (Data <$> chunks) (c, seen)
  = (Sandbox.mkCapture (Sandbox.acc_stdout c +:+ Spec.outText chunks)
                       (Sandbox.acc_stderr c +:+ Spec.errText chunks)
                       (Sandbox.settled c) (Sandbox.armed c) (Sandbox.killSent c),
     seen ++ Spec.visible onStdout onStderr chunks).
Proof.
  revert c seen. induction chunks as [|[s|s] chunks IH]; intros c seen.
  - simpl. rewrite !str_app_nil_r, app_nil_r. by destruct c.
  - cbn [fmap list_fmap fold_left Sandbox.onEvent]. rewrite IH. cbn.
    rewrite !str_app_assoc.
    destruct onStdout; cbn; [by rewrite <- List.app_assoc | done].
  - cbn [fmap list_fmap fold_left Sandbox.onEvent]. rewrite IH. cbn.
    rewrite !str_app_assoc.
    destruct onStderr; cbn; [by rewrite <- List.app_assoc | done].
Qed.

(** The handlers of [_spawnWithLogs] settle the promise whatever the child
    does: at its end when it ends before the timer fires, and otherwise at
    the [exit] event that follows the kill by the timer's callback.  The
    result is the one the specification gives. *)
Lemma handle_events onStdout onStderr logFile delay f seen :
  ∃ c, Sandbox.handle onStdout onStderr logFile delay f seen
       = (c, seen ++ Spec.visible onStdout onStderr (Spec.delivered delay f))
     ∧ Sandbox.settled c = Some (Spec.outcome delay f logFile).
Proof.
  unfold Sandbox.handle, Spec.delivered, Spec.visible, Spec.outcome,
    Spec.early, Spec.finished, events, killed.
  rewrite filter_app.
  destruct (ending f) as [[t e]|]; [case_bool_decide|].
  - rewrite fold_left_app, handle_data. cbn [fold_left].
    destruct e; cbn [endingEvent Sandbox.onEvent];
      rewrite fold_left_app, handle_data; cbn;
      eexists; (split; [by rewrite <- List.app_assoc|]); reflexivity.
  - rewrite fold_left_app, handle_data. cbn [fold_left Sandbox.onEvent].
    cbn. rewrite handle_data. eexists.
    split; [by rewrite <- List.app_assoc|]. reflexivity.
  - rewrite fold_left_app, handle_data. cbn [fold_left Sandbox.onEvent].
    cbn. rewrite handle_data. eexists.
    split; [by rewrite <- List.app_assoc|]. reflexivity.
Qed.

(** A spawn that returns has run the child to its end. *)
Lemma spawn_inv sb sp logFile onStdout onStderr p r p' :
  Sandbox._spawnWithLogs w sb sp logFile onStdout onStderr p = (Ok r, p') →
  r = Spec.outcome (Spec.delayOf sb) (fate w (p_spawned p) sp) logFile
  ∧ p' = mkProc (p_fs p)
           (p_seen p ++ Spec.visible onStdout onStderr
                          (Spec.delivered (Spec.delayOf sb)
                             (fate w (p_spawned p) sp)))
           (S (p_spawned p)) (p_ticks p).
Proof.
  unfold Sandbox._spawnWithLogs, Spec.delayOf.
  destruct (Sandbox.refuses sp); [done|].
  destruct (handle_events onStdout onStderr logFile
              (timerDelay (timeoutMs (Sandbox.limits sb)))
              (fate w (p_spawned p) sp) (p_seen p)) as (c & -> & Hc).
  rewrite Hc. intros H.
  destruct (negb (truthy (Some (sp_stdin sp)))); [by simplify_eq|].
  destruct (negb (isStr (sp_stdin sp))); [done|].
  destruct (brokenPipe (fate w (p_spawned p) sp)); [done|]. by simplify_eq.
Qed.


Lemma preserves_fmap {S A B X} (f : S → X) (g : A → B) (m : M S A) :
  Preserves f m → Preserves f (g <$> m).
Proof.
  intros Hm s r s' H. unfold fmap, M_fmap in H.
  destruct (m s) as [[a|e|] s1] eqn:E; inversion H; subst; eauto.
Qed.

Lemma preserves_seen_dateNow : Preserves p_seen (Sandbox.dateNow w).
Proof. intros s r s' H. by inversion H. Qed.

Lemma preserves_seen_inFs {A} (m : M FS A) : Preserves p_seen (inFs m).
Proof. by apply preserves_zoom. Qed.

Lemma preserves_seen_layout sb rq : Preserves p_seen (Sandbox.layout w sb rq).
Proof.
  unfold Sandbox.layout.
  repeat first
    [ apply preserves_bind; [|intros ?]
    | apply preserves_seen_inFs
    | apply preserves_fmap
    | apply preserves_seen_dateNow
    | apply preserves_ret
    | case_match ].
Qed.

Lemma spawnLogged_inv sb rq lay sp p r p' :
  Sandbox.spawnLogged w sb rq lay sp p = (Ok r, p') →
  r = Spec.outcome (Spec.delayOf sb) (fate w (p_spawned p) sp)
        (Sandbox.lay_logFile lay)
  ∧ p' = mkProc (p_fs p)
           (p_seen p ++ Spec.visible (rq_onStdout rq) (rq_onStderr rq)
                          (Spec.delivered (Spec.delayOf sb)
                             (fate w (p_spawned p) sp)))
           (S (p_spawned p)) (p_ticks p).
Proof. apply spawn_inv. Qed.

(** Taking a run of one of the two backends that returned apart: the
    spawns that it made, last first. *)
Ltac spawns :=
  repeat match goal with
  | E : (_ ≫= _) _ = (Ok _, _) |- _ =>
      apply bind_ok_inv in E as (? & ? & ? & E)
  | E : mret _ _ = (Ok _, _) |- _ => cbv [mret M_ret] in E
  | E : Sandbox.spawnLogged _ _ _ _ _ _ = (Ok _, _) |- _ =>
      apply spawnLogged_inv in E as [-> ->]
  | E : (Ok _, _) = (Ok _, _) |- _ => inversion E; subst; clear E
  end.

Ltac backend_cases sb rq lay :=
  destruct (rq_language rq);
  rewrite ?(bool_decide_true (python = python)), ?(bool_decide_true (node = node)),
    ?(bool_decide_false (python = node)), ?(bool_decide_false (node = python))
    by done;
  destruct (network (Sandbox.limits sb)) eqn:?, (Sandbox.lay_hasPyReq lay),
    (Sandbox.lay_hasNodePkg lay);
  cbn [andb].

Lemma runLocal_inv sb rq lay p r p' :
  Sandbox.runLocal w sb rq lay p = (Ok r, p') →
  Spec.RunsTool w sb rq (Sandbox.lay_logFile lay) p r p'.
Proof.
  unfold Sandbox.runLocal, Spec.RunsTool. cbv zeta.
  backend_cases sb rq lay; intros H; spawns;
    cbn [p_fs p_seen p_spawned p_ticks];
    eexists _, _, _;
    (split; [reflexivity|]);
    (split; [first [ by rewrite <- List.app_assoc
                   | instantiate (1 := []); reflexivity ]|]);
    (split; [by repeat split; try by exists []|]);
    first [ by left
          | right; split; [done|]; eexists _, _;
            split; [reflexivity|]; split; [|reflexivity];
            repeat split; by eexists [], _ ].
Qed.

Lemma ends_with_entry {A} (xs ys : list A) (i c e : A) (args : list A) :
  ∃ pre, xs ++ ys ++ i :: c :: e :: args = pre ++ e :: args.
Proof. exists (xs ++ ys ++ [i; c]). by rewrite <- !List.app_assoc. Qed.

Lemma ends_with_script (xs : list json) (i c : json) (script : string) :
  ∃ pre script', xs ++ [i; c; JStr "-lc"; JStr script]
                 = pre ++ [JStr "-lc"; JStr script'].
Proof. exists (xs ++ [i; c]), script. by rewrite <- !List.app_assoc. Qed.

Lemma runDocker_inv sb rq lay p r p' :
  Sandbox.runDocker w sb rq lay p = (Ok r, p') →
  Spec.RunsTool w sb rq (Sandbox.lay_logFile lay) p r p'.
Proof.
  unfold Sandbox.runDocker, Spec.RunsTool. cbv zeta.
  backend_cases sb rq lay; intros H; spawns;
    cbn [p_fs p_seen p_spawned p_ticks];
    eexists _, _, _;
    (split; [reflexivity|]);
    (split; [first [ by rewrite <- List.app_assoc
                   | instantiate (1 := []); reflexivity ]|]);
    (split; [split; [reflexivity|]; split; [reflexivity|];
             cbn [argv app]; apply ends_with_entry|]);
    first [ by left
          | right; split; [done|]; eexists _, _;
            split; [reflexivity|]; split; [|reflexivity];
            split; [reflexivity|]; split; [reflexivity|];
            cbn [argv fmap list_fmap];
            first [ apply ends_with_script
                  | by eexists [_; _; _; _; _; _; _; _; _; _; _; _; _], _ ] ].
Qed.

(** A run that returns has got as far as its tool's process. *)
Lemma run_inv sb rq p r p' :
  Sandbox.run w sb rq p = (Ok r, p') →
  ∃ lay p1 e,
    Sandbox.layout w sb rq p = (Ok lay, p1)
    ∧ dockerProbe w (p_spawned p1) = Some e
    ∧ Spec.RunsTool w sb rq (Sandbox.lay_logFile lay)
        (mkProc (p_fs p1) (p_seen p) (S (p_spawned p1)) (p_ticks p1)) r p'.
Proof.
  unfold Sandbox.run. intros H.
  apply bind_ok_inv in H as (lay & p1 & Hlay & H).
  apply bind_ok_inv in H as (docker & p1' & Hd & H).
  pose proof (preserves_seen_layout sb rq _ _ _ Hlay) as Hseen.
  unfold Sandbox.hasDocker in Hd.
  destruct (dockerProbe w (p_spawned p1)) as [e|] eqn:Hprobe; [|done].
  assert (p1' = mkProc (p_fs p1) (p_seen p) (S (p_spawned p1)) (p_ticks p1))
    as ->.
  { rewrite <- Hseen. by destruct e; simplify_eq. }
  exists lay, p1, e. split; [done|]. split; [done|].
  destruct docker; [by apply runDocker_inv | by apply runLocal_inv].
Qed.

End SandboxFacts.

Lemma visible_all (chunks : list Chunk) : Spec.visible true true chunks = chunks.
Proof.
  unfold Spec.visible. induction chunks as [|[s|s] chunks IH]; [done|..];
    rewrite filter_cons; cbn; by rewrite IH.
Qed.

Lemma outcome_stdout delay f logFile :
  stdout (Spec.outcome delay f logFile) = Spec.outText (Spec.early delay f).
Proof. unfold Spec.outcome. by destruct (Spec.finished delay f) as [[| |]|]. Qed.

Lemma outcome_stderr delay f logFile :
  stderr (Spec.outcome delay f logFile) = Spec.errText (Spec.early delay f)
  ∨ (code (Spec.outcome delay f logFile) = Some (-1)
     ∧ Spec.finished delay f
       = Some (SpawnFails (stderr (Spec.outcome delay f logFile)))).
Proof.
  unfold Spec.outcome. destruct (Spec.finished delay f) as [[| |]|]; cbn; auto.
Qed.

Lemma outcome_logFile delay f lf : logFile (Spec.outcome delay f lf) = lf.
Proof. unfold Spec.outcome. by destruct (Spec.finished delay f) as [[| |]|]. Qed.

Lemma installOutput_offline w sb rq n boot :
  Spec.installOutput w sb rq n boot →
  network (Sandbox.limits sb) = false → boot = [].
Proof. intros [->|[Hn _]] H; [done|]. by rewrite H in Hn. Qed.


(** C3 as stated fails: with the network allowed and a [requirements.txt] in
    the tool directory, the output of the installation reaches [onStdout]
    during the call and is not part of the result's [stdout]. *)
Lemma run_stdout_misses_install_output :
  ∃ r p',
    Sandbox.run Example.installs Example.online Example.request
                Example.withRequirements = (Ok r, p')
    ∧ p_seen p' = [OutChunk "Collecting requests"; OutChunk "hi"]
    ∧ stdout r = "hi"
    ∧ stdout r ≠ Spec.outText (p_seen p').
Proof.
  eexists _, _. split; [vm_compute; reflexivity|].
  cbn. split; [done|]. split; [done|]. discriminate.
Qed.

(** C3 (amended).  A run that returns a result [r] has ended with the
    process of its tool: the child spawned last, whose command line ends
    with the entry and the arguments of the request and which is given the
    standard input of the request.  [r] is the result of that child: its
    [stdout] is the concatenation, in arrival order, of the standard-output
    chunks that this child printed up to its end (or up to the moment the
    timer killed it), and its [stderr] that of its standard-error chunks,
    unless the process could not be started, where the code is -1 and
    [stderr] is the error text.  What the callbacks were given during the
    call is, in this order: the output of the dependency installation (the
    child before the tool's process; there is none when the network is not
    allowed), then those chunks of the tool's process, then the chunks that
    arrived after its end; each callback only sees the chunks of its own
    stream.  So the installation output reaches the callbacks and is not
    part of [r]. *)
Theorem run_result_is_tool_output (w : World) (sb : Sandbox.t) (rq : Request)
    (p p2 : Proc) (r : RunResult) :
  Sandbox.run w sb rq p = (Ok r, p2) →
  ∃ n sp boot,
    p_spawned p2 = S n
    ∧ Spec.toolProcess sb rq sp
    ∧ r = Spec.outcome (Spec.delayOf sb) (fate w n sp) (logFile r)
    ∧ stdout r = Spec.outText (Spec.early (Spec.delayOf sb) (fate w n sp))
    ∧ (stderr r = Spec.errText (Spec.early (Spec.delayOf sb) (fate w n sp))
       ∨ (code r = Some (-1)
          ∧ Spec.finished (Spec.delayOf sb) (fate w n sp)
            = Some (SpawnFails (stderr r))))
    ∧ p_seen p2
      = p_seen p ++ boot
        ++ Spec.visible (rq_onStdout rq) (rq_onStderr rq)
             (Spec.early (Spec.delayOf sb) (fate w n sp) ++ late (fate w n sp))
    ∧ Spec.installOutput w sb rq n boot
    ∧ (network (Sandbox.limits sb) = false → boot = []).
Proof.
  intros Hrun.
  destruct (run_inv w sb rq p r p2 Hrun)
    as (lay & p1 & e & _ & _ & n & sp & boot & -> & -> & Htool & Hboot).
  exists n, sp, boot. cbn [p_spawned p_seen].
  split; [done|]. split; [done|].
  split; [by rewrite outcome_logFile|].
  split; [apply outcome_stdout|].
  split; [apply outcome_stderr|].
  split; [done|]. split; [done|].
  by apply (installOutput_offline w sb rq n).
Qed.

Lemma run_result_is_tool_output_witness :
  ∃ n sp boot,
    p_spawned (Sandbox.run Example.installs Example.online Example.request
                 Example.withRequirements).2 = S n
    ∧ Spec.toolProcess Example.online Example.request sp
    ∧ mkResult (Some 0) "hi" "" "/sb/runs/a-1/exec.log"
      = Spec.outcome (Spec.delayOf Example.online) (fate Example.installs n sp)
          (logFile (mkResult (Some 0) "hi" "" "/sb/runs/a-1/exec.log"))
    ∧ stdout (mkResult (Some 0) "hi" "" "/sb/runs/a-1/exec.log")
      = Spec.outText (Spec.early (Spec.delayOf Example.online)
                        (fate Example.installs n sp))
    ∧ (stderr (mkResult (Some 0) "hi" "" "/sb/runs/a-1/exec.log")
       = Spec.errText (Spec.early (Spec.delayOf Example.online)
                         (fate Example.installs n sp))
       ∨ (code (mkResult (Some 0) "hi" "" "/sb/runs/a-1/exec.log") = Some (-1)
          ∧ Spec.finished (Spec.delayOf Example.online)
              (fate Example.installs n sp)
            = Some (SpawnFails
                      (stderr (mkResult (Some 0) "hi" "" "/sb/runs/a-1/exec.log")))))
    ∧ p_seen (Sandbox.run Example.installs Example.online Example.request
                Example.withRequirements).2
      = p_seen Example.withRequirements ++ boot
        ++ Spec.visible (rq_onStdout Example.request) (rq_onStderr Example.request)
             (Spec.early (Spec.delayOf Example.online)
                (fate Example.installs n sp)
              ++ late (fate Example.installs n sp))
    ∧ Spec.installOutput Example.installs Example.online Example.request n boot
    ∧ (network (Sandbox.limits Example.online) = false → boot = []).
Proof.
  apply (run_result_is_tool_output Example.installs Example.online
           Example.request Example.withRequirements).
  rewrite (surjective_pairing (Sandbox.run _ _ _ _)) at 1. f_equal.
Defined.

(** ** Template expansion *)

Lemma eqb_ascii_true (a b : ascii) : Str.eqb_ascii a b = true ↔ a = b.
Proof. unfold Str.eqb_ascii. apply bool_decide_eq_true. Qed.

Lemma eqb_ascii_false (a b : ascii) : Str.eqb_ascii a b = false ↔ a ≠ b.
Proof. unfold Str.eqb_ascii. apply bool_decide_eq_false. Qed.

Lemma eqb_ascii_refl (a : ascii) : Str.eqb_ascii a a = true.
Proof. by apply eqb_ascii_true. Qed.

Lemma span_inv stop s a b : Js.span stop s = (a, b) → s = a +:+ b.
Proof.
  revert a b. induction s as [|c s IH]; intros a b H; cbn in H.
  - by inversion H.
  - destruct (stop c); [by inversion H|].
    destruct (Js.span stop s) as [a' b'] eqn:E. inversion H; subst.
    rewrite str_app_cons. f_equal. by apply IH.
Qed.

Lemma span_brace e rest :
  Str.hasChar "}"%char e = false →
  Js.span Loop.isCloseBrace (e +:+ String "}"%char rest)
  = (e, String "}"%char rest).
Proof.
  induction e as [|c e IH]; intros H.
  - rewrite str_app_nil_l. cbn [Js.span]. unfold Loop.isCloseBrace.
    by rewrite eqb_ascii_refl.
  - cbn [Str.hasChar] in H. apply orb_false_iff in H as [Hc He].
    rewrite str_app_cons. cbn [Js.span]. unfold Loop.isCloseBrace at 1.
    rewrite Hc. by rewrite IH.
Qed.

Section ExpandFacts.
Variable lastRun : option RunResult.
Variable runIndex : gmap string RunResult.

#[local] Abbreviation evalExpr := (Loop.evalExpr lastRun runIndex).
#[local] Abbreviation replaceFrom := (Loop.replaceFrom lastRun runIndex).
#[local] Abbreviation replacePlaceholders := (Loop.replacePlaceholders lastRun runIndex).

Lemma placeholderHere_hole e rest :
  e ≠ "" → Str.hasChar "}"%char e = false →
  Loop.placeholderHere ("${" +:+ e +:+ "}" +:+ rest) = Some (e, rest).
Proof.
  intros Hne Hb.
  change ("${" +:+ e +:+ "}" +:+ rest)
    with (String "$"%char (String "{"%char (e +:+ String "}"%char rest))).
  unfold Loop.placeholderHere. rewrite !eqb_ascii_refl. cbn [andb].
  rewrite span_brace by done. by destruct e.
Qed.

Lemma placeholderHere_shorter s e rest :
  Loop.placeholderHere s = Some (e, rest) →
  (String.length rest < String.length s)%nat.
Proof.
  unfold Loop.placeholderHere. intros H.
  destruct s as [|c1 [|c2 r]]; try discriminate.
  destruct (Str.eqb_ascii c1 "$" && Str.eqb_ascii c2 "{"); [|discriminate].
  destruct (Js.span Loop.isCloseBrace r) as [a b] eqn:E.
  apply span_inv in E. destruct a as [|c a]; [discriminate|].
  destruct b as [|c' b]; [discriminate|]. inversion H; subst.
  cbn [String.length]. rewrite str_app_length. cbn [String.length]. lia.
Qed.

(** Fuel beyond the length of the text changes nothing. *)
Lemma replaceFrom_fuel n m s :
  (String.length s ≤ n)%nat → (String.length s ≤ m)%nat →
  replaceFrom n s = replaceFrom m s.
Proof.
  revert m s. induction n as [|n IH]; intros m s Hn Hm.
  - destruct s; [|cbn in Hn; lia]. by destruct m.
  - destruct m as [|m].
    { destruct s; [done|cbn in Hm; lia]. }
    cbn [Loop.replaceFrom].
    destruct (Loop.placeholderHere s) as [[e rest]|] eqn:E.
    + apply placeholderHere_shorter in E. f_equal. apply IH; lia.
    + destruct s as [|c r]; [done|]. f_equal. cbn in Hn, Hm. apply IH; lia.
Qed.

Lemma replaceFrom_enough n s :
  (String.length s ≤ n)%nat → replaceFrom n s = replacePlaceholders s.
Proof. intros. unfold Loop.replacePlaceholders. by apply replaceFrom_fuel. Qed.

Lemma literal_no_placeholder c r rest :
  Spec.literal (String c r) = true →
  Loop.placeholderHere (String c (r +:+ rest)) = None.
Proof.
  cbn [Spec.literal]. intros H. apply andb_true_iff in H as [H _].
  unfold Loop.placeholderHere.
  destruct r as [|c' r']; cbn in *.
  - rewrite orb_false_r in H. apply negb_true_iff in H.
    destruct rest; [done|]. by rewrite H.
  - rewrite str_app_cons.
    apply orb_true_iff in H as [H|H]; apply negb_true_iff in H; rewrite H;
      [done | by rewrite andb_false_r].
Qed.

Lemma replace_literal s rest :
  Spec.literal s = true →
  replacePlaceholders (s +:+ rest) = s +:+ replacePlaceholders rest.
Proof.
  induction s as [|c r IH]; intros H; [done|].
  unfold Loop.replacePlaceholders at 1. rewrite str_app_cons.
  cbn [String.length Loop.replaceFrom].
  rewrite literal_no_placeholder by done.
  rewrite str_app_cons. f_equal.
  fold (Loop.replacePlaceholders lastRun runIndex (r +:+ rest)).
  apply IH. cbn [Spec.literal] in H. by apply andb_true_iff in H as [_ H].
Qed.

Lemma replace_hole e rest :
  e ≠ "" → Str.hasChar "}"%char e = false →
  replacePlaceholders ("${" +:+ e +:+ "}" +:+ rest)
  = evalExpr e +:+ replacePlaceholders rest.
Proof.
  intros Hne Hb. unfold Loop.replacePlaceholders at 1.
  pose proof (placeholderHere_hole e rest Hne Hb) as Hp.
  destruct (String.length ("${" +:+ e +:+ "}" +:+ rest)) as [|n] eqn:El.
  { apply placeholderHere_shorter in Hp. lia. }
  cbn [Loop.replaceFrom]. rewrite Hp. f_equal.
  apply replaceFrom_enough. apply placeholderHere_shorter in Hp. lia.
Qed.

(** *** The inner pattern *)

Lemma stripPrefix_app p s : Js.stripPrefix p (p +:+ s) = Some s.
Proof.
  induction p as [|c p IH]; [done|].
  rewrite str_app_cons. cbn. by rewrite eqb_ascii_refl.
Qed.

Lemma stripPrefix_inv p s r : Js.stripPrefix p s = Some r → s = p +:+ r.
Proof.
  revert s. induction p as [|c p IH]; intros s H; cbn in H.
  - by inversion H.
  - destruct s as [|c' s]; [discriminate|].
    destruct (Str.eqb_ascii c c') eqn:E; [|discriminate].
    apply eqb_ascii_true in E as ->. rewrite str_app_cons. f_equal. by apply IH.
Qed.

Lemma stripSuffix_inv suf s p : Loop.stripSuffix suf s = Some p → s = p +:+ suf.
Proof.
  revert p. induction s as [|c s IH]; intros p H; cbn in H.
  - case_bool_decide; [|discriminate]. inversion H. by subst.
  - case_bool_decide as E; [inversion H; by subst|].
    destruct (Loop.stripSuffix suf s) as [p'|] eqn:E'; [|discriminate].
    cbn in H. inversion H. subst. rewrite str_app_cons. f_equal. by apply IH.
Qed.

Lemma stripSuffix_app suf p : Loop.stripSuffix suf (p +:+ suf) = Some p.
Proof.
  induction p as [|c p IH].
  - rewrite str_app_nil_l.
    destruct suf; cbn [Loop.stripSuffix]; by rewrite bool_decide_true.
  - rewrite str_app_cons. cbn [Loop.stripSuffix].
    rewrite bool_decide_false.
    + by rewrite IH.
    + intros E. apply (f_equal String.length) in E.
      cbn in E. rewrite str_app_length in E. lia.
Qed.

Lemma endsWithChar_app c a b :
  b ≠ "" → Str.endsWithChar c (a +:+ b) = Str.endsWithChar c b.
Proof.
  intros Hb. induction a as [|x a IH]; [done|].
  rewrite str_app_cons. cbn [Str.endsWithChar].
  destruct (a +:+ b) eqn:E; [|done].
  destruct a; [|discriminate]. by destruct b.
Qed.

Lemma fieldName_ends_apart f g i p :
  f ≠ g → i +:+ "." +:+ fieldName f ≠ p +:+ "." +:+ fieldName g.
Proof.
  intros Hfg E.
  assert (∀ c, Str.endsWithChar c ("." +:+ fieldName f)
               = Str.endsWithChar c ("." +:+ fieldName g)) as H.
  { intros c.
    rewrite <- (endsWithChar_app c i) by (rewrite str_app_cons; discriminate).
    rewrite <- (endsWithChar_app c p ("." +:+ fieldName g))
      by (rewrite str_app_cons; discriminate).
    by rewrite E. }
  destruct f, g; try done;
    solve [ specialize (H "t"%char); vm_compute in H; discriminate
          | specialize (H "r"%char); vm_compute in H; discriminate ].
Qed.

Lemma runsField_hit i f :
  i ≠ "" → Loop.hasLineTerminator i = false →
  Loop.runsField (i +:+ "." +:+ fieldName f) f = Some (i, f).
Proof.
  intros Hi Hl. unfold Loop.runsField. rewrite stripSuffix_app.
  rewrite bool_decide_false by done. by rewrite Hl.
Qed.

Lemma runsField_miss i f g :
  f ≠ g → Loop.runsField (i +:+ "." +:+ fieldName f) g = None.
Proof.
  intros Hfg. unfold Loop.runsField.
  destruct (Loop.stripSuffix _ _) as [p|] eqn:E; [|done].
  apply stripSuffix_inv in E. by apply fieldName_ends_apart in E.
Qed.

Lemma runsField_inv rest f m :
  Loop.runsField rest f = Some m → rest = m.1 +:+ "." +:+ fieldName m.2.
Proof.
  unfold Loop.runsField.
  destruct (Loop.stripSuffix _ _) as [p|] eqn:E; [|done].
  destruct (_ || _); [done|]. intros H. inversion H. subst.
  by apply stripSuffix_inv in E.
Qed.

Lemma matchRuns_hit i f :
  i ≠ "" → Loop.hasLineTerminator i = false →
  Loop.matchRuns ("runs." +:+ i +:+ "." +:+ fieldName f) = Some (i, f).
Proof.
  intros Hi Hl. unfold Loop.matchRuns. rewrite stripPrefix_app.
  destruct f.
  - by rewrite runsField_hit.
  - rewrite (runsField_miss i Fstderr Fstdout) by done. by rewrite runsField_hit.
  - rewrite (runsField_miss i Fcode Fstdout), (runsField_miss i Fcode Fstderr)
      by done.
    by rewrite runsField_hit.
Qed.

Lemma matchRuns_inv expr m :
  Loop.matchRuns expr = Some m →
  expr = "runs." +:+ m.1 +:+ "." +:+ fieldName m.2.
Proof.
  unfold Loop.matchRuns.
  destruct (Js.stripPrefix "runs." expr) as [rest|] eqn:E; [|done].
  apply stripPrefix_inv in E. subst expr. intros H. f_equal.
  destruct (Loop.runsField rest Fstdout) eqn:E1.
  { inversion H; subst. by apply runsField_inv in E1. }
  destruct (Loop.runsField rest Fstderr) eqn:E2.
  { inversion H; subst. by apply runsField_inv in E2. }
  by apply runsField_inv in H.
Qed.

(** The callback of [replace] computes the value that the specification
    gives to an expression. *)
Lemma evalExpr_value e :
  Spec.WellFormedExpr e → evalExpr (Spec.exprText e) = Spec.value lastRun runIndex e.
Proof.
  intros (_ & _ & H). unfold Loop.evalExpr. destruct e as [|i f|t]; cbn [Spec.exprText Spec.value].
  - by rewrite bool_decide_true.
  - destruct H as [Hi Hl]. rewrite bool_decide_false by done.
    rewrite matchRuns_hit by done.
    destruct (runIndex !! i); [|done]. by destruct f.
  - destruct H as [Hl Hr]. rewrite bool_decide_false by done.
    destruct (Loop.matchRuns t) as [[i f]|] eqn:E; [|done].
    apply matchRuns_inv in E. by apply Hr in E.
Qed.

Lemma replace_render ps :
  Forall Spec.WellFormed ps →
  replacePlaceholders (Spec.render ps) = Spec.fill lastRun runIndex ps.
Proof.
  induction 1 as [|[s|e] ps Hp _ IH]; [done|..]; cbn [Spec.render Spec.fill].
  - rewrite replace_literal by done. by rewrite IH.
  - destruct Hp as (Hne & Hb & Hp).
    rewrite replace_hole by done.
    rewrite evalExpr_value by done. by rewrite IH.
Qed.

(** *** Tool ids with a line terminator *)

Lemma hasLineTerminator_app a b :
  Loop.hasLineTerminator (a +:+ b)
  = Loop.hasLineTerminator a || Loop.hasLineTerminator b.
Proof.
  induction a as [|c a IH]; [done|].
  rewrite str_app_cons. cbn [Loop.hasLineTerminator]. rewrite IH.
  by rewrite orb_assoc.
Qed.

Lemma fieldName_one_line f : Loop.hasLineTerminator ("." +:+ fieldName f) = false.
Proof. by destruct f. Qed.

(** What the inner pattern matches holds no line terminator. *)
Lemma matchRuns_one_line rest m :
  Loop.matchRuns ("runs." +:+ rest) = Some m →
  Loop.hasLineTerminator rest = false.
Proof.
  unfold Loop.matchRuns. rewrite stripPrefix_app.
  assert (∀ f, Loop.runsField rest f = Some m →
               Loop.hasLineTerminator rest = false) as Hone.
  { intros f. unfold Loop.runsField.
    destruct (Loop.stripSuffix _ _) as [p|] eqn:E; [|done].
    apply stripSuffix_inv in E. subst rest.
    destruct (bool_decide (p = "")); [done|]. cbn [orb].
    destruct (Loop.hasLineTerminator p) eqn:Hp; [done|]. intros _.
    by rewrite hasLineTerminator_app, Hp, fieldName_one_line. }
  destruct (Loop.runsField rest Fstdout) eqn:E1.
  { intros H. inversion H; subst. by eapply Hone. }
  destruct (Loop.runsField rest Fstderr) eqn:E2.
  { intros H. inversion H; subst. by eapply Hone. }
  apply Hone.
Qed.

Lemma evalExpr_line_terminator i f :
  Loop.hasLineTerminator i = true →
  evalExpr ("runs." +:+ i +:+ "." +:+ fieldName f) = "".
Proof.
  intros Hi. unfold Loop.evalExpr.
  rewrite bool_decide_false by discriminate.
  destruct (Loop.matchRuns _) as [m|] eqn:E; [|done].
  apply matchRuns_one_line in E.
  by rewrite hasLineTerminator_app, Hi in E.
Qed.

Lemma hasChar_app c a b :
  Str.hasChar c (a +:+ b) = Str.hasChar c a || Str.hasChar c b.
Proof.
  induction a as [|x a IH]; [done|].
  rewrite str_app_cons. cbn [Str.hasChar]. rewrite IH. by rewrite orb_assoc.
Qed.

Lemma expand_line_terminator i f :
  Loop.hasLineTerminator i = true → Str.hasChar "}"%char i = false →
  Loop.expand lastRun runIndex
    (JStr ("${runs." +:+ i +:+ "." +:+ fieldName f +:+ "}"))
  = JStr "".
Proof.
  intros Hi Hb. unfold Loop.expand.
  rewrite bool_decide_false by discriminate. f_equal.
  assert ("${runs." +:+ i +:+ "." +:+ fieldName f +:+ "}"
          = "${" +:+ ("runs." +:+ i +:+ "." +:+ fieldName f) +:+ "}" +:+ "")
    as ->.
  { rewrite !str_app_assoc. reflexivity. }
  rewrite replace_hole.
  - by rewrite evalExpr_line_terminator.
  - discriminate.
  - rewrite !hasChar_app, Hb. by destruct f.
Qed.

End ExpandFacts.

(** C5 (code bug).  The specification lets [runs.<toolId>.<field>] expand to
    that field of the run recorded for the tool, for every tool.  The code
    recognises the expression with a pattern whose group for the tool id is
    [.+?], and [.] matches no line terminator.  So for every tool id that
    holds a line feed or a carriage return (and no closing brace, which ends
    the placeholder), the placeholder expands to the empty string, whatever
    run is recorded for the tool.  An instance: the tool whose id is [a],
    a line feed, [b] has a recorded run with standard output [X], and
    the placeholder for that output expands to the empty string. *)
Theorem expand_misses_tool_id_with_newline :
  (∀ lastRun runIndex i f,
     Loop.hasLineTerminator i = true → Str.hasChar "}"%char i = false →
     Loop.expand lastRun runIndex
       (JStr ("${runs." +:+ i +:+ "." +:+ fieldName f +:+ "}"))
     = JStr "")
  ∧ ({[ ExampleTemplate.twoLines := ExampleTemplate.done_ ]}
       : gmap string RunResult) !! ExampleTemplate.twoLines
    = Some ExampleTemplate.done_
  ∧ Loop.expand None {[ ExampleTemplate.twoLines := ExampleTemplate.done_ ]}
      (JStr ("${runs." +:+ ExampleTemplate.twoLines +:+ ".stdout}")) = JStr ""
  ∧ JStr "" ≠ JStr (stdout ExampleTemplate.done_).
Proof.
  split; [apply expand_line_terminator|].
  split; [|split]; [vm_compute; reflexivity..|discriminate].
Qed.

(** What [expand] does where the pattern works.  A value that is not a
    string is returned as it is.  In a string, every placeholder whose
    expression is not empty and holds no closing brace is replaced:
    [last.stdout] by the standard output of [lastRun] (empty when there is
    none), [runs.<toolId>.<field>], for a tool id that is not empty and holds
    no line terminator, by that field of the run recorded for the tool in
    [runIndex] (empty when there is none, the code in decimal), and any other
    expression by the empty string; the text between placeholders is kept. *)
Lemma expand_spec (lastRun : option RunResult) (runIndex : gmap string RunResult) :
  (∀ v, isStr v = false → Loop.expand lastRun runIndex v = v)
  ∧ (∀ ps, Forall Spec.WellFormed ps →
       Loop.expand lastRun runIndex (JStr (Spec.render ps))
       = JStr (Spec.fill lastRun runIndex ps)).
Proof.
  split.
  - intros v Hv. by destruct v.
  - intros ps Hps. unfold Loop.expand.
    pose proof (replace_render lastRun runIndex ps Hps) as H.
    case_bool_decide as E; [|by rewrite H].
    rewrite E in H |- *. rewrite <- H. reflexivity.
Qed.

Example expand_spec_example :
  Loop.expand (Some ExampleTemplate.done_) {[ "a" := ExampleTemplate.done_ ]}
    (JNum (ofZ 3)) = JNum (ofZ 3)
  ∧ Loop.expand (Some ExampleTemplate.done_) {[ "a" := ExampleTemplate.done_ ]}
      (JStr (Spec.render ExampleTemplate.pieces))
    = JStr (Spec.fill (Some ExampleTemplate.done_) {[ "a" := ExampleTemplate.done_ ]}
              ExampleTemplate.pieces).
Proof.
  destruct (expand_spec (Some ExampleTemplate.done_)
              {[ "a" := ExampleTemplate.done_ ]}) as [Hother Hstr].
  split.
  - apply Hother. reflexivity.
  - apply Hstr. unfold ExampleTemplate.pieces.
    repeat constructor; try discriminate; try reflexivity.
Qed.

Example expand_example :
  Spec.render ExampleTemplate.pieces = "in: ${last.stdout} costs $5 ${runs.a.code}${zz}"
  ∧ Spec.fill (Some ExampleTemplate.done_) {[ "a" := ExampleTemplate.done_ ]}
      ExampleTemplate.pieces = "in: X costs $5 0".
Proof. split; vm_compute; reflexivity. Qed.


(** ** The tool store: saving *)

Lemma parse_fields j m :
  ToolManifest_parse j = Ok m →
  prop "id" j = Some (JStr (m_id m)) ∧ prop "entry" j = Some (JStr (m_entry m)).
Proof.
  unfold ToolManifest_parse, mbind, res_bind, Zod.object_, Zod.string_.
  intros H. repeat (case_match; simplify_eq/=). done.
Qed.

(** [ensureDir] is [mkdir -p], unless the path holds a NUL character. *)
Lemma ensureDir_inv p fs r fs' :
  Fs.ensureDir p fs = (r, fs') →
  (Str.hasNul p = true ∧ r = Throw TypeError ∧ fs' = fs)
  ∨ (Str.hasNul p = false ∧ Fs.mkdirs [] (Fs.locate p) fs = (r, fs')).
Proof.
  unfold Fs.ensureDir. destruct (Str.hasNul p); intros H.
  - left. cbv in H. by simplify_eq.
  - by right.
Qed.

Lemma ensureDir_ok p fs fs' :
  Fs.ensureDir p fs = (Ok tt, fs') →
  Str.hasNul p = false ∧ Fs.mkdirs [] (Fs.locate p) fs = (Ok tt, fs').
Proof.
  intros H. by destruct (ensureDir_inv _ _ _ _ H) as [(_ & ? & _)|?].
Qed.

Lemma ensureDir_plain p fs :
  Str.hasNul p = false → Fs.ensureDir p fs = Fs.mkdirs [] (Fs.locate p) fs.
Proof. unfold Fs.ensureDir. by intros ->. Qed.

Lemma write_ok p c fs fs' :
  Fs.write p c fs = (Ok tt, fs') → fs' = <[Fs.locate p := File c]> fs.
Proof.
  unfold Fs.write. intros H. repeat (case_match; simplify_eq/=). done.
Qed.

Lemma saveTool_ok sandboxDir j fs rec fs' :
  Tools.saveTool sandboxDir j fs = (Ok rec, fs') →
  ToolManifest_parse j = Ok (manifest rec)
  ∧ path rec = Path.join [sandboxDir; "tools"; m_id (manifest rec)]
  ∧ manifestPath rec = Path.join [path rec; "manifest.json"]
  ∧ fs' !! Fs.locate (manifestPath rec)
    = Some (File (JsonDoc (Json.stored (manifestToJson (manifest rec))))).
Proof.
  unfold Tools.saveTool. intros H.
  apply bind_ok_inv in H as (parsed & fs0 & Hp & H).
  unfold liftRes in Hp. inversion Hp; subst fs0. clear Hp.
  apply bind_ok_inv in H as ([] & fs1 & Hdir & H).
  apply bind_ok_inv in H as ([] & fs2 & Hw & H).
  inversion H; subst. cbn [manifest path manifestPath].
  apply write_ok in Hw. subst fs'.
  repeat split; [done|]. apply lookup_insert_eq.
Qed.



(** ** Tool creation *)

Lemma preserves_on_failure {S A X} (f : S → X) (m : M S A) :
  Preserves f m → PreservesOnFailure f m.
Proof. intros Hm s r s' H _. eauto. Qed.

Lemma preserves_on_failure_bind {S A B X} (f : S → X) (m : M S A) (k : A → M S B) :
  Preserves f m → (∀ a, PreservesOnFailure f (k a)) →
  PreservesOnFailure f (m ≫= k).
Proof.
  intros Hm Hk s r s' H Hr.
  destruct (bind_inv _ _ _ _ _ H) as [(a & s1 & H1 & H2)|[(e & H1 & _)|[H1 _]]].
  - rewrite (Hk _ _ _ _ H2 Hr). eauto.
  - eauto.
  - eauto.
Qed.

Lemma preserves_on_failure_modify {S X} (f : S → X) (g : S → S) :
  PreservesOnFailure f (modify g).
Proof. intros s r s' H Hr. inversion H; subst. by destruct (Hr tt). Qed.

Lemma inProc_inFs_inv {A} (m : M FS A) a r a' :
  inProc (inFs m) a = (r, a') →
  ∃ fs', m (p_fs (proc a)) = (r, fs')
    ∧ a' = mkAgent (mkProc fs' (p_seen (proc a)) (p_spawned (proc a))
                           (p_ticks (proc a)))
                   (memory a) (tools a) (created a) (createdFiles a) (runs a)
                   (runIndex a) (lastRun a) (asked a) (requests a).
Proof.
  unfold inProc, inFs, zoom. destruct (m (p_fs (proc a))) as [r0 fs'].
  intros H. inversion H. eauto.
Qed.

(** Frame conditions of the steps of the loop. *)
Ltac frame :=
  repeat first
    [ apply preserves_ret
    | apply preserves_throw
    | apply preserves_liftRes
    | apply preserves_gets
    | apply preserves_zoom; done
    | apply preserves_modify; done
    | apply preserves_bind; [|intros ?]
    | apply preserves_tryCatch; [|intros ?]
    | progress unfold Loop.dateNow, Loop.asString, Loop.setTools, Loop.pushRun,
        Loop.sandboxRun, inProc, inFs, inMemory
    | match goal with
      | |- Preserves _ (match ?x with _ => _ end) => destruct x
      | |- Preserves _ (if ?x then _ else _) => destruct x
      end ].

Ltac keeps f H :=
  match type of H with
  | ?m ?s = (_, ?s') =>
      let E := fresh "E" in
      assert (f s' = f s) as E
        by (apply (λ P : Preserves f m, P _ _ _ H); frame)
  end.

Section CreateTool.
Variable w : World.
Variable config : Config.

(** A turn of the loop over [plan.createTools]: it has saved a manifest
    built from the specification of the tool, added the tool's id to
    [created] and the record to [tools], and left the history alone; or it
    has noted a failure in the history and left [created] alone; or its
    body does not settle. *)
Lemma createTool_inv t a r a' :
  Loop.createTool w config t a = (r, a') →
  (r = Ok tt
   ∧ history (memory a') = history (memory a)
   ∧ ∃ toolId rec c u fs1,
      Tools.saveTool (cfg_sandboxDir config)
        (JObj [ ("id", JStr toolId);
                ("name", orElse (prop "name" t) (JStr toolId));
                ("purpose", orElse (prop "purpose" t) (JStr "N/A"));
                ("language", orElse (prop "language" t) (JStr "node"));
                ("entry", orElse (prop "entry" t) (JStr "index.mjs"));
                ("inputs", orElse (prop "inputs" t) (JArr []));
                ("outputs", orElse (prop "outputs" t) (JArr []));
                ("usage", orElse (prop "usage" t) (JStr ""));
                ("createdAt", JNum (ofZ c));
                ("updatedAt", JNum (ofZ u)) ]) fs1
      = (Ok rec, p_fs (proc a'))
      ∧ created a' = created a ++ [toolId]
      ∧ tools a' !! toolId = Some rec)
  ∨ (created a' = created a
     ∧ ∃ turn, history (memory a') = history (memory a) ++ [turn])
  ∨ (created a' = created a ∧ r = Never).
Proof.
  unfold Loop.createTool, tryCatch.
  match goal with |- context [match ?b a with _ => _ end] => set (body := b) end.
  assert (PreservesOnFailure created body) as Hfail.
  { subst body.
    repeat (apply preserves_on_failure_bind; [frame|intros ?]).
    unfold Loop.setTools. apply preserves_on_failure_modify. }
  assert (Preserves (λ x, history (memory x)) body) as Hhist
    by (subst body; frame).
  destruct (body a) as [[[]|e|] ab] eqn:Hb; intros H.
  - inversion H; subst r a'. left. split; [done|].
    split; [by apply (Hhist _ _ _ Hb)|]. subst body.
    apply bind_ok_inv in Hb as ([] & s1 & H1 & Hb). keeps (@created) H1.
    apply bind_ok_inv in Hb as (toolIdV & s2 & H2 & Hb). keeps (@created) H2.
    apply bind_ok_inv in Hb as (toolId & s3 & H3 & Hb). keeps (@created) H3.
    apply bind_ok_inv in Hb as (dir & s4 & H4 & Hb). keeps (@created) H4.
    apply bind_ok_inv in Hb as ([] & s5 & H5 & Hb). keeps (@created) H5.
    apply bind_ok_inv in Hb as (c & s6 & H6 & Hb). keeps (@created) H6.
    apply bind_ok_inv in Hb as (u & s7 & H7 & Hb). keeps (@created) H7.
    apply bind_ok_inv in Hb as (rec & s8 & H8 & Hb).
    apply inProc_inFs_inv in H8 as (fs' & Hsave & ->).
    unfold Loop.setTools, modify in Hb. inversion Hb; subst ab. clear Hb.
    exists toolId, rec, c, u, (p_fs (proc s7)).
    cbn [proc p_fs created tools]. split; [exact Hsave|].
    split; [congruence | apply lookup_insert_eq].
  - right. left.
    assert (created ab = created a) as Eab by (apply (Hfail _ _ _ Hb); done).
    pose proof (Hhist _ _ _ Hb) as Hab. cbn beta in Hab.
    cbv [mbind M_bind Loop.dateNow inProc zoom Sandbox.dateNow inMemory
         Mem.addHistory modify] in H.
    inversion H; subst r a'. cbn [created memory history].
    rewrite Eab, Hab. eauto.
  - right. right. inversion H; subst. split; [|done].
    apply (Hfail _ _ _ Hb). done.
Qed.

Lemma createTool_cases t a r a' :
  Loop.createTool w config t a = (r, a') →
  created a' = created a
  ∨ ∃ toolId rec c u fs1,
      Tools.saveTool (cfg_sandboxDir config)
        (JObj [ ("id", JStr toolId);
                ("name", orElse (prop "name" t) (JStr toolId));
                ("purpose", orElse (prop "purpose" t) (JStr "N/A"));
                ("language", orElse (prop "language" t) (JStr "node"));
                ("entry", orElse (prop "entry" t) (JStr "index.mjs"));
                ("inputs", orElse (prop "inputs" t) (JArr []));
                ("outputs", orElse (prop "outputs" t) (JArr []));
                ("usage", orElse (prop "usage" t) (JStr ""));
                ("createdAt", JNum (ofZ c));
                ("updatedAt", JNum (ofZ u)) ]) fs1
      = (Ok rec, p_fs (proc a'))
      ∧ created a' = created a ++ [toolId]
      ∧ tools a' !! toolId = Some rec.
Proof.
  intros H.
  destruct (createTool_inv t a r a' H) as [(_ & _ & ?)|[[? _]|[? _]]]; auto.
Qed.

End CreateTool.


(** ** The run chain *)

Ltac wp_unfold :=
  unfold Loop.dateNow, Loop.sandboxRun, Loop.pushRun, Loop.recordRun,
    Loop.askPatch, inProc, inFs, inMemory.

Ltac wp_simpl :=
  cbv beta iota;
  cbn [proc memory tools created createdFiles runs runIndex lastRun asked
       requests p_fs p_seen p_spawned p_ticks fst snd].

Ltac wp_step :=
  wp_simpl;
  first
    [ apply post_ret
    | apply post_throw
    | apply post_gets
    | apply post_modify
    | apply post_liftRes
    | apply post_bind
    | apply post_tryCatch
    | apply post_zoom; intros [?|?|] ? ].

Ltac wp := wp_unfold; repeat wp_step; wp_simpl.

Section RunChain.
Variable w : World.
Variable config : Config.

Lemma askPatch_post prompt a Q :
  (∀ r, Q r (mkAgent (proc a) (memory a) (tools a) (created a)
                     (createdFiles a) (runs a) (runIndex a) (lastRun a)
                     (S (asked a)) (requests a))) →
  Post (Loop.askPatch w prompt) a Q.
Proof. intros H r s' E. unfold Loop.askPatch in E. inversion E. apply H. Qed.

(** The dependency heuristic either records nothing, and [res] stays the
    result in hand, or it records one retry, which becomes [lastRun], the
    entry of the tool in [runIndex], and the result in hand. *)
Lemma heuristic_core i t args stdin res a :
  Post (Loop.heuristic w config i t args stdin res) a (λ r a',
    tools a' = tools a
    ∧ ((runs a' = runs a ∧ lastRun a' = lastRun a ∧ runIndex a' = runIndex a
        ∧ ∀ x, r = Ok x → x = (false, res))
       ∨ ∃ retry reason,
           runs a' = runs a ++ [RetryOf i (Some reason) retry]
           ∧ lastRun a' = Some retry
           ∧ runIndex a' = <[i := retry]> (runIndex a)
           ∧ r = Ok (bool_decide (code retry = Some 0), retry))).
Proof.
  unfold Loop.heuristic.
  destruct (Loop.networkAllowed config).
  2:{ apply post_ret. split; [done|]. left. repeat split; try done. congruence. }
  apply post_tryCatch.
  destruct (Js.matchQuoted _ _) as [pkg|].
  2:{ apply post_ret. split; [done|]. left. repeat split; try done. congruence. }
  wp; (split; [done|]).
  all: first [ by (right; eexists _, _)
             | left; repeat split; try done; intros x Hx; by simplify_eq ].
Qed.

(** The model-guided patch changes neither [lastRun] nor [runIndex]; it
    either records nothing or appends the retry to [runs]. *)
Lemma modelPatch_core i t args call res a :
  Post (Loop.modelPatch w config i t args call res) a (λ r a',
    tools a' = tools a ∧ lastRun a' = lastRun a ∧ runIndex a' = runIndex a
    ∧ (runs a' = runs a
       ∨ ∃ retry, r = Ok tt ∧ runs a' = runs a ++ [RetryOf i None retry])).
Proof.
  unfold Loop.modelPatch. apply post_bind. apply askPatch_post.
  intros [[files|]|e|]; wp; repeat split; try done; try (by left).
  right. by eexists.
Qed.

Lemma stepCall_after call a :
  Post (Loop.stepCall w config call) a (λ _ a', Spec.afterCall a a').
Proof.
  unfold Loop.stepCall. apply post_bind, post_gets. cbv beta iota.
  destruct (Js.readTool (tools a) _) as [t| |].
  2:{ apply post_throw. by left. }
  2:{ wp. right. left. by eexists. }
  apply post_bind. unfold Loop.preview.
  destruct (Loop.previewFails config _); [by apply post_throw; left|].
  apply post_ret.
  destruct (Loop.callId call) as [i|]; wp; try (by left).
  set (args := Loop.expand (lastRun a) (runIndex a) <$> default [] (c_args call)).
  match goal with |- Post _ ?s _ => set (a1 := s) end.
  assert (Spec.afterCall a a1) as Hfirst.
  { right. right. left. exists i, [], (Attempt i args a0), a0.
    subst a1. cbn. repeat split; try done. apply lookup_insert_eq. }
  destruct (bool_decide (code a0 = Some 0)); [by apply post_ret|].
  apply post_bind. eapply post_weaken; [apply heuristic_core|].
  intros r a2 (Ht & Hheur).
  assert (∃ front e res,
            runs a2 = runs a ++ front ++ [e]
            ∧ Spec.entryResult e = Some res
            ∧ (∀ j retry, e ≠ RetryOf j None retry)
            ∧ lastRun a2 = Some res ∧ runIndex a2 !! i = Some res) as Hlast.
  { destruct Hheur as [(Hr & Hl & Hi & _)|(retry & reason & Hr & Hl & Hi & _)].
    - exists [], (Attempt i args a0), a0. rewrite Hr, Hl, Hi. subst a1. cbn.
      repeat split; try done. apply lookup_insert_eq.
    - exists [Attempt i args a0], (RetryOf i (Some reason) retry), retry.
      rewrite Hr, Hl, Hi. subst a1. cbn. rewrite <- List.app_assoc.
      repeat split; try done. apply lookup_insert_eq. }
  destruct Hlast as (front & e & res & Hr & He & Hne & Hl & Hi).
  assert (Spec.afterCall a a2) as Hsecond.
  { right. right. left. by exists i, front, e, res. }
  destruct r as [fixed|?|]; [|done..].
  destruct (negb fixed.1 && _); [|by apply post_ret].
  eapply post_weaken; [apply modelPatch_core|].
  intros r' a3 (_ & Hl3 & Hi3 & [Hr3|(retry & _ & Hr3)]).
  - right. right. left. exists i, front, e, res. by rewrite Hr3, Hl3, Hi3.
  - right. right. right. exists i, front, e, res, retry.
    rewrite Hr3, Hl3, Hi3, Hr. rewrite <- !List.app_assoc. done.
Qed.

(** C9.  When a call ends with the retry of a model-guided patch, the
    retry is the last entry of [runs], while [lastRun] and the tool's entry
    in [runIndex] hold the result of the entry before it, the attempt that
    the patch was asked for; a later call that omits [stdin] is given the
    standard output of that attempt, not of the patched retry. *)
Theorem patch_retry_not_indexed (call : RunCall) (a a' : Agent) (r : res unit)
    (front : list RunEntry) (i : string) (retry : RunResult) :
  Loop.stepCall w config call a = (r, a') →
  runs a' = runs a ++ front ++ [RetryOf i None retry] →
  ∃ front' e res,
    front = front' ++ [e]
    ∧ Spec.entryResult e = Some res
    ∧ lastRun a' = Some res
    ∧ runIndex a' !! i = Some res
    ∧ ∀ next, c_stdin next = None → Loop.stdinOf a' next = JStr (stdout res).
Proof.
  intros Hstep Hruns.
  destruct (stepCall_after call a _ _ Hstep)
    as [(Hr & _)|[(j & Hr & _)|[(j & fr & e & res & Hr & He & Hne & _)
       |(j & fr & e & res & rt & Hr & He & Hne & Hl & Hi)]]];
    rewrite Hr in Hruns.
  - apply (f_equal length) in Hruns. rewrite !length_app in Hruns. cbn in Hruns. lia.
  - apply app_inv_head in Hruns.
    change [NotFound j] with ([] ++ [NotFound j]) in Hruns.
    apply app_inj_tail in Hruns as [_ ?]. discriminate.
  - apply app_inv_head, app_inj_tail in Hruns as [_ ->]. by destruct (Hne i retry).
  - apply app_inv_head in Hruns.
    change [e; RetryOf j None rt] with ([e] ++ [RetryOf j None rt]) in Hruns.
    rewrite List.app_assoc in Hruns.
    apply app_inj_tail in Hruns as [<- Heq]. inversion Heq; subst j rt.
    exists fr, e, res. repeat split; try done.
    intros next Hnext. unfold Loop.stdinOf, Loop.lastStdout.
    by rewrite Hnext, Hl.
Qed.
Lemma heuristic_requests i t args stdin res a :
  Post (Loop.heuristic w config i t args stdin res) a (λ _ a',
    requests a' = requests a
    ∨ ∃ rq, requests a' = requests a ++ [rq] ∧ rq_stdin rq = stdin).
Proof.
  unfold Loop.heuristic.
  destruct (Loop.networkAllowed config); [|by apply post_ret; left].
  apply post_tryCatch.
  destruct (Js.matchQuoted _ _) as [pkg|]; [|by apply post_ret; left].
  wp; first [by left | by right; eexists].
Qed.

Lemma modelPatch_requests i t args call res a :
  Post (Loop.modelPatch w config i t args call res) a (λ _ a',
    requests a' = requests a
    ∨ ∃ rq, requests a' = requests a ++ [rq]
            ∧ rq_stdin rq = orElse (c_stdin call) (JStr "")).
Proof.
  unfold Loop.modelPatch. apply post_bind. apply askPatch_post.
  intros [[files|]|e|]; wp; first [by left | by right; eexists].
Qed.



End RunChain.

Lemma patch_retry_not_indexed_witness :
  ∃ r a',
    Loop.stepCall ExampleLoop.patched ExampleLoop.config
      (ExampleLoop.withStdin "x") ExampleLoop.start = (r, a')
    ∧ runs a' = runs ExampleLoop.start
                ++ [Attempt "a" [] ExampleRuns.killed]
                ++ [RetryOf "a" None ExampleRuns.afterPatch]
    ∧ ∃ front' e res,
        [Attempt "a" [] ExampleRuns.killed] = front' ++ [e]
        ∧ Spec.entryResult e = Some res
        ∧ lastRun a' = Some res
        ∧ runIndex a' !! "a" = Some res
        ∧ ∀ next, c_stdin next = None → Loop.stdinOf a' next = JStr (stdout res).
Proof.
  eexists _, _. split; [vm_compute; reflexivity|].
  split; [vm_compute; reflexivity|].
  eapply (patch_retry_not_indexed ExampleLoop.patched ExampleLoop.config
            (ExampleLoop.withStdin "x") ExampleLoop.start).
  - vm_compute. reflexivity.
  - vm_compute. reflexivity.
Defined.




(** ** Paths *)

Section StrSplit.
Variable c : ascii.

Lemma split_nonempty s : Str.split c s ≠ [].
Proof.
  destruct s as [|a s]; cbn; [done|].
  destruct (Str.eqb_ascii a c); [done|]. by destruct (Str.split c s).
Qed.

Lemma split_app a b :
  Str.split c (a +:+ String c b) = Str.split c a ++ Str.split c b.
Proof.
  induction a as [|x a IH].
  - rewrite str_app_nil_l. cbn. by rewrite eqb_ascii_refl.
  - rewrite str_app_cons. cbn [Str.split]. rewrite IH.
    destruct (Str.eqb_ascii x c); [done|].
    pose proof (split_nonempty a). by destruct (Str.split c a).
Qed.

Lemma split_plain s : Str.hasChar c s = false → Str.split c s = [s].
Proof.
  induction s as [|a s IH]; [done|]. cbn. intros H.
  apply orb_false_iff in H as [Ha Hs]. rewrite Ha. by rewrite IH.
Qed.

Lemma split_no_sep s : Forall (λ x, Str.hasChar c x = false) (Str.split c s).
Proof.
  induction s as [|a s IH]; cbn; [by repeat constructor|].
  destruct (Str.eqb_ascii a c) eqn:E; [by constructor|].
  destruct (Str.split c s) as [|h t]; [repeat constructor; cbn; by rewrite E|].
  inversion IH; subst. constructor; [|done]. cbn. by rewrite E.
Qed.

Lemma join_cons2 x y l :
  Str.join (String c "") (x :: y :: l)
  = x +:+ String c (Str.join (String c "") (y :: l)).
Proof. reflexivity. Qed.

Lemma split_join l :
  l ≠ [] → Forall (λ x, Str.hasChar c x = false) l →
  Str.split c (Str.join (String c "") l) = l.
Proof.
  induction l as [|x [|y l] IH]; intros Hne Hl; [done|..].
  - cbn. apply split_plain. by inversion Hl.
  - rewrite join_cons2, split_app. inversion Hl; subst.
    rewrite split_plain by done. rewrite IH by done. done.
Qed.

Lemma endsWithChar_plain s : Str.hasChar c s = false → Str.endsWithChar c s = false.
Proof.
  induction s as [|a s IH]; [done|]. cbn. intros H.
  apply orb_false_iff in H as [Ha Hs]. destruct s; [done|]. by apply IH.
Qed.

Lemma endsWithChar_join l x :
  x ≠ "" → Str.hasChar c x = false →
  Str.endsWithChar c (Str.join (String c "") (l ++ [x])) = false.
Proof.
  intros Hx Hc. induction l as [|y l IH]; cbn [app].
  - by apply endsWithChar_plain.
  - destruct (l ++ [x]) as [|z l'] eqn:E; [by destruct l|].
    rewrite join_cons2.
    change (String c (Str.join (String c "") (z :: l')))
      with (String c "" +:+ Str.join (String c "") (z :: l')).
    rewrite <- str_app_assoc, endsWithChar_app; [done|].
    destruct l as [|? l]; cbn in E; simplify_eq; [by destruct z|].
    destruct (l ++ [x]) eqn:E'; [by destruct l|]. rewrite join_cons2.
    by destruct z.
Qed.
End StrSplit.

Section PathFacts.

#[local] Abbreviation noSlash := (λ x : string, Str.hasChar Path.slash x = false).

Lemma push_plain allow acc s :
  Spec.plainSegment s → Path.pushSegment allow acc s = s :: acc.
Proof.
  intros (H1 & H2 & H3 & _). unfold Path.pushSegment.
  by rewrite !bool_decide_false.
Qed.

Lemma fold_push_plain allow xs acc :
  Forall Spec.plainSegment xs →
  fold_left (Path.pushSegment allow) xs acc = rev xs ++ acc.
Proof.
  intros H. revert acc. induction H as [|x xs Hx _ IH]; intros acc; [done|].
  cbn [fold_left rev]. rewrite push_plain by done. rewrite IH.
  by rewrite <- List.app_assoc.
Qed.

Lemma shape_push allow acc s :
  Str.hasChar Path.slash s = false →
  Spec.Shape allow acc → Spec.Shape allow (Path.pushSegment allow acc s).
Proof.
  intros Hs (k & P & -> & HP & Hk). unfold Path.pushSegment.
  destruct (bool_decide (s = "") || bool_decide (s = ".")) eqn:E1.
  { by exists k, P. }
  apply orb_false_iff in E1 as [E1 E2].
  apply bool_decide_eq_false in E1, E2.
  case_bool_decide as E3.
  - destruct P as [|p P _] using rev_ind.
    + cbn [rev app]. destruct k as [|k].
      * cbn. destruct allow.
        -- by exists 1%nat, [].
        -- by exists 0%nat, [].
      * cbn [replicate]. rewrite bool_decide_true by done. destruct allow.
        -- by exists (S (S k)), [].
        -- by exists (S k), [].
    + rewrite rev_app_distr. cbn [rev app].
      apply Forall_app in HP as [HP Hp]. inversion Hp as [|? ? (_ & _ & Hp3 & _) _]; subst.
      rewrite bool_decide_false by done. by exists k, P.
  - exists k, (P ++ [s]). rewrite rev_app_distr. cbn [rev app].
    split; [done|]. split; [|done].
    apply Forall_app. split; [done|]. constructor; [by repeat split | constructor].
Qed.

Lemma shape_fold allow segs acc :
  Forall noSlash segs → Spec.Shape allow acc →
  Spec.Shape allow (fold_left (Path.pushSegment allow) segs acc).
Proof.
  intros H. revert acc. induction H as [|x xs Hx _ IH]; intros acc Hacc; [done|].
  cbn [fold_left]. apply IH. by apply shape_push.
Qed.

Lemma fold_push_dots k j :
  fold_left (Path.pushSegment true) (replicate k "..") (replicate j "..")
  = replicate (k + j) "..".
Proof.
  revert j. induction k as [|k IH]; intros j; [done|].
  cbn [replicate fold_left].
  assert (Path.pushSegment true (replicate j "..") ".." = replicate (S j) "..") as ->.
  { unfold Path.pushSegment.
    rewrite (bool_decide_false (".." = "")), (bool_decide_false (".." = "."))
      by done.
    cbn [orb]. rewrite (bool_decide_true (".." = "..")) by done.
    destruct j; [done|]. cbn [replicate]. by rewrite bool_decide_true. }
  rewrite IH. f_equal. lia.
Qed.

Lemma normal_shape b :
  ∃ k P, Spec.normal b = replicate k ".." ++ P
         ∧ Forall Spec.plainSegment P
         ∧ (Path.isAbsolute b = true → k = 0%nat).
Proof.
  unfold Spec.normal, Path.normalizeSegments.
  destruct (shape_fold (negb (Path.isAbsolute b)) (Str.split Path.slash b) [])
    as (k & P & -> & HP & Hk).
  - apply split_no_sep.
  - by exists 0%nat, [].
  - exists k, P. rewrite rev_app_distr, rev_involutive.
    assert (rev (replicate k "..") = replicate k "..") as ->.
    { clear. induction k; [done|]. cbn [replicate rev]. rewrite IHk.
      clear. induction k; [done|]. cbn. by rewrite <- IHk. }
    split; [done|]. split; [done|]. intros H. apply Hk. by rewrite H.
Qed.

(** Normalizing again what is already normal, with plain segments after
    it, changes nothing. *)
Lemma normalize_again allow pre k P xs :
  (pre = [] ∨ pre = [""]) →
  (allow = false → k = 0%nat) →
  Forall Spec.plainSegment P → Forall Spec.plainSegment xs →
  Path.normalizeSegments allow (pre ++ (replicate k ".." ++ P) ++ xs)
  = (replicate k ".." ++ P) ++ xs.
Proof.
  intros Hpre Hk HP Hxs. unfold Path.normalizeSegments.
  rewrite !fold_left_app.
  assert (fold_left (Path.pushSegment allow) pre [] = []) as ->.
  { by destruct Hpre as [-> | ->]. }
  assert (fold_left (Path.pushSegment allow) (replicate k "..") []
          = replicate k "..") as ->.
  { destruct k as [|k]; [done|]. destruct allow; [|by specialize (Hk eq_refl)].
    etrans; [apply (fold_push_dots (S k) 0)|]. f_equal. lia. }
  rewrite !fold_push_plain by done.
  rewrite !rev_app_distr, !rev_involutive.
  assert (rev (replicate k "..") = replicate k "..") as ->.
  { clear. induction k; [done|]. cbn [replicate rev]. rewrite IHk.
    clear. induction k; [done|]. cbn. by rewrite <- IHk. }
  by rewrite <- List.app_assoc.
Qed.
End PathFacts.

Section JoinFacts.

Lemma filter_all {A} (P : A → Prop) `{∀ x, Decision (P x)} (l : list A) :
  Forall P l → filter P l = l.
Proof.
  induction 1 as [|x l Hx _ IH]; [done|].
  rewrite filter_cons_True by done. by rewrite IH.
Qed.

Lemma plain_not_empty xs : Forall Spec.plainSegment xs → Forall (λ a, a ≠ "") xs.
Proof. intros H. eapply Forall_impl; [exact H|]. by intros x (? & _). Qed.

Lemma plain_no_slash xs :
  Forall Spec.plainSegment xs → Forall (λ x, Str.hasChar Path.slash x = false) xs.
Proof. intros H. eapply Forall_impl; [exact H|]. by intros x (_ & _ & _ & ?). Qed.

Lemma isAbsolute_app b s : b ≠ "" → Path.isAbsolute (b +:+ s) = Path.isAbsolute b.
Proof. by destruct b. Qed.

Lemma isAbsolute_plain x : Str.hasChar Path.slash x = false → Path.isAbsolute x = false.
Proof.
  destruct x as [|c x]; [done|]. cbn. intros H.
  apply orb_false_iff in H as [H _]. rewrite andb_true_r.
  unfold Str.eqb_ascii in *. apply bool_decide_eq_false in H.
  apply bool_decide_eq_false. intros E. apply H. by rewrite <- E.
Qed.

Lemma join_last_nonempty l x :
  x ≠ "" → Str.join "/" (l ++ [x]) ≠ "".
Proof.
  intros Hx. induction l as [|y l IH]; [done|]. cbn [app].
  destruct (l ++ [x]) eqn:E; [by destruct l|].
  rewrite (join_cons2 Path.slash). by destruct y.
Qed.

Lemma isAbsolute_join x xs :
  Spec.plainSegment x → Path.isAbsolute (Str.join "/" (x :: xs)) = false.
Proof.
  intros (Hne & _ & _ & Hs). destruct xs as [|y xs].
  - by apply isAbsolute_plain.
  - rewrite (join_cons2 Path.slash), isAbsolute_app by done.
    by apply isAbsolute_plain.
Qed.

(** [path.join] of any path with plain segments after it. *)
Lemma join_plain b xs :
  xs ≠ [] → Forall Spec.plainSegment xs →
  Path.join (b :: xs)
  = Spec.pathText (Path.isAbsolute b) (Spec.normal b ++ xs).
Proof.
  intros Hne Hxs. unfold Path.join.
  destruct xs as [|x xs _] using rev_ind; [done|].
  set (ys := xs ++ [x]) in *.
  pose proof (plain_not_empty _ Hxs) as Hnonempty.
  pose proof (plain_no_slash _ Hxs) as Hnoslash.
  assert (Spec.plainSegment x) as Hx.
  { apply Forall_app in Hxs as [_ Hx]. by inversion Hx. }
  destruct Hx as (Hx1 & _ & _ & Hx2).
  assert (Str.join "/" (Spec.normal b ++ ys) ≠ "") as Hbody.
  { subst ys. rewrite List.app_assoc. apply join_last_nonempty. done. }
  destruct (decide (b = "")) as [->|Hb].
  - rewrite filter_cons_False by (by intros ?).
    rewrite filter_all by done.
    destruct ys as [|y ys'] eqn:Eys; [by destruct xs|].
    rewrite <- Eys in *. unfold Path.normalize.
    assert (Path.isAbsolute (Str.join "/" ys) = false) as Habs.
    { rewrite Eys. apply isAbsolute_join. rewrite Eys in Hxs. by inversion Hxs. }
    rewrite bool_decide_false.
    2:{ subst ys. apply join_last_nonempty. done. }
    rewrite Habs. cbn [negb].
    rewrite (split_join Path.slash) by (done || by rewrite Eys).
    assert (Path.normalizeSegments true ys = ys) as ->.
    { unfold Path.normalizeSegments. rewrite fold_push_plain by done.
      by rewrite app_nil_r, rev_involutive. }
    change (Spec.normal "") with (@nil string) in Hbody. cbn [app] in Hbody.
    rewrite bool_decide_false by done.
    subst ys. rewrite (endsWithChar_join Path.slash) by done.
    reflexivity.
  - rewrite filter_cons_True by done. rewrite filter_all by done.
    destruct ys as [|y ys'] eqn:Eys; [by destruct xs|].
    rewrite <- Eys in *.
    assert (Str.join "/" (b :: ys) = b +:+ String Path.slash (Str.join "/" ys)) as EJ.
    { rewrite Eys. reflexivity. }
    cbv beta iota. rewrite EJ. unfold Path.normalize.
    rewrite bool_decide_false by (by destruct b).
    rewrite isAbsolute_app by done.
    rewrite split_app, (split_join Path.slash) by (done || by rewrite Eys).
    assert (Path.normalizeSegments (negb (Path.isAbsolute b))
              (Str.split Path.slash b ++ ys) = Spec.normal b ++ ys) as ->.
    { unfold Spec.normal, Path.normalizeSegments.
      rewrite fold_left_app, fold_push_plain by done.
      by rewrite rev_app_distr, rev_involutive. }
    rewrite bool_decide_false by done.
    assert (Str.endsWithChar Path.slash
              (b +:+ String Path.slash (Str.join "/" ys)) = false) as ->.
    { change (String Path.slash (Str.join "/" ys))
        with ("/" +:+ Str.join "/" ys).
      rewrite <- str_app_assoc, endsWithChar_app.
      - subst ys. apply (endsWithChar_join Path.slash); done.
      - subst ys. apply join_last_nonempty. done. }
    unfold Spec.pathText. by destruct (Path.isAbsolute b).
Qed.
Lemma normal_kept b xs :
  Forall Spec.plainSegment xs → Forall Spec.keptSegment (Spec.normal b ++ xs).
Proof.
  intros Hxs. destruct (normal_shape b) as (k & P & -> & HP & _).
  rewrite !Forall_app. repeat split.
  - apply Forall_replicate. by repeat split.
  - eapply Forall_impl; [exact HP|]. by intros x (? & ? & _ & ?).
  - eapply Forall_impl; [exact Hxs|]. by intros x (? & ? & _ & ?).
Qed.

Lemma split_pathText abs l :
  l ≠ [] → Forall Spec.keptSegment l →
  Str.split Path.slash (Spec.pathText abs l)
  = (if abs then [""] else []) ++ l.
Proof.
  intros Hne Hl. unfold Spec.pathText.
  assert (Forall (λ x, Str.hasChar Path.slash x = false) l) as Hs.
  { eapply Forall_impl; [exact Hl|]. by intros x (_ & _ & ?). }
  destruct abs.
  - change ("/" +:+ Str.join "/" l) with ("" +:+ String Path.slash (Str.join "/" l)).
    rewrite split_app. by rewrite (split_join Path.slash).
  - rewrite str_app_nil_l. by rewrite (split_join Path.slash).
Qed.

Lemma isAbsolute_pathText abs l :
  l ≠ [] → Forall Spec.keptSegment l →
  Path.isAbsolute (Spec.pathText abs l) = abs.
Proof.
  intros Hne Hl. unfold Spec.pathText. destruct abs; [done|].
  rewrite str_app_nil_l. destruct l as [|x l]; [done|].
  inversion Hl as [|? ? (Hx1 & _ & Hx2) _]; subst.
  destruct l as [|y l].
  - by apply isAbsolute_plain.
  - rewrite (join_cons2 Path.slash), isAbsolute_app by done.
    by apply isAbsolute_plain.
Qed.

Lemma locate_pathText abs l :
  l ≠ [] → Forall Spec.keptSegment l →
  Fs.locate (Spec.pathText abs l) = (if abs then [""] else []) ++ l.
Proof.
  intros Hne Hl. unfold Fs.locate. rewrite split_pathText by done.
  assert (filter (λ s, s ≠ ".") l = l) as Hdot.
  { apply filter_all. eapply Forall_impl; [exact Hl|]. by intros x (_ & ? & _). }
  assert (filter (λ s, s ≠ "") l = l) as Hempty.
  { apply filter_all. eapply Forall_impl; [exact Hl|]. by intros x (? & _). }
  destruct abs; cbn [app].
  - rewrite filter_cons_True by done. rewrite Hdot. by rewrite Hempty.
  - rewrite Hdot. destruct l as [|x l]; [done|].
    inversion Hl as [|? ? (Hx1 & _) _]; subst.
    destruct x; [done|]. by rewrite Hempty.
Qed.

(** Where [path.join] of a path and plain segments leads. *)
Lemma locate_join b xs :
  xs ≠ [] → Forall Spec.plainSegment xs →
  Fs.locate (Path.join (b :: xs)) = Spec.place b ++ xs.
Proof.
  intros Hne Hxs. rewrite join_plain by done.
  rewrite locate_pathText.
  - unfold Spec.place. by rewrite <- List.app_assoc.
  - by destruct (Spec.normal b), xs.
  - by apply normal_kept.
Qed.

(** Joining in two steps is joining in one. *)
Lemma join_join b xs ys :
  xs ≠ [] → ys ≠ [] →
  Forall Spec.plainSegment xs → Forall Spec.plainSegment ys →
  Path.join (Path.join (b :: xs) :: ys) = Path.join (b :: xs ++ ys).
Proof.
  intros Hx Hy Hxs Hys.
  assert (Spec.normal b ++ xs ≠ []) as Hne by (by destruct (Spec.normal b), xs).
  pose proof (normal_kept b xs Hxs) as Hkept.
  rewrite (join_plain _ ys) by done.
  rewrite (join_plain b (xs ++ ys)).
  2:{ by destruct xs. }
  2:{ apply Forall_app. by split. }
  rewrite (join_plain b xs) by done.
  rewrite isAbsolute_pathText by done.
  f_equal. rewrite List.app_assoc. f_equal.
  unfold Spec.normal at 1. rewrite isAbsolute_pathText, split_pathText by done.
  destruct (normal_shape b) as (k & P & E & HP & Hk).
  rewrite E in *.
  apply normalize_again; try done.
  - destruct (Path.isAbsolute b); auto.
  - intros Ha. apply Hk. by destruct (Path.isAbsolute b).
Qed.
End JoinFacts.


(** ** The file system *)

Section FsFacts.

(** What [mkdir -p] changes: nothing but the levels of the path, which
    become directories; it never replaces a file. *)
Lemma mkdirs_inv (above todo : list string) (fs fs' : FS) (r : res unit) :
  Fs.mkdirs above todo fs = (r, fs') →
  ∀ loc, fs' !! loc = fs !! loc
         ∨ (fs' !! loc = Some Dir ∧ ∀ c, fs !! loc ≠ Some (File c)).
Proof.
  revert above fs. induction todo as [|n todo IH]; intros above fs H loc.
  - cbv in H. simplify_eq. by left.
  - cbn [Fs.mkdirs] in H.
    destruct (fs !! (above ++ [n])) as [[|c]|] eqn:E.
    + destruct (IH _ _ H loc) as [Hl|[Hl Hf]].
      * rewrite Hl. destruct (decide (above ++ [n] = loc)) as [<-|Hne].
        -- rewrite lookup_insert_eq. right. split; [done|]. intros c. by rewrite E.
        -- left. by rewrite lookup_insert_ne.
      * right. split; [done|]. intros c Hc.
        destruct (decide (above ++ [n] = loc)) as [<-|Hne]; [by rewrite E in Hc|].
        apply (Hf c). by rewrite lookup_insert_ne.
    + simplify_eq. by left.
    + destruct (IH _ _ H loc) as [Hl|[Hl Hf]].
      * rewrite Hl. destruct (decide (above ++ [n] = loc)) as [<-|Hne].
        -- rewrite lookup_insert_eq. right. split; [done|]. intros c. by rewrite E.
        -- left. by rewrite lookup_insert_ne.
      * right. split; [done|]. intros c Hc.
        destruct (decide (above ++ [n] = loc)) as [<-|Hne]; [by rewrite E in Hc|].
        apply (Hf c). by rewrite lookup_insert_ne.
Qed.

Lemma mkdirs_keeps_file (above todo : list string) (fs fs' : FS) (r : res unit) loc c :
  Fs.mkdirs above todo fs = (r, fs') →
  fs !! loc = Some (File c) → fs' !! loc = Some (File c).
Proof.
  intros H Hf. destruct (mkdirs_inv _ _ _ _ _ H loc) as [->|[_ Hn]]; [done|].
  by destruct (Hn c).
Qed.

Lemma mkdirs_keeps_entry (above todo : list string) (fs fs' : FS) (r : res unit) loc :
  Fs.mkdirs above todo fs = (r, fs') → is_Some (fs !! loc) → is_Some (fs' !! loc).
Proof.
  intros H Hf. destruct (mkdirs_inv _ _ _ _ _ H loc) as [->|[-> _]]; [done|eauto].
Qed.

Lemma mkdirs_no_new_file (above todo : list string) (fs fs' : FS) (r : res unit) loc c :
  Fs.mkdirs above todo fs = (r, fs') →
  fs' !! loc = Some (File c) → fs !! loc = Some (File c).
Proof.
  intros H Hf. destruct (mkdirs_inv _ _ _ _ _ H loc) as [<-|[Hd _]]; [done|].
  rewrite Hd in Hf. discriminate.
Qed.

(** After [mkdir -p] every level of the path is a directory. *)
Lemma mkdirs_ok_dirs (above todo : list string) (fs fs' : FS) pre suf :
  Fs.mkdirs above todo fs = (Ok tt, fs') →
  pre ≠ [] → todo = pre ++ suf → fs' !! (above ++ pre) = Some Dir.
Proof.
  revert above fs pre. induction todo as [|n todo IH]; intros above fs pre H Hne E.
  - by destruct pre.
  - destruct pre as [|p pre]; [done|]. cbn in E. simplify_eq.
    cbn [Fs.mkdirs] in H.
    assert (Fs.mkdirs (above ++ [p]) (pre ++ suf) (<[above ++ [p] := Dir]> fs)
            = (Ok tt, fs')) as H'.
    { destruct (fs !! (above ++ [p])) as [[|c]|]; [done|discriminate|done]. }
    destruct pre as [|q pre].
    + destruct (mkdirs_inv _ _ _ _ _ H' (above ++ [p])) as [->|[-> _]]; [|done].
      apply lookup_insert_eq.
    + change (above ++ p :: q :: pre) with (above ++ [p] ++ q :: pre).
      rewrite List.app_assoc. by eapply IH.
Qed.

(** [mkdir -p] of a path whose levels are directories changes nothing. *)
Lemma mkdirs_noop (above todo : list string) (fs : FS) :
  (∀ pre suf, pre ≠ [] → todo = pre ++ suf → fs !! (above ++ pre) = Some Dir) →
  Fs.mkdirs above todo fs = (Ok tt, fs).
Proof.
  revert above. induction todo as [|n todo IH]; intros above H; [done|].
  cbn [Fs.mkdirs]. rewrite (H [n] todo) by done.
  rewrite insert_id by (by apply (H [n] todo)).
  apply IH. intros pre suf Hne ->.
  rewrite <- List.app_assoc. by apply (H (n :: pre) suf).
Qed.

Lemma childName_child d n : Fs.childName d (d ++ [n]) = Some n.
Proof. induction d as [|a d IH]; [done|]. cbn. by rewrite bool_decide_true. Qed.

Lemma childName_inv d k n : Fs.childName d k = Some n → k = d ++ [n].
Proof.
  revert k. induction d as [|a d IH]; intros k H.
  - destruct k as [|x [|y k]]; cbn in H; by simplify_eq.
  - destruct k as [|x k]; [done|]. cbn in H. case_bool_decide; [|done].
    subst. cbn. f_equal. by apply IH.
Qed.

(** [readdir] lists exactly the names that have an entry under the
    directory. *)
Lemma readdir_names (p : string) (fs fs' : FS) (names : list string) (n : string) :
  Fs.readdir p fs = (Ok names, fs') →
  n ∈ names ↔ is_Some (fs !! (Fs.locate p ++ [n])).
Proof.
  unfold Fs.readdir. destruct (Str.hasNul p); [done|].
  destruct (Fs.isDir fs (Fs.locate p)); [|done].
  intros H. simplify_eq. rewrite list_elem_of_omap. split.
  - intros ([k v] & Hin & Hc). apply elem_of_map_to_list in Hin.
    apply childName_inv in Hc. cbn in Hc. subst k. eauto.
  - intros [v Hv]. exists (Fs.locate p ++ [n], v). split.
    + by apply elem_of_map_to_list.
    + apply childName_child.
Qed.
End FsFacts.

(** ** The manifest schema *)

Lemma parseInput_toJson i : parseInput (inputToJson i) = Ok i.
Proof. destruct i as [n t [b|]]; reflexivity. Qed.

Lemma parseOutput_toJson o : parseOutput (outputToJson o) = Ok o.
Proof. by destruct o. Qed.

Lemma array_toJson {A} (parse : json → res A) (toJson : A → json) (l : list A) :
  (∀ x, parse (toJson x) = Ok x) → Zod.array_ parse (toJson <$> l) = Ok l.
Proof.
  intros H. induction l as [|x l IH]; [done|].
  cbn [fmap list_fmap Zod.array_]. rewrite H. cbn. by rewrite IH.
Qed.

(** The object of a manifest parses back to it, unless one of its times is
    NaN. *)
Lemma parse_manifestToJson m :
  m_createdAt m ≠ NaN → m_updatedAt m ≠ NaN →
  ToolManifest_parse (manifestToJson m) = Ok m.
Proof.
  destruct m as [i n p l e ins outs u c up]. intros Hc Hup.
  cbn [m_createdAt m_updatedAt] in Hc, Hup.
  unfold ToolManifest_parse, manifestToJson.
  cbn [m_id m_name m_purpose m_language m_entry m_inputs m_outputs m_usage
       m_createdAt m_updatedAt].
  pose proof (array_toJson parseInput inputToJson ins parseInput_toJson) as Hins.
  pose proof (array_toJson parseOutput outputToJson outs parseOutput_toJson) as Houts.
  remember (inputToJson <$> ins) as vi. remember (outputToJson <$> outs) as vo.
  clear Heqvi Heqvo.
  change (Zod.object_ (JObj ?f)) with (Ok (JObj f) : res json).
  cbn [mbind res_bind].
  repeat match goal with
  | |- context [prop ?k (JObj ?f)] =>
      let v := eval vm_compute in (assoc k f) in
      change (prop k (JObj f)) with v
  end.
  cbn [Zod.string_ Zod.number_ Zod.array_default Zod.string_default
       mbind res_bind].
  rewrite Hins, Houts. cbn [mbind res_bind].
  destruct l, c, up; done.
Qed.

(** A manifest that the schema returns has no NaN in it. *)
Lemma parse_times j m :
  ToolManifest_parse j = Ok m → m_createdAt m ≠ NaN ∧ m_updatedAt m ≠ NaN.
Proof.
  unfold ToolManifest_parse. intros H.
  repeat match type of H with
  | (?x ≫= _) = Ok _ =>
      let E := fresh "E" in destruct x eqn:E; cbn [mbind res_bind] in H; [|done..]
  end.
  inversion H; subst. cbn.
  unfold Zod.number_ in *. split; intros ->; repeat case_match; done.
Qed.

(** What is read back of the written object of a manifest. *)
Lemma stored_inputs (l : list InputSpec) :
  map Json.stored (inputToJson <$> l) = inputToJson <$> l.
Proof.
  induction l as [|[n t [b|]] l IH]; [done|..]; cbn in *; by rewrite IH.
Qed.

Lemma stored_outputs (l : list OutputSpec) :
  map Json.stored (outputToJson <$> l) = outputToJson <$> l.
Proof. induction l as [|[n t] l IH]; [done|]. cbn in *. by rewrite IH. Qed.

Lemma stored_manifest m :
  Spec.finiteTimes m → Json.stored (manifestToJson m) = manifestToJson m.
Proof.
  destruct m as [i n p l e ins outs u c up]. intros [Hc Hu]. cbn in Hc, Hu.
  unfold manifestToJson. cbn [Json.stored map fst snd m_id m_name m_purpose
    m_language m_entry m_inputs m_outputs m_usage m_createdAt m_updatedAt].
  rewrite stored_inputs, stored_outputs. by destruct c, up.
Qed.

Lemma parse_stored m :
  Spec.finiteTimes m → ToolManifest_parse (Json.stored (manifestToJson m)) = Ok m.
Proof.
  intros H. rewrite stored_manifest by done.
  destruct H as [Hc Hu]. apply parse_manifestToJson; by intros E; rewrite E in *.
Qed.

Lemma parse_stored_infinite m :
  ¬ Spec.finiteTimes m →
  ToolManifest_parse (Json.stored (manifestToJson m)) = Throw ZodError.
Proof.
  destruct m as [i n p l e ins outs u c up]. unfold Spec.finiteTimes.
  cbn [m_createdAt m_updatedAt]. intros H.
  pose proof (array_toJson parseInput inputToJson ins parseInput_toJson) as Hins.
  pose proof (array_toJson parseOutput outputToJson outs parseOutput_toJson) as Houts.
  unfold manifestToJson. cbn [Json.stored map fst snd m_id m_name m_purpose
    m_language m_entry m_inputs m_outputs m_usage m_createdAt m_updatedAt].
  rewrite stored_inputs, stored_outputs.
  remember (inputToJson <$> ins) as vi. remember (outputToJson <$> outs) as vo.
  clear Heqvi Heqvo.
  destruct c as [qc|bc|], up as [qu|bu|]; [by destruct H|..];
    unfold ToolManifest_parse;
    change (Zod.object_ (JObj ?f)) with (Ok (JObj f) : res json);
    cbn [mbind res_bind];
    repeat match goal with
    | |- context [prop ?k (JObj ?f)] =>
        let v := eval vm_compute in (assoc k f) in
        change (prop k (JObj f)) with v
    end;
    cbn [Zod.string_ Zod.number_ Zod.array_default Zod.string_default
         mbind res_bind];
    rewrite Hins, Houts; cbn [mbind res_bind];
    by destruct l.
Qed.

(** ** The tool store: loading *)

Lemma plain_tools : Spec.plainSegment "tools".
Proof. by repeat split. Qed.

Lemma plain_manifest : Spec.plainSegment "manifest.json".
Proof. by repeat split. Qed.

Lemma listedName_plain d : Spec.listedName d → Spec.plainSegment d.
Proof.
  intros (H1 & H2 & H3 & _). repeat split; try done; intros ->; discriminate.
Qed.

Lemma directoryName_listed d : Spec.directoryName d → Spec.listedName d.
Proof. by intros (H1 & H2 & H3 & _ & H4). Qed.

Lemma directoryName_plain d : Spec.directoryName d → Spec.plainSegment d.
Proof. intros H. by apply listedName_plain, directoryName_listed. Qed.

Ltac plain_list :=
  repeat (apply Forall_cons_2;
          [first [apply plain_tools | apply plain_manifest
                 | by apply listedName_plain
                 | by apply directoryName_plain]|]);
  apply Forall_nil_2.

(** *** Paths and the NUL character *)

Lemma hasNul_app a b : Str.hasNul (a +:+ b) = Str.hasNul a || Str.hasNul b.
Proof. apply hasChar_app. Qed.

Lemma hasNul_join l : Str.hasNul (Str.join "/" l) = existsb Str.hasNul l.
Proof.
  induction l as [|x [|y l] IH]; [done|..].
  - cbn. by rewrite orb_false_r.
  - rewrite (join_cons2 Path.slash). unfold Path.slash.
    rewrite hasNul_app. unfold Str.hasNul at 2. cbn [Str.hasChar].
    fold (Str.hasNul (Str.join "/" (y :: l))). rewrite IH. done.
Qed.

Lemma hasNul_pathText abs l :
  Str.hasNul (Spec.pathText abs l) = existsb Str.hasNul l.
Proof.
  unfold Spec.pathText. rewrite hasNul_app, hasNul_join. by destruct abs.
Qed.

(** A path with plain segments after it holds a NUL character when one of
    the segments that [normalize] keeps of it does. *)
Lemma hasNul_join_plain b xs :
  xs ≠ [] → Forall Spec.plainSegment xs →
  Str.hasNul (Path.join (b :: xs))
  = existsb Str.hasNul (Spec.normal b) || existsb Str.hasNul xs.
Proof.
  intros Hne Hxs. rewrite join_plain by done.
  by rewrite hasNul_pathText, existsb_app.
Qed.

(** A path holds a NUL character exactly when one of the names on the way
    to its location does. *)
Lemma hasNul_split s : Str.hasNul s = existsb Str.hasNul (Str.split Path.slash s).
Proof.
  induction s as [|c s IH]; [done|]. cbn [Str.split].
  unfold Str.hasNul in *. cbn [Str.hasChar]. rewrite IH.
  destruct (Str.eqb_ascii c Path.slash) eqn:E.
  - apply eqb_ascii_true in E. subst c. done.
  - pose proof (split_nonempty Path.slash s) as Hs.
    destruct (Str.split Path.slash s) as [|h t]; [done|].
    cbn [existsb Str.hasChar]. by rewrite orb_assoc.
Qed.

Lemma existsb_filter_hasNul (P : string → Prop) `{∀ x, Decision (P x)}
    (l : list string) :
  (∀ x, ¬ P x → Str.hasNul x = false) →
  existsb Str.hasNul (filter P l) = existsb Str.hasNul l.
Proof.
  intros HP. induction l as [|x l IH]; [done|].
  destruct (decide (P x)) as [Hx|Hx].
  - rewrite filter_cons_True by done. cbn. by rewrite IH.
  - rewrite filter_cons_False by done. cbn. by rewrite IH, (HP x Hx).
Qed.

Lemma hasNul_locate p : Str.hasNul p = existsb Str.hasNul (Fs.locate p).
Proof.
  rewrite hasNul_split. unfold Fs.locate.
  rewrite <- (existsb_filter_hasNul (λ s, s ≠ ".") (Str.split Path.slash p)).
  2:{ intros x Hx. by destruct (decide (x = ".")) as [->|]. }
  destruct (filter _ (Str.split Path.slash p)) as [|x l]; [done|].
  assert (existsb Str.hasNul (x :: filter (λ s, s ≠ "") l)
          = existsb Str.hasNul (x :: l)) as Hrest.
  { cbn. f_equal. apply existsb_filter_hasNul.
    intros y Hy. by destruct (decide (y = "")) as [->|]. }
  destruct x as [|c x]; [exact (eq_sym Hrest)|].
  symmetry. apply (existsb_filter_hasNul (λ s, s ≠ "")).
  intros y Hy. by destruct (decide (y = "")) as [->|].
Qed.

Section ToolPaths.
Variable sandboxDir : string.

Lemma locate_toolsRoot :
  Fs.locate (Path.join [sandboxDir; "tools"]) = Spec.place sandboxDir ++ ["tools"].
Proof. apply locate_join; [done|plain_list]. Qed.

(** The paths of the tool store hold no NUL character when the path of
    [tools/] holds none and the name of the tool holds none. *)
Lemma hasNul_under_tools (xs : list string) :
  Forall Spec.plainSegment xs →
  Str.hasNul (Path.join [sandboxDir; "tools"]) = false →
  existsb Str.hasNul xs = false →
  Str.hasNul (Path.join (sandboxDir :: "tools" :: xs)) = false.
Proof.
  intros Hxs Hroot Hnul.
  rewrite hasNul_join_plain in Hroot; [|done|plain_list].
  apply orb_false_iff in Hroot as [Hb _].
  rewrite hasNul_join_plain; [|done|by apply Forall_cons_2; [apply plain_tools|]].
  rewrite Hb. cbn. by rewrite Hnul.
Qed.

Section OneTool.
Variable d : string.
Hypothesis Hd : Spec.listedName d.
Hypothesis Hroot : Str.hasNul (Path.join [sandboxDir; "tools"]) = false.

Lemma hasNul_manifest :
  Str.hasNul (Path.join [sandboxDir; "tools"; d; "manifest.json"]) = false.
Proof.
  apply hasNul_under_tools; [plain_list|done|].
  destruct Hd as (_ & _ & _ & Hn). cbn. by rewrite Hn.
Qed.

Lemma hasNul_toolDir :
  Str.hasNul (Path.join [sandboxDir; "tools"; d]) = false.
Proof.
  apply hasNul_under_tools; [plain_list|done|].
  destruct Hd as (_ & _ & _ & Hn). cbn. by rewrite Hn.
Qed.

Lemma locate_toolDir :
  Fs.locate (Path.join [sandboxDir; "tools"; d])
  = Spec.place sandboxDir ++ ["tools"; d].
Proof. apply locate_join; [done|plain_list]. Qed.

Lemma locate_manifest :
  Fs.locate (Path.join [sandboxDir; "tools"; d; "manifest.json"])
  = Spec.place sandboxDir ++ ["tools"; d; "manifest.json"].
Proof. apply locate_join; [done|plain_list]. Qed.

Lemma manifestPath_load :
  Path.join [Path.join [sandboxDir; "tools"]; d; "manifest.json"]
  = Path.join [sandboxDir; "tools"; d; "manifest.json"].
Proof.
  apply (join_join sandboxDir ["tools"] [d; "manifest.json"]); try done; plain_list.
Qed.

Lemma manifestPath_save :
  Path.join [Path.join [sandboxDir; "tools"; d]; "manifest.json"]
  = Path.join [sandboxDir; "tools"; d; "manifest.json"].
Proof.
  apply (join_join sandboxDir ["tools"; d] ["manifest.json"]); try done; plain_list.
Qed.

Lemma toolDir_load :
  Path.join [Path.join [sandboxDir; "tools"]; d]
  = Path.join [sandboxDir; "tools"; d].
Proof.
  apply (join_join sandboxDir ["tools"] [d]); try done; plain_list.
Qed.

Lemma manifest_no_trailing_slash :
  Str.endsWithChar Path.slash
    (Path.join [sandboxDir; "tools"; d; "manifest.json"]) = false.
Proof.
  rewrite join_plain; [|done|].
  2:{ plain_list. }
  unfold Spec.pathText.
  change (Spec.normal sandboxDir ++ ["tools"; d; "manifest.json"])
    with (Spec.normal sandboxDir ++ ["tools"; d] ++ ["manifest.json"]).
  rewrite List.app_assoc.
  rewrite endsWithChar_app.
  - by apply (endsWithChar_join Path.slash).
  - by apply join_last_nonempty.
Qed.

Variable JSON_parse : string → option json.

(** A turn of the loop of [loadTools] on a directory whose manifest
    parses puts the record under the name of the directory. *)
Lemma loadOne_hit (fs : FS) (out : gmap string ToolRecord) (c : Content) j m :
  fs !! (Spec.place sandboxDir ++ ["tools"; d; "manifest.json"]) = Some (File c) →
  Spec.contentJson JSON_parse c = Some j →
  ToolManifest_parse j = Ok m →
  Tools.loadOne JSON_parse (Path.join [sandboxDir; "tools"]) fs out d
  = <[d := mkTool m (Path.join [sandboxDir; "tools"; d])
                    (Path.join [sandboxDir; "tools"; d; "manifest.json"])]> out.
Proof.
  intros Hf Hc Hm. unfold Tools.loadOne.
  rewrite manifestPath_load, toolDir_load.
  unfold Fs.pathExists, gets.
  rewrite hasNul_manifest, manifest_no_trailing_slash.
  rewrite locate_manifest, Hf, orb_true_r.
  unfold mbind, M_bind, Fs.readJson.
  rewrite hasNul_manifest, locate_manifest, Hf.
  destruct c as [s|j']; cbn in Hc.
  - rewrite Hc. unfold liftRes. by rewrite Hm.
  - simplify_eq. unfold liftRes. by rewrite Hm.
Qed.
End OneTool.

Lemma loadOne_other (JSON_parse : string → option json) (root : string)
    (fs : FS) (out : gmap string ToolRecord) (d d' : string) :
  d' ≠ d → Tools.loadOne JSON_parse root fs out d' !! d = out !! d.
Proof.
  intros Hne. unfold Tools.loadOne. repeat case_match; try done.
  by rewrite lookup_insert_ne.
Qed.

Lemma loadOne_fold_keeps (JSON_parse : string → option json) (root : string)
    (fs : FS) (ids : list string) (out : gmap string ToolRecord)
    (d : string) (rec : ToolRecord) :
  (∀ out', Tools.loadOne JSON_parse root fs out' d = <[d := rec]> out') →
  out !! d = Some rec →
  fold_left (Tools.loadOne JSON_parse root fs) ids out !! d = Some rec.
Proof.
  intros Hhit. revert out. induction ids as [|x ids IH]; intros out Hout; [done|].
  cbn [fold_left]. apply IH. destruct (decide (x = d)) as [->|Hne].
  - rewrite Hhit. apply lookup_insert_eq.
  - by rewrite loadOne_other.
Qed.

Lemma loadOne_fold_hit (JSON_parse : string → option json) (root : string)
    (fs : FS) (ids : list string) (out : gmap string ToolRecord)
    (d : string) (rec : ToolRecord) :
  (∀ out', Tools.loadOne JSON_parse root fs out' d = <[d := rec]> out') →
  d ∈ ids →
  fold_left (Tools.loadOne JSON_parse root fs) ids out !! d = Some rec.
Proof.
  intros Hhit Hin. revert out. induction ids as [|x ids IH]; intros out.
  - by apply elem_of_nil in Hin.
  - cbn [fold_left]. destruct (decide (x = d)) as [->|Hne].
    + apply loadOne_fold_keeps; [done|]. rewrite Hhit. apply lookup_insert_eq.
    + apply IH. apply elem_of_cons in Hin as [->|Hin]; done.
Qed.

(** What [loadTools] returns for a directory of [tools/] that is not hidden
    and whose manifest parses. *)
Lemma loadTools_lookup (JSON_parse : string → option json) (fs fs' : FS)
    (out : gmap string ToolRecord) (d : string) c j m :
  Spec.listedName d →
  Tools.loadTools JSON_parse sandboxDir fs = (Ok out, fs') →
  is_Some (fs !! (Spec.place sandboxDir ++ ["tools"; d])) →
  fs !! (Spec.place sandboxDir ++ ["tools"; d; "manifest.json"]) = Some (File c) →
  Spec.contentJson JSON_parse c = Some j →
  ToolManifest_parse j = Ok m →
  out !! d = Some (mkTool m (Path.join [sandboxDir; "tools"; d])
                          (Path.join [sandboxDir; "tools"; d; "manifest.json"])).
Proof.
  intros Hd Hload Hdir Hf Hc Hm. unfold Tools.loadTools in Hload.
  apply bind_ok_inv in Hload as ([] & fs0 & Hmk & Hload).
  apply bind_ok_inv in Hload as (names & fs1 & Hls & Hload).
  assert (fs1 = fs0) as ->.
  { unfold Fs.readdir in Hls. by repeat (case_match; simplify_eq). }
  cbv [mbind M_bind gets mret M_ret] in Hload. simplify_eq.
  apply ensureDir_ok in Hmk as [Hnul Hmk].
  apply loadOne_fold_hit.
  - intros out'. eapply loadOne_hit; try done.
    by eapply mkdirs_keeps_file.
  - apply list_elem_of_filter. split; [by destruct Hd as (_ & _ & ? & _)|].
    apply (readdir_names _ _ _ _ _ Hls). rewrite locate_toolsRoot.
    rewrite <- List.app_assoc. by eapply mkdirs_keeps_entry.
Qed.
End ToolPaths.

(** ** The tool store: saving, loading and writing code *)

Section StoreFacts.

Lemma longer_ne {A} (l k : list A) : k ≠ [] → l ≠ l ++ k.
Proof.
  intros Hk E. apply (f_equal length) in E. rewrite length_app in E.
  destruct k; [done|]. cbn in E. lia.
Qed.

Lemma clear_insert (fs : FS) (above todo : list string) (v : Node) :
  Spec.clear (<[above := v]> fs) above todo = Spec.clear fs above todo.
Proof.
  assert (∀ (k : list string) (f : FS) (a : list string),
            Spec.clear (<[above := v]> f) (above ++ k) todo
            = Spec.clear f (above ++ k) todo) as H.
  { induction todo as [|n todo IH]; intros k f a; [done|].
    cbn [Spec.clear]. rewrite <- List.app_assoc.
    rewrite lookup_insert_ne by (apply longer_ne; by destruct k).
    f_equal.
    destruct (f !! (above ++ k ++ [n])) as [[|c]|]; try done; apply IH; done. }
  specialize (H [] fs above). by rewrite List.app_nil_r in H.
Qed.

Lemma clear_no_nul (fs : FS) (above todo : list string) :
  Spec.clear fs above todo = true → existsb Str.hasNul todo = false.
Proof.
  revert above fs. induction todo as [|n todo IH]; intros above fs H; [done|].
  cbn [Spec.clear existsb] in *. apply andb_true_iff in H as [Hn H].
  apply negb_true_iff in Hn. rewrite Hn. cbn [orb].
  destruct (fs !! (above ++ [n])) as [[|c]|]; [|done|]; by eapply IH.
Qed.

(** [mkdir -p] succeeds exactly when nothing is in the way. *)
Lemma mkdirs_total (above todo : list string) (fs : FS) :
  Spec.clear fs above todo = true → ∃ fs', Fs.mkdirs above todo fs = (Ok tt, fs').
Proof.
  revert above fs. induction todo as [|n todo IH]; intros above fs H; [by eexists|].
  cbn [Fs.mkdirs Spec.clear] in *. apply andb_true_iff in H as [_ H].
  destruct (fs !! (above ++ [n])) as [[|c]|]; [| done |];
    apply IH; by rewrite clear_insert.
Qed.

Lemma mkdirs_blocked (above todo : list string) (fs : FS) :
  existsb Str.hasNul todo = false →
  Spec.clear fs above todo = false →
  ∃ e fs', Fs.mkdirs above todo fs = (Throw e, fs').
Proof.
  revert above fs. induction todo as [|n todo IH]; intros above fs Hnul H; [done|].
  cbn [Fs.mkdirs Spec.clear existsb] in *.
  apply orb_false_iff in Hnul as [Hn Hnul]. rewrite Hn in H. cbn [negb andb] in H.
  destruct (fs !! (above ++ [n])) as [[|c]|]; [| by eexists _, _ |];
    apply IH; try done; by rewrite clear_insert.
Qed.

(** So does [ensureDir]. *)
Lemma ensureDir_total (p : string) (fs : FS) :
  Spec.clear fs [] (Fs.locate p) = true →
  Str.hasNul p = false ∧ ∃ fs', Fs.mkdirs [] (Fs.locate p) fs = (Ok tt, fs').
Proof.
  intros H. split; [|by apply mkdirs_total].
  rewrite hasNul_locate. by eapply clear_no_nul.
Qed.

Lemma ensureDir_blocked (p : string) (fs : FS) :
  Spec.clear fs [] (Fs.locate p) = false →
  ∃ e fs', Fs.ensureDir p fs = (Throw e, fs').
Proof.
  intros H. unfold Fs.ensureDir.
  destruct (Str.hasNul p) eqn:Hn; [by eexists _, _|].
  apply mkdirs_blocked; [|done]. by rewrite <- hasNul_locate.
Qed.

Lemma place_tools_nonempty (sb : string) (xs : list string) :
  Spec.place sb ++ "tools" :: xs ≠ [].
Proof. by destruct (Spec.place sb). Qed.

Variable JSON_parse : string → option json.
Variable sandboxDir : string.

(** [loadTools] returns whenever nothing but directories lies on the way
    to [tools/]. *)
Lemma loadTools_returns (fs : FS) :
  Spec.reachable fs (Fs.locate (Path.join [sandboxDir; "tools"])) →
  ∃ out fs', Tools.loadTools JSON_parse sandboxDir fs = (Ok out, fs').
Proof.
  intros Hclear. apply ensureDir_total in Hclear as [Hnul [fs0 Hmk]].
  unfold Tools.loadTools. unfold mbind at 1. unfold M_bind.
  rewrite ensureDir_plain by done.
  rewrite Hmk. unfold mbind at 1. unfold M_bind, Fs.readdir. rewrite Hnul.
  assert (Fs.isDir fs0 (Fs.locate (Path.join [sandboxDir; "tools"])) = true) as ->.
  { unfold Fs.isDir.
    pose proof (mkdirs_ok_dirs _ _ _ _
                  (Fs.locate (Path.join [sandboxDir; "tools"])) [] Hmk) as Hd.
    cbn [app] in Hd. rewrite Hd; [by rewrite orb_true_r| |by rewrite List.app_nil_r].
    rewrite locate_toolsRoot. apply place_tools_nonempty. }
  by eexists _, _.
Qed.

(** What a successful [saveTool] did. *)
Lemma saveTool_inv (raw : json) (fs fs1 : FS) (rec : ToolRecord) :
  Tools.saveTool sandboxDir raw fs = (Ok rec, fs1) →
  ∃ fs0,
    ToolManifest_parse raw = Ok (manifest rec)
    ∧ path rec = Path.join [sandboxDir; "tools"; m_id (manifest rec)]
    ∧ manifestPath rec = Path.join [path rec; "manifest.json"]
    ∧ Str.hasNul (path rec) = false
    ∧ Fs.mkdirs [] (Fs.locate (path rec)) fs = (Ok tt, fs0)
    ∧ fs1 = <[Fs.locate (manifestPath rec)
              := File (JsonDoc (Json.stored (manifestToJson (manifest rec))))]>
              fs0.
Proof.
  unfold Tools.saveTool. intros H.
  apply bind_ok_inv in H as (m & fs' & Hp & H).
  unfold liftRes in Hp. simplify_eq.
  apply bind_ok_inv in H as ([] & fs0 & Hmk & H).
  apply bind_ok_inv in H as ([] & fs2 & Hw & H).
  cbv [mret M_ret] in H. simplify_eq. cbn [manifest path manifestPath].
  apply ensureDir_ok in Hmk as [Hnul Hmk].
  apply write_ok in Hw. exists fs0. by destruct (ToolManifest_parse raw).
Qed.

(** [loadTools] leaves the file system as it is when the way to [tools/]
    is made of directories already. *)
Lemma loadTools_unchanged (fs : FS) :
  Str.hasNul (Path.join [sandboxDir; "tools"]) = false →
  (∀ pre suf, pre ≠ [] → Spec.place sandboxDir ++ ["tools"] = pre ++ suf →
              fs !! pre = Some Dir) →
  ∃ out, Tools.loadTools JSON_parse sandboxDir fs = (Ok out, fs).
Proof.
  intros Hnul Hdirs.
  unfold Tools.loadTools. unfold mbind at 1. unfold M_bind.
  rewrite ensureDir_plain by done.
  rewrite locate_toolsRoot. rewrite mkdirs_noop by done.
  unfold mbind at 1. unfold M_bind, Fs.readdir. rewrite Hnul, locate_toolsRoot.
  unfold Fs.isDir.
  rewrite (Hdirs (Spec.place sandboxDir ++ ["tools"]) []);
    [|apply place_tools_nonempty|by rewrite List.app_nil_r].
  rewrite orb_true_r. by eexists.
Qed.
End StoreFacts.

(** C10, as stated, fails: a hidden directory of [tools/] whose manifest
    parses against the schema is not returned under its name; [loadTools]
    returns the empty map. *)
Theorem loadTools_skips_hidden_directory :
  ExampleStore.hiddenDir !! Fs.locate (Path.join ["/sb"; "tools"; ".cache"])
    = Some Dir
  ∧ ExampleStore.hiddenDir
      !! Fs.locate (Path.join ["/sb"; "tools"; ".cache"; "manifest.json"])
    = Some (File (JsonDoc (manifestToJson (ExampleStore.manifestOf "cache"))))
  ∧ ToolManifest_parse (manifestToJson (ExampleStore.manifestOf "cache"))
    = Ok (ExampleStore.manifestOf "cache")
  ∧ (Tools.loadTools ExampleStore.noText "/sb" ExampleStore.hiddenDir).1 = Ok ∅.
Proof. repeat split; vm_compute; reflexivity. Qed.

(** C6, as stated, fails: the manifest with the id [.echo] is valid and
    [saveTool] succeeds on it, and yet [loadTools] then returns the empty
    map. *)
Theorem saved_hidden_tool_is_not_loaded :
  (Tools.saveTool "/sb" (manifestToJson (ExampleStore.manifestOf ".echo")) ∅).1
  = Ok (mkTool (ExampleStore.manifestOf ".echo") "/sb/tools/.echo"
          "/sb/tools/.echo/manifest.json")
  ∧ (Tools.loadTools ExampleStore.noText "/sb"
       (Tools.saveTool "/sb" (manifestToJson (ExampleStore.manifestOf ".echo")) ∅).2).1
    = Ok ∅.
Proof. split; vm_compute; reflexivity. Qed.

(** C1 fails in the code: [writeToolCode] rejects nothing.  A relative path
    with [..] segments is written where [path.join] puts it, here at
    [/evil], outside the tool directory [/sb/tools/t] and outside the
    sandbox; and an absolute path is not rejected either, it is written
    under the tool directory. *)
Theorem writeToolCode_rejects_nothing :
  (Tools.writeToolCode "/sb" "t" ExampleStore.climbing ∅).1 = Ok "/sb/tools/t"
  ∧ (Tools.writeToolCode "/sb" "t" ExampleStore.climbing ∅).2 !! [""; "evil"]
    = Some (File (Text "x"))
  ∧ Fs.locate "/sb/tools/t" = [""; "sb"; "tools"; "t"]
  ∧ (Tools.writeToolCode "/sb" "t" ExampleStore.rooted ∅).1 = Ok "/sb/tools/t"
  ∧ (Tools.writeToolCode "/sb" "t" ExampleStore.rooted ∅).2
      !! [""; "sb"; "tools"; "t"; "etc"; "passwd"]
    = Some (File (Text "x")).
Proof. repeat split; vm_compute; reflexivity. Qed.

(** * Further properties of the code *)

(** ** [src/core/tools.mjs]: the schema and the store *)

(** X1.  What is read back of a manifest that was written as JSON: the
    schema makes the same manifest of it when the two times of the manifest
    are finite numbers; when one of them is an infinity, which the schema
    accepts, it is written as [null] and the schema refuses what is read
    back. *)
Theorem manifest_written_parses_back (m : Manifest) :
  ToolManifest_parse (Json.stored (manifestToJson m))
  = if isFinite (m_createdAt m) && isFinite (m_updatedAt m)
    then Ok m else Throw ZodError.
Proof.
  destruct (isFinite (m_createdAt m) && isFinite (m_updatedAt m)) eqn:E.
  - apply parse_stored. by apply andb_true_iff in E.
  - apply parse_stored_infinite. intros [H1 H2]. by rewrite H1, H2 in E.
Qed.

Lemma zod_string_cases (v : option json) :
  (∃ s, Zod.string_ v = Ok s) ∨ Zod.string_ v = Throw ZodError.
Proof. destruct v as [[]|]; cbn; eauto. Qed.

(** X2.  A manifest whose [language] is a string other than [python] and
    [node] is refused with a validation error, whatever its other fields. *)
Theorem manifest_language_is_checked (j : json) (l : string) :
  prop "language" j = Some (JStr l) → l ≠ "python" → l ≠ "node" →
  ToolManifest_parse j = Throw ZodError.
Proof.
  intros Hl Hp Hn. unfold ToolManifest_parse.
  destruct j; try done. cbn [Zod.object_ mbind res_bind].
  destruct (zod_string_cases (prop "id" (JObj fields))) as [[? ->]| ->]; [|done].
  cbn [mbind res_bind].
  destruct (zod_string_cases (prop "name" (JObj fields))) as [[? ->]| ->]; [|done].
  cbn [mbind res_bind].
  destruct (zod_string_cases (prop "purpose" (JObj fields))) as [[? ->]| ->]; [|done].
  cbn [mbind res_bind].
  rewrite Hl. cbn [Zod.enum_language].
  rewrite !bool_decide_false by done. done.
Qed.

Lemma manifest_language_is_checked_witness :
  ToolManifest_parse
    (JObj [("id", JStr "t"); ("name", JStr "T"); ("purpose", JStr "p");
           ("language", JStr "ruby"); ("entry", JStr "main.rb");
           ("createdAt", JNum (ofZ 1)); ("updatedAt", JNum (ofZ 1))])
  = Throw ZodError.
Proof.
  apply (manifest_language_is_checked _ "ruby"); [reflexivity|discriminate..].
Defined.

(** X3.  [saveTool] validates before it touches the file system: on a
    manifest that the schema refuses it throws the validation error and the
    file system is as before. *)
Theorem saveTool_invalid_manifest_writes_nothing (sandboxDir : string)
    (raw : json) (fs : FS) (e : Error) :
  ToolManifest_parse raw = Throw e →
  Tools.saveTool sandboxDir raw fs = (Throw e, fs).
Proof.
  intros H. unfold Tools.saveTool, mbind, M_bind, liftRes. by rewrite H.
Qed.

Lemma saveTool_invalid_manifest_writes_nothing_witness :
  Tools.saveTool "/sb" (JObj [("id", JNum (ofZ 7))]) ExampleStore.renamed
  = (Throw ZodError, ExampleStore.renamed).
Proof.
  apply (saveTool_invalid_manifest_writes_nothing "/sb"
           (JObj [("id", JNum (ofZ 7))])).
  reflexivity.
Defined.

Lemma mkdirs_files (above todo : list string) (fs : FS) loc c :
  (Fs.mkdirs above todo fs).2 !! loc = Some (File c) ↔ fs !! loc = Some (File c).
Proof.
  destruct (Fs.mkdirs above todo fs) as [r fs'] eqn:E. cbn [snd]. split.
  - by eapply mkdirs_no_new_file.
  - by eapply mkdirs_keeps_file.
Qed.

Lemma ensureDir_files (p : string) (fs : FS) loc c :
  (Fs.ensureDir p fs).2 !! loc = Some (File c) ↔ fs !! loc = Some (File c).
Proof.
  unfold Fs.ensureDir. destruct (Str.hasNul p); [done|]. apply mkdirs_files.
Qed.

(** X4.  [saveTool] changes one file only: any other location holds a file
    after the call exactly when it held that file before (directories may
    have been made). *)
Theorem saveTool_touches_one_file (sandboxDir : string) (raw : json)
    (m : Manifest) (fs : FS) (loc : list string) (c : Content) :
  ToolManifest_parse raw = Ok m →
  loc ≠ Fs.locate (Path.join [Path.join [sandboxDir; "tools"; m_id m];
                              "manifest.json"]) →
  (Tools.saveTool sandboxDir raw fs).2 !! loc = Some (File c)
  ↔ fs !! loc = Some (File c).
Proof.
  intros Hp Hloc. unfold Tools.saveTool.
  unfold mbind at 1. unfold M_bind, liftRes. rewrite Hp.
  unfold mbind at 1. unfold M_bind.
  pose proof (ensureDir_files (Path.join [sandboxDir; "tools"; m_id m])
                fs loc c) as Hmk.
  destruct (Fs.ensureDir _ fs) as [[[]| |] fs0]; cbn [snd] in *; try done.
  unfold mbind, M_bind, Fs.writeJson, Fs.write.
  destruct (Str.hasNul _); [done|].
  destruct (_ || _); [done|].
  destruct (Fs.isDir fs0 (removelast _)); [|done].
  cbv [mret M_ret]. cbn [snd]. by rewrite lookup_insert_ne.
Qed.

Lemma saveTool_touches_one_file_witness :
  (Tools.saveTool "/sb" (manifestToJson (ExampleStore.manifestOf "echo"))
     ExampleStore.renamed).2
    !! [""; "sb"; "tools"; "a"; "manifest.json"]
  = Some (File (JsonDoc (manifestToJson (ExampleStore.manifestOf "b"))))
  ↔ ExampleStore.renamed !! [""; "sb"; "tools"; "a"; "manifest.json"]
    = Some (File (JsonDoc (manifestToJson (ExampleStore.manifestOf "b")))).
Proof.
  apply (saveTool_touches_one_file "/sb" _ (ExampleStore.manifestOf "echo")).
  - vm_compute. reflexivity.
  - vm_compute. discriminate.
Defined.

Section LoadFacts.
Variable JSON_parse : string → option json.
Variable sandboxDir : string.

Lemma loadOne_inv (fs : FS) (out : gmap string ToolRecord) (d d' : string)
    (rec : ToolRecord) :
  Tools.loadOne JSON_parse (Path.join [sandboxDir; "tools"]) fs out d' !! d
    = Some rec →
  out !! d = Some rec ∨ (d' = d ∧ Spec.fromManifest JSON_parse sandboxDir fs d rec).
Proof.
  unfold Tools.loadOne.
  destruct (Fs.pathExists _ fs) as [[[]| |] ?]; try (by left).
  unfold mbind, M_bind, Fs.readJson, liftRes.
  destruct (Str.hasNul _); [by left|].
  destruct (fs !! Fs.locate _) as [[|[s|j]]|] eqn:Ef; try (by left).
  - destruct (JSON_parse s) as [j|] eqn:Ej; [|by left].
    destruct (ToolManifest_parse j) as [m| |] eqn:Em; try (by left).
    destruct (decide (d' = d)) as [->|Hne];
      [|rewrite lookup_insert_ne by done; by left].
    rewrite lookup_insert_eq. intros [= <-]. right. split; [done|].
    repeat split; cbn; try done. by exists (Text s), j.
  - destruct (ToolManifest_parse j) as [m| |] eqn:Em; try (by left).
    destruct (decide (d' = d)) as [->|Hne];
      [|rewrite lookup_insert_ne by done; by left].
    rewrite lookup_insert_eq. intros [= <-]. right. split; [done|].
    repeat split; cbn; try done. by exists (JsonDoc j), j.
Qed.

Lemma loadOne_fold_inv (fs : FS) (ids : list string)
    (out : gmap string ToolRecord) (d : string) (rec : ToolRecord) :
  fold_left (Tools.loadOne JSON_parse (Path.join [sandboxDir; "tools"]) fs)
    ids out !! d = Some rec →
  out !! d = Some rec ∨ (d ∈ ids ∧ Spec.fromManifest JSON_parse sandboxDir fs d rec).
Proof.
  revert out. induction ids as [|x ids IH]; intros out H; [by left|].
  cbn [fold_left] in H. apply IH in H as [H|[Hin Hfrom]].
  - apply loadOne_inv in H as [H|[-> Hfrom]]; [by left|].
    right. split; [apply elem_of_cons; by left|done].
  - right. split; [apply elem_of_cons; by right|done].
Qed.

Lemma loadTools_inv (fs fs' : FS) (out : gmap string ToolRecord) :
  Tools.loadTools JSON_parse sandboxDir fs = (Ok out, fs') →
  ∃ names,
    Fs.mkdirs [] (Fs.locate (Path.join [sandboxDir; "tools"])) fs = (Ok tt, fs')
    ∧ Fs.readdir (Path.join [sandboxDir; "tools"]) fs' = (Ok names, fs')
    ∧ out = fold_left
              (Tools.loadOne JSON_parse (Path.join [sandboxDir; "tools"]) fs')
              (filter (λ d, Str.startsWith "." d = false) names) ∅.
Proof.
  intros Hload. unfold Tools.loadTools in Hload.
  apply bind_ok_inv in Hload as ([] & fs0 & Hmk & Hload).
  apply bind_ok_inv in Hload as (names & fs1 & Hls & Hload).
  assert (fs1 = fs0) as ->.
  { unfold Fs.readdir in Hls. by repeat (case_match; simplify_eq). }
  cbv [mbind M_bind gets mret M_ret] in Hload. simplify_eq.
  apply ensureDir_ok in Hmk as [_ Hmk]. by exists names.
Qed.

(** X5.  Every record of the catalog that [loadTools] returns comes from a
    manifest: its key is the name of an entry of [tools/] that does not
    begin with a dot, its paths are those of that entry, and its fields
    are what the schema makes of the [manifest.json] found there. *)
Theorem loadTools_sound (fs fs' : FS) (out : gmap string ToolRecord)
    (d : string) (rec : ToolRecord) :
  Tools.loadTools JSON_parse sandboxDir fs = (Ok out, fs') →
  out !! d = Some rec →
  Str.startsWith "." d = false
  ∧ is_Some (fs' !! (Fs.locate (Path.join [sandboxDir; "tools"]) ++ [d]))
  ∧ Spec.fromManifest JSON_parse sandboxDir fs' d rec.
Proof.
  intros Hload Hd.
  apply loadTools_inv in Hload as (names & _ & Hls & ->).
  apply loadOne_fold_inv in Hd as [Hd|[Hin Hfrom]]; [done|].
  apply list_elem_of_filter in Hin as [Hdot Hin].
  split; [done|]. split; [|done].
  by apply (readdir_names _ _ _ _ _ Hls).
Qed.

(** X6.  [loadTools] writes no file and removes none, whether it returns
    or throws: a location holds a file after the call exactly when it held
    that file before. *)
Theorem loadTools_keeps_files (fs : FS) (loc : list string) (c : Content) :
  (Tools.loadTools JSON_parse sandboxDir fs).2 !! loc = Some (File c)
  ↔ fs !! loc = Some (File c).
Proof.
  unfold Tools.loadTools. unfold mbind at 1. unfold M_bind.
  pose proof (ensureDir_files (Path.join [sandboxDir; "tools"]) fs loc c) as Hmk.
  destruct (Fs.ensureDir _ fs) as [[[]| |] fs0]; cbn [snd] in *; try done.
  unfold mbind at 1. unfold M_bind, Fs.readdir.
  destruct (Str.hasNul _); [done|].
  destruct (Fs.isDir fs0 _); cbn [snd]; done.
Qed.

(** X7.  [loadTools] returns a catalog when nothing is in the way to
    [tools/] (no file, and no name that holds a NUL character), bad
    manifests or not; and when something is, it throws (the error of
    [ensureDir]). *)
Theorem loadTools_returns_or_is_blocked (fs : FS) :
  if Spec.clear fs [] (Fs.locate (Path.join [sandboxDir; "tools"]))
  then ∃ out fs', Tools.loadTools JSON_parse sandboxDir fs = (Ok out, fs')
  else ∃ e fs', Tools.loadTools JSON_parse sandboxDir fs = (Throw e, fs').
Proof.
  destruct (Spec.clear _ _ _) eqn:E.
  - by apply loadTools_returns.
  - apply ensureDir_blocked in E as (e & fs' & E). exists e, fs'.
    unfold Tools.loadTools, mbind, M_bind. by rewrite E.
Qed.
End LoadFacts.

Lemma loadTools_sound_witness :
  Str.startsWith "." "a" = false
  ∧ is_Some ((Tools.loadTools ExampleStore.noText "/sb" ExampleStore.renamed).2
               !! (Fs.locate (Path.join ["/sb"; "tools"]) ++ ["a"]))
  ∧ Spec.fromManifest ExampleStore.noText "/sb"
      (Tools.loadTools ExampleStore.noText "/sb" ExampleStore.renamed).2 "a"
      (mkTool (ExampleStore.manifestOf "b") "/sb/tools/a"
         "/sb/tools/a/manifest.json").
Proof.
  apply (loadTools_sound ExampleStore.noText "/sb" ExampleStore.renamed _
           ExampleStore.loaded).
  - unfold ExampleStore.loaded.
    rewrite (surjective_pairing (Tools.loadTools _ _ _)) at 1. f_equal.
  - vm_compute. reflexivity.
Defined.

(** ** [src/core/sandbox.mjs]: the directories, the probe and the run *)

Section EnsureFacts.

Lemma dirsTo_mkdirs (todo : list string) (fs fs' : FS) :
  Fs.mkdirs [] todo fs = (Ok tt, fs') → Spec.dirsTo fs' todo.
Proof.
  intros H pre suf Hne E. by apply (mkdirs_ok_dirs [] todo fs fs' pre suf).
Qed.

Lemma dirsTo_kept (above todo loc : list string) (fs fs' : FS) (r : res unit) :
  Fs.mkdirs above todo fs = (r, fs') → Spec.dirsTo fs loc → Spec.dirsTo fs' loc.
Proof.
  intros H Hd pre suf Hne E.
  destruct (mkdirs_inv _ _ _ _ _ H pre) as [->|[-> _]]; [by eapply Hd|done].
Qed.

Lemma dirsTo_noop (loc : list string) (fs : FS) :
  Spec.dirsTo fs loc → Fs.mkdirs [] loc fs = (Ok tt, fs).
Proof. intros H. apply mkdirs_noop. intros pre suf Hne E. by eapply H. Qed.

Lemma dirsTo_isDir (loc : list string) (fs : FS) :
  Spec.dirsTo fs loc → Fs.isDir fs loc = true.
Proof.
  intros H. unfold Fs.isDir. destruct loc as [|x loc]; [done|].
  rewrite (H (x :: loc) []); [by rewrite orb_true_r|done|by rewrite List.app_nil_r].
Qed.

Variable sb : Sandbox.t.

Lemma ensure_no_nul (fs fs' : FS) :
  Sandbox.ensure sb fs = (Ok tt, fs') →
  Str.hasNul (Sandbox.sandboxDir sb) = false
  ∧ Str.hasNul (Sandbox.logsDir sb) = false
  ∧ Str.hasNul (Path.join [Sandbox.sandboxDir sb; "tools"]) = false
  ∧ Str.hasNul (Path.join [Sandbox.sandboxDir sb; "runs"]) = false.
Proof.
  unfold Sandbox.ensure. intros H.
  apply bind_ok_inv in H as ([] & fs1 & H1 & H).
  apply bind_ok_inv in H as ([] & fs2 & H2 & H).
  apply bind_ok_inv in H as ([] & fs3 & H3 & H4).
  apply ensureDir_ok in H1 as [? _]. apply ensureDir_ok in H2 as [? _].
  apply ensureDir_ok in H3 as [? _]. apply ensureDir_ok in H4 as [? _].
  done.
Qed.

Lemma ensure_inv (fs fs' : FS) :
  Sandbox.ensure sb fs = (Ok tt, fs') →
  Spec.dirsTo fs' (Fs.locate (Sandbox.sandboxDir sb))
  ∧ Spec.dirsTo fs' (Fs.locate (Sandbox.logsDir sb))
  ∧ Spec.dirsTo fs' (Fs.locate (Path.join [Sandbox.sandboxDir sb; "tools"]))
  ∧ Spec.dirsTo fs' (Fs.locate (Path.join [Sandbox.sandboxDir sb; "runs"])).
Proof.
  unfold Sandbox.ensure. intros H.
  apply bind_ok_inv in H as ([] & fs1 & H1 & H).
  apply bind_ok_inv in H as ([] & fs2 & H2 & H).
  apply bind_ok_inv in H as ([] & fs3 & H3 & H4).
  apply ensureDir_ok in H1 as [_ H1]. apply ensureDir_ok in H2 as [_ H2].
  apply ensureDir_ok in H3 as [_ H3]. apply ensureDir_ok in H4 as [_ H4].
  repeat split.
  - eapply dirsTo_kept; [exact H4|]. eapply dirsTo_kept; [exact H3|].
    eapply dirsTo_kept; [exact H2|]. by eapply dirsTo_mkdirs.
  - eapply dirsTo_kept; [exact H4|]. eapply dirsTo_kept; [exact H3|].
    by eapply dirsTo_mkdirs.
  - eapply dirsTo_kept; [exact H4|]. by eapply dirsTo_mkdirs.
  - by eapply dirsTo_mkdirs.
Qed.

(** X8.  After [ensure] has succeeded, the sandbox directory, the logs
    directory, [tools/] and [runs/] are directories. *)
Theorem ensure_makes_the_directories (fs fs' : FS) :
  Sandbox.ensure sb fs = (Ok tt, fs') →
  Fs.isDir fs' (Fs.locate (Sandbox.sandboxDir sb)) = true
  ∧ Fs.isDir fs' (Fs.locate (Sandbox.logsDir sb)) = true
  ∧ Fs.isDir fs' (Fs.locate (Path.join [Sandbox.sandboxDir sb; "tools"])) = true
  ∧ Fs.isDir fs' (Fs.locate (Path.join [Sandbox.sandboxDir sb; "runs"])) = true.
Proof.
  intros H. apply ensure_inv in H as (H1 & H2 & H3 & H4).
  repeat split; by apply dirsTo_isDir.
Qed.

(** X9.  [ensure] is idempotent: run again after it has succeeded, it
    succeeds and changes nothing. *)
Theorem ensure_twice (fs fs' : FS) :
  Sandbox.ensure sb fs = (Ok tt, fs') →
  Sandbox.ensure sb fs' = (Ok tt, fs').
Proof.
  intros H. pose proof (ensure_no_nul _ _ H) as (N1 & N2 & N3 & N4).
  apply ensure_inv in H as (H1 & H2 & H3 & H4).
  unfold Sandbox.ensure, Fs.ensureDir, mbind, M_bind.
  rewrite N1, N2, N3, N4. by rewrite !dirsTo_noop.
Qed.

(** X10.  [ensure] writes no file and removes none, whether it succeeds
    or not. *)
Theorem ensure_keeps_files (fs : FS) (loc : list string) (c : Content) :
  (Sandbox.ensure sb fs).2 !! loc = Some (File c) ↔ fs !! loc = Some (File c).
Proof.
  assert (∀ (m : M FS unit) (k : M FS unit) (f : FS),
            (∀ f0, (m f0).2 !! loc = Some (File c) ↔ f0 !! loc = Some (File c)) →
            (∀ f0, (k f0).2 !! loc = Some (File c) ↔ f0 !! loc = Some (File c)) →
            ((m ≫= λ _, k) f).2 !! loc = Some (File c) ↔ f !! loc = Some (File c))
    as Hbind.
  { intros m k f Hm Hk. unfold mbind, M_bind. specialize (Hm f).
    destruct (m f) as [[[]| |] f1]; cbn [snd] in *; try done.
    by rewrite Hk. }
  unfold Sandbox.ensure.
  repeat (apply Hbind; [intros; apply ensureDir_files|intros]).
  apply ensureDir_files.
Qed.
End EnsureFacts.

Lemma ensure_makes_the_directories_witness :
  Fs.isDir (Sandbox.ensure Example.offline ∅).2
    (Fs.locate (Sandbox.sandboxDir Example.offline)) = true
  ∧ Fs.isDir (Sandbox.ensure Example.offline ∅).2
      (Fs.locate (Sandbox.logsDir Example.offline)) = true
  ∧ Fs.isDir (Sandbox.ensure Example.offline ∅).2
      (Fs.locate (Path.join [Sandbox.sandboxDir Example.offline; "tools"])) = true
  ∧ Fs.isDir (Sandbox.ensure Example.offline ∅).2
      (Fs.locate (Path.join [Sandbox.sandboxDir Example.offline; "runs"])) = true.
Proof.
  apply (ensure_makes_the_directories Example.offline ∅).
  rewrite (surjective_pairing (Sandbox.ensure _ _)) at 1. f_equal.
Defined.

Lemma ensure_twice_witness :
  Sandbox.ensure Example.offline (Sandbox.ensure Example.offline ∅).2
  = (Ok tt, (Sandbox.ensure Example.offline ∅).2).
Proof.
  apply (ensure_twice Example.offline ∅).
  rewrite (surjective_pairing (Sandbox.ensure _ _)) at 1. f_equal.
Defined.

Section RunFacts.
Variable w : World.

Lemma hasDocker_char (p : Proc) :
  ∃ r,
    Sandbox.hasDocker w p
    = (r, mkProc (p_fs p) (p_seen p) (S (p_spawned p)) (p_ticks p))
    ∧ (∀ e, r ≠ Throw e)
    ∧ (r = Ok true ↔ dockerProbe w (p_spawned p) = Some (Exits 0))
    ∧ (r = Never ↔ dockerProbe w (p_spawned p) = None).
Proof.
  unfold Sandbox.hasDocker.
  destruct (dockerProbe w (p_spawned p)) as [[c|s|err]|];
    eexists; (split; [reflexivity|]); repeat split; try done.
  - intros [= H]. apply bool_decide_eq_true in H. by subst.
  - intros [= ->]. done.
Qed.

(** X11.  [hasDocker] spawns one child and never throws: it answers
    [true] exactly when the probe exits with code 0, [false] when it ends
    otherwise, and does not settle while the probe does not end; files and
    callbacks are not touched. *)
Theorem hasDocker_probe (p : Proc) :
  ∃ r,
    Sandbox.hasDocker w p
    = (r, mkProc (p_fs p) (p_seen p) (S (p_spawned p)) (p_ticks p))
    ∧ (∀ e, r ≠ Throw e)
    ∧ (r = Ok true ↔ dockerProbe w (p_spawned p) = Some (Exits 0))
    ∧ (r = Never ↔ dockerProbe w (p_spawned p) = None).
Proof. apply hasDocker_char. Qed.

Lemma preserves_spawned_dateNow : Preserves p_spawned (Sandbox.dateNow w).
Proof. intros s r s' H. by inversion H. Qed.

Lemma preserves_spawned_inFs {A} (m : M FS A) : Preserves p_spawned (inFs m).
Proof. by apply preserves_zoom. Qed.

Lemma preserves_spawned_layout sb rq : Preserves p_spawned (Sandbox.layout w sb rq).
Proof.
  unfold Sandbox.layout.
  repeat first
    [ apply preserves_bind; [|intros ?]
    | apply preserves_spawned_inFs
    | apply preserves_fmap
    | apply preserves_spawned_dateNow
    | apply preserves_ret
    | case_match ].
Qed.

(** X12.  When the preparation of a run fails -- a file stands where one
    of its directories should be -- [run] throws that error to its caller,
    and no child has been spawned and no callback called. *)
Theorem run_fails_before_spawning (sb : Sandbox.t) (rq : Request)
    (p p1 : Proc) (e : Error) :
  Sandbox.layout w sb rq p = (Throw e, p1) →
  Sandbox.run w sb rq p = (Throw e, p1)
  ∧ p_spawned p1 = p_spawned p ∧ p_seen p1 = p_seen p.
Proof.
  intros H. split; [|split].
  - unfold Sandbox.run, mbind, M_bind. by rewrite H.
  - by eapply preserves_spawned_layout.
  - by eapply preserves_seen_layout.
Qed.

Lemma spawn_counts sb sp logFile onStdout onStderr p r p' :
  Sandbox._spawnWithLogs w sb sp logFile onStdout onStderr p = (Ok r, p') →
  p_spawned p' = S (p_spawned p).
Proof. intros H. by apply spawn_inv in H as [_ ->]. Qed.

(** X13.  With the network disabled no installer runs: a run that
    resolves has spawned exactly two children, the probe for the container
    engine and the tool's process. *)
Theorem run_offline_spawns_two (sb : Sandbox.t) (rq : Request) (p p' : Proc)
    (r : RunResult) :
  network (Sandbox.limits sb) = false →
  Sandbox.run w sb rq p = (Ok r, p') →
  p_spawned p' = S (S (p_spawned p)).
Proof.
  intros Hnet H. unfold Sandbox.run in H.
  apply bind_ok_inv in H as (lay & p1 & Hlay & H).
  apply bind_ok_inv in H as (docker & p2 & Hd & H).
  apply preserves_spawned_layout in Hlay.
  destruct (hasDocker_char p1) as (r0 & Hd' & _). rewrite Hd in Hd'.
  injection Hd' as _ ->. cbn [p_spawned] in *. rewrite <- Hlay.
  destruct docker.
  - unfold Sandbox.runDocker in H. rewrite Hnet in H. cbn [andb] in H.
    unfold mbind, M_bind, mret, M_ret in H. cbv beta iota zeta in H.
    by apply spawn_counts in H.
  - unfold Sandbox.runLocal in H. rewrite Hnet in H. cbn [andb] in H.
    unfold mbind, M_bind, mret, M_ret in H. cbv beta iota zeta in H.
    by apply spawn_counts in H.
Qed.

Lemma handle_silent logFile evs c seen :
  (fold_left (Sandbox.onEvent false false logFile) evs (c, seen)).2 = seen.
Proof.
  revert c. induction evs as [|ev evs IH]; intros c; [done|].
  cbn [fold_left]. destruct ev as [[s|s]| | |]; cbn [Sandbox.onEvent]; apply IH.
Qed.

Lemma handle_all_silent logFile delay f seen :
  (Sandbox.handle false false logFile delay f seen).2 = seen.
Proof.
  unfold Sandbox.handle.
  pose proof (handle_silent logFile (events delay f) Sandbox.startCapture seen)
    as Hs.
  destruct (fold_left _ (events delay f) _) as [c seen'] eqn:E.
  cbn [fst snd] in *. subst seen'.
  destruct (Sandbox.killSent c); [apply handle_silent|done].
Qed.

Lemma preserves_seen_spawn_silent sb sp logFile :
  Preserves p_seen (Sandbox._spawnWithLogs w sb sp logFile false false).
Proof.
  intros p r p' H. unfold Sandbox._spawnWithLogs in H.
  destruct (Sandbox.refuses sp); [by simplify_eq|].
  pose proof (handle_all_silent logFile
                (timerDelay (timeoutMs (Sandbox.limits sb)))
                (fate w (p_spawned p) sp) (p_seen p)) as Hs.
  destruct (Sandbox.handle _ _ _ _ _ _) as [c seen]. cbn [snd] in Hs.
  subst seen.
  destruct (negb (truthy _)).
  { destruct (Sandbox.settled c); by simplify_eq. }
  destruct (negb (isStr _)); [by simplify_eq|].
  destruct (brokenPipe _) as [before|].
  { simplify_eq. cbn [p_seen]. apply handle_silent. }
  destruct (Sandbox.settled c); by simplify_eq.
Qed.

Lemma preserves_seen_hasDocker : Preserves p_seen (Sandbox.hasDocker w).
Proof.
  intros p r p' H. destruct (hasDocker_char p) as (r0 & H0 & _).
  rewrite H in H0. by injection H0 as _ ->.
Qed.

(** X14.  A run that is given no callbacks delivers nothing: whatever the
    children print and however the run ends, nothing is handed to a
    callback. *)
Theorem run_without_callbacks_is_silent (sb : Sandbox.t) (rq : Request)
    (p p' : Proc) (r : res RunResult) :
  rq_onStdout rq = false → rq_onStderr rq = false →
  Sandbox.run w sb rq p = (r, p') →
  p_seen p' = p_seen p.
Proof.
  intros Hout Herr H.
  cut (Preserves p_seen (Sandbox.run w sb rq)); [intros HP; by eapply HP|].
  clear H. unfold Sandbox.run.
  apply preserves_bind; [apply preserves_seen_layout|intros lay].
  apply preserves_bind; [apply preserves_seen_hasDocker|intros docker].
  assert (∀ sp, Preserves p_seen (Sandbox.spawnLogged w sb rq lay sp)) as Hsp.
  { intros sp. unfold Sandbox.spawnLogged. rewrite Hout, Herr.
    apply preserves_seen_spawn_silent. }
  destruct docker; unfold Sandbox.runDocker, Sandbox.runLocal; cbv zeta;
    repeat first
      [ apply preserves_bind; [|intros ?]
      | apply Hsp
      | apply preserves_ret
      | case_match ].
Qed.
End RunFacts.

Lemma run_fails_before_spawning_witness :
  Sandbox.run Example.hangs Example.offline Example.request Example.fileInTheWay
  = (Throw EEXIST, Example.fileInTheWay)
  ∧ p_spawned Example.fileInTheWay = p_spawned Example.fileInTheWay
  ∧ p_seen Example.fileInTheWay = p_seen Example.fileInTheWay.
Proof.
  apply (run_fails_before_spawning Example.hangs Example.offline Example.request
           Example.fileInTheWay Example.fileInTheWay EEXIST).
  vm_compute. reflexivity.
Defined.

Lemma run_offline_spawns_two_witness :
  p_spawned (Sandbox.run Example.hangs Example.offline Example.request
               Example.blank).2
  = S (S (p_spawned Example.blank)).
Proof.
  apply (run_offline_spawns_two Example.hangs Example.offline Example.request
           Example.blank _ (mkResult None "par" "" "/sb/runs/a-1/exec.log")).
  - reflexivity.
  - rewrite (surjective_pairing (Sandbox.run _ _ _ _)) at 1. f_equal.
Defined.

Lemma run_without_callbacks_is_silent_witness :
  p_seen (Sandbox.run Example.installs Example.online Example.quiet
            Example.withRequirements).2
  = p_seen Example.withRequirements.
Proof.
  apply (run_without_callbacks_is_silent Example.installs Example.online
           Example.quiet Example.withRequirements _
           (Sandbox.run Example.installs Example.online Example.quiet
              Example.withRequirements).1).
  - reflexivity.
  - reflexivity.
  - apply surjective_pairing.
Defined.

(** ** [src/core/agent.mjs]: the run chain *)

Section AskedFrame.
Variable w : World.
Variable config : Config.

Lemma preserves_asked_sandboxRun rq : Preserves asked (Loop.sandboxRun w config rq).
Proof. frame. Qed.

Lemma preserves_asked_recordRun i e r : Preserves asked (Loop.recordRun i e r).
Proof. unfold Loop.recordRun. by apply preserves_modify. Qed.

Lemma preserves_asked_heuristic i t args stdin res :
  Preserves asked (Loop.heuristic w config i t args stdin res).
Proof.
  unfold Loop.heuristic.
  destruct (Loop.networkAllowed config); [|apply preserves_ret].
  apply preserves_tryCatch; [|intros ?; apply preserves_ret].
  destruct (Js.matchQuoted _ _); [|apply preserves_ret].
  repeat first
    [ apply preserves_asked_sandboxRun
    | apply preserves_asked_recordRun
    | apply preserves_bind; [|intros ?]
    | apply preserves_ret
    | progress frame ].
Qed.

Lemma modelPatch_asked i t args call res a :
  Post (Loop.modelPatch w config i t args call res) a (λ _ a',
    asked a' = S (asked a)).
Proof.
  unfold Loop.modelPatch. apply post_bind. apply askPatch_post.
  intros [[files|]|e|]; wp; done.
Qed.

Lemma heuristic_offline i t args stdin res a :
  Loop.networkAllowed config = false →
  Loop.heuristic w config i t args stdin res a = (Ok (false, res), a).
Proof. intros H. unfold Loop.heuristic. by rewrite H. Qed.
End AskedFrame.

Section ChainFacts.
Variable w : World.
Variable config : Config.

Lemma stepCall_unknown (call : RunCall) (a : Agent) :
  Js.readTool (tools a) (Loop.keyOf (Loop.callId call)) = Js.Missing →
  Loop.stepCall w config call a
  = (Ok tt, mkAgent (proc a) (memory a) (tools a) (created a) (createdFiles a)
              (runs a ++ [NotFound (Loop.callId call)]) (runIndex a)
              (lastRun a) (asked a) (requests a)).
Proof.
  intros H. unfold Loop.stepCall, mbind, M_bind, gets. by rewrite H.
Qed.

(** X15.  A plan whose calls all name tools that the catalog does not
    hold -- [tools[id]] is falsy: the name was never assigned, and nothing
    truthy is inherited under it from a prototype, as it is for
    [constructor], [toString] or [__proto__] -- runs nothing: the loop
    returns, [runs] gains one note per call, in order, and the processes,
    the files, the model and [lastRun] and [runIndex] are not touched. *)
Theorem runChain_unknown_tools (calls : list RunCall) (a : Agent) :
  Forall (λ call, Js.readTool (tools a) (Loop.keyOf (Loop.callId call))
                  = Js.Missing) calls →
  Loop.runChain w config calls a
  = (Ok tt, mkAgent (proc a) (memory a) (tools a) (created a) (createdFiles a)
              (runs a ++ (NotFound ∘ Loop.callId <$> calls)) (runIndex a)
              (lastRun a) (asked a) (requests a)).
Proof.
  revert a. induction calls as [|call calls IH]; intros a H.
  - cbn. rewrite List.app_nil_r. by destruct a.
  - apply Forall_cons in H as [Hc H]. cbn [Loop.runChain].
    unfold mbind, M_bind. rewrite stepCall_unknown by done.
    rewrite IH by done. cbn. by rewrite <- List.app_assoc.
Qed.

(** X16.  A call of [plan.run] runs the sandbox at most three times: the
    first attempt, one dependency retry and one retry after a patch; and
    at most twice when the network is disabled in the configuration. *)
Theorem stepCall_runs_at_most_three (call : RunCall) (a a' : Agent)
    (r : res unit) :
  Loop.stepCall w config call a = (r, a') →
  ∃ more,
    requests a' = requests a ++ more
    ∧ (length more ≤ 3)%nat
    ∧ (Loop.networkAllowed config = false → (length more ≤ 2)%nat).
Proof.
  revert r a'.
  change (Post (Loop.stepCall w config call) a (λ _ a',
    ∃ more, requests a' = requests a ++ more ∧ (length more ≤ 3)%nat
            ∧ (Loop.networkAllowed config = false → (length more ≤ 2)%nat))).
  assert (∀ reqs : list Request, ∃ more,
            reqs = reqs ++ more ∧ (length more ≤ 3)%nat
            ∧ (Loop.networkAllowed config = false → (length more ≤ 2)%nat))
    as Hnone.
  { intros reqs. exists []. rewrite List.app_nil_r. cbn. repeat split; lia. }
  assert (∀ (reqs : list Request) rq, ∃ more,
            reqs ++ [rq] = reqs ++ more ∧ (length more ≤ 3)%nat
            ∧ (Loop.networkAllowed config = false → (length more ≤ 2)%nat))
    as Hone.
  { intros reqs rq. exists [rq]. cbn. repeat split; lia. }
  unfold Loop.stepCall. apply post_bind, post_gets. cbv beta iota.
  destruct (Js.readTool (tools a) _) as [t| |];
    [|apply post_throw; apply Hnone|wp; apply Hnone].
  apply post_bind. unfold Loop.preview.
  destruct (Loop.previewFails config _); [apply post_throw; apply Hnone|].
  apply post_ret.
  destruct (Loop.callId call) as [i|]; wp; try apply Hnone; try apply Hone.
  match goal with |- Post _ ?s _ => set (a1 := s) end.
  assert (requests a1 = requests a ++ [_]) as Hreq1 by reflexivity.
  destruct (bool_decide (code a0 = Some 0)); [apply post_ret; apply Hone|].
  apply post_bind.
  intros r a2 Hheur.
  assert ((requests a2 = requests a1
           ∨ ∃ rq, requests a2 = requests a1 ++ [rq])
          ∧ (Loop.networkAllowed config = false → requests a2 = requests a1))
    as [Hreq2 Hoff].
  { split.
    - destruct (heuristic_requests w config _ _ _ _ _ _ _ _ Hheur)
        as [?|(rq & ? & _)]; eauto.
    - intros Hnet. rewrite heuristic_offline in Hheur by done.
      by simplify_eq. }
  assert (∃ more, requests a2 = requests a ++ more ∧ (length more ≤ 2)%nat
                  ∧ (Loop.networkAllowed config = false → (length more ≤ 1)%nat))
    as (m2 & Hm2 & Hlen2 & Hoff2).
  { destruct Hreq2 as [E|(rq & E)].
    - eexists [_]. rewrite E, Hreq1. cbn. repeat split; lia.
    - eexists [_; rq]. rewrite E, Hreq1, <- List.app_assoc. cbn.
      split; [done|]. split; [lia|]. intros Hnet. specialize (Hoff Hnet).
      rewrite E in Hoff. apply (f_equal length) in Hoff.
      rewrite length_app in Hoff. cbn in Hoff. lia. }
  assert (∃ more, requests a2 = requests a ++ more ∧ (length more ≤ 3)%nat
                  ∧ (Loop.networkAllowed config = false → (length more ≤ 2)%nat))
    as Hkeep.
  { exists m2. split; [done|]. split; [lia|]. intros Hnet.
    specialize (Hoff2 Hnet). lia. }
  destruct r as [fixed|?|]; [|done..].
  destruct (negb fixed.1 && _); [|by apply post_ret].
  intros r3 a3 Hpatch.
  destruct (modelPatch_requests w config _ _ _ _ _ _ _ _ Hpatch)
    as [E|(rq & E & _)]; rewrite E; [done|].
  exists (m2 ++ [rq]). rewrite Hm2, <- List.app_assoc, length_app. cbn.
  split; [done|]. split; [lia|]. intros Hnet. specialize (Hoff2 Hnet). lia.
Qed.

(** X17.  In a call of [plan.run] the model is asked for a patch at most
    once, and only when the attempt that [lastRun] holds at the end did
    not exit with code 0. *)
Theorem stepCall_asks_model_once (call : RunCall) (a a' : Agent)
    (r : res unit) :
  Loop.stepCall w config call a = (r, a') →
  asked a' = asked a
  ∨ (asked a' = S (asked a)
     ∧ ∃ res, lastRun a' = Some res ∧ code res ≠ Some 0).
Proof.
  revert r a'.
  change (Post (Loop.stepCall w config call) a (λ _ a',
    asked a' = asked a
    ∨ (asked a' = S (asked a)
       ∧ ∃ res, lastRun a' = Some res ∧ code res ≠ Some 0))).
  unfold Loop.stepCall. apply post_bind, post_gets. cbv beta iota.
  destruct (Js.readTool (tools a) _) as [t| |];
    [|apply post_throw; by left|wp; by left].
  apply post_bind. unfold Loop.preview.
  destruct (Loop.previewFails config _); [apply post_throw; by left|].
  apply post_ret.
  destruct (Loop.callId call) as [i|]; wp; try (by left).
  match goal with |- Post _ ?s _ => set (a1 := s) end.
  destruct (bool_decide (code a0 = Some 0)); [apply post_ret; by left|].
  apply post_bind. intros r a2 Hheur.
  pose proof (preserves_asked_heuristic w config _ _ _ _ _ _ _ _ Hheur) as Hasked.
  destruct (heuristic_core w config _ _ _ _ _ _ _ _ Hheur) as [_ Hcore].
  destruct r as [[fixed res2]|?|]; [|by left..]. cbn [fst snd].
  assert (lastRun a2 = Some res2) as Hlast.
  { destruct Hcore as [(_ & Hl & _ & Hx)|(retry & reason & _ & Hl & _ & Hx)].
    - specialize (Hx _ eq_refl). simplify_eq. by rewrite Hl.
    - by simplify_eq. }
  destruct (negb fixed) eqn:Hf; cbn [andb]; [|apply post_ret; by left].
  case_bool_decide as Hcode; cbn [negb]; [apply post_ret; by left|].
  intros r3 a3 Hpatch.
  pose proof (modelPatch_asked w config _ _ _ _ _ _ _ _ Hpatch) as Ha3.
  destruct (modelPatch_core w config _ _ _ _ _ _ _ _ Hpatch) as (_ & Hl3 & _).
  right. split; [by rewrite Ha3, Hasked|].
  exists res2. by rewrite Hl3.
Qed.

Lemma afterCall_extends (a a' : Agent) :
  Spec.afterCall a a' → ∃ more, runs a' = runs a ++ more.
Proof.
  intros [(-> & _)|[(i & -> & _)|[(i & fr & e & res & -> & _)
                                |(i & fr & e & res & rt & -> & _)]]]; eauto.
  exists []. by rewrite List.app_nil_r.
Qed.

Lemma afterCall_recorded (a a' : Agent) :
  Spec.afterCall a a' → Spec.recorded a → Spec.recorded a'.
Proof.
  intros [(Hr & Hl & _)|[(i & Hr & Hl & _)|[(i & fr & e & res & Hr & He & _ & Hl & _)
            |(i & fr & e & res & rt & Hr & He & _ & Hl & _)]]] Hrec r0 H0.
  - rewrite Hl in H0. rewrite Hr. by apply Hrec.
  - rewrite Hl in H0. destruct (Hrec _ H0) as (e & Hin & He).
    exists e. split; [|done]. rewrite Hr. apply elem_of_app. by left.
  - rewrite Hl in H0. simplify_eq. exists e. split; [|done].
    rewrite Hr, !elem_of_app. right. right. apply elem_of_cons. by left.
  - rewrite Hl in H0. simplify_eq. exists e. split; [|done].
    rewrite Hr, !elem_of_app. right. right. apply elem_of_cons. by left.
Qed.

(** X18.  Over the whole loop on [plan.run], [runs] only grows, and
    [lastRun] stays the result of one of its entries: what the next call
    is piped is always the output of a recorded run. *)
Theorem runChain_invariant (calls : list RunCall) (a a' : Agent)
    (r : res unit) :
  Spec.recorded a →
  Loop.runChain w config calls a = (r, a') →
  (∃ more, runs a' = runs a ++ more) ∧ Spec.recorded a'.
Proof.
  revert a. induction calls as [|call calls IH]; intros a Hrec H.
  - cbv in H. simplify_eq. split; [|done]. exists []. by rewrite List.app_nil_r.
  - cbn [Loop.runChain] in H.
    destruct (bind_inv _ _ _ _ _ H) as [([] & a1 & H1 & H2)|[(e & H1 & _)|[H1 _]]].
    + pose proof (stepCall_after w config call a _ _ H1) as Hafter.
      destruct (IH a1 (afterCall_recorded _ _ Hafter Hrec) H2)
        as [(more2 & E2) Hrec2].
      split; [|done]. destruct (afterCall_extends _ _ Hafter) as (more1 & E1).
      exists (more1 ++ more2). by rewrite E2, E1, <- List.app_assoc.
    + pose proof (stepCall_after w config call a _ _ H1) as Hafter.
      split; [by apply afterCall_extends | exact (afterCall_recorded _ _ Hafter Hrec)].
    + pose proof (stepCall_after w config call a _ _ H1) as Hafter.
      split; [by apply afterCall_extends | exact (afterCall_recorded _ _ Hafter Hrec)].
Qed.
End ChainFacts.

Lemma runChain_unknown_tools_witness :
  Loop.runChain ExampleLoop.failing ExampleLoop.config
    [mkCall (Some "zz") None None None; mkCall None (Some "yy") None None]
    ExampleLoop.start
  = (Ok tt, mkAgent (proc ExampleLoop.start) (memory ExampleLoop.start)
              (tools ExampleLoop.start) (created ExampleLoop.start)
              (createdFiles ExampleLoop.start)
              (runs ExampleLoop.start
               ++ (NotFound ∘ Loop.callId
                   <$> [mkCall (Some "zz") None None None;
                        mkCall None (Some "yy") None None]))
              (runIndex ExampleLoop.start) (lastRun ExampleLoop.start)
              (asked ExampleLoop.start) (requests ExampleLoop.start)).
Proof.
  apply (runChain_unknown_tools ExampleLoop.failing ExampleLoop.config
           [mkCall (Some "zz") None None None; mkCall None (Some "yy") None None]
           ExampleLoop.start).
  repeat apply Forall_cons_2; [vm_compute; reflexivity..|apply Forall_nil_2].
Defined.

Lemma stepCall_runs_at_most_three_witness :
  ∃ more,
    requests (Loop.stepCall ExampleLoop.patched ExampleLoop.config
                (ExampleLoop.withStdin "x") ExampleLoop.start).2
    = requests ExampleLoop.start ++ more
    ∧ (length more ≤ 3)%nat
    ∧ (Loop.networkAllowed ExampleLoop.config = false → (length more ≤ 2)%nat).
Proof.
  apply (stepCall_runs_at_most_three ExampleLoop.patched ExampleLoop.config
           (ExampleLoop.withStdin "x") ExampleLoop.start _
           (Loop.stepCall ExampleLoop.patched ExampleLoop.config
              (ExampleLoop.withStdin "x") ExampleLoop.start).1).
  apply surjective_pairing.
Defined.

Lemma stepCall_asks_model_once_witness :
  asked (Loop.stepCall ExampleLoop.patched ExampleLoop.config
           (ExampleLoop.withStdin "x") ExampleLoop.start).2
  = asked ExampleLoop.start
  ∨ (asked (Loop.stepCall ExampleLoop.patched ExampleLoop.config
              (ExampleLoop.withStdin "x") ExampleLoop.start).2
     = S (asked ExampleLoop.start)
     ∧ ∃ res,
         lastRun (Loop.stepCall ExampleLoop.patched ExampleLoop.config
                    (ExampleLoop.withStdin "x") ExampleLoop.start).2 = Some res
         ∧ code res ≠ Some 0).
Proof.
  apply (stepCall_asks_model_once ExampleLoop.patched ExampleLoop.config
           (ExampleLoop.withStdin "x") ExampleLoop.start _
           (Loop.stepCall ExampleLoop.patched ExampleLoop.config
              (ExampleLoop.withStdin "x") ExampleLoop.start).1).
  apply surjective_pairing.
Defined.

Lemma runChain_invariant_witness :
  (∃ more,
     runs (Loop.runChain ExampleLoop.failing ExampleLoop.config
             [ExampleLoop.withStdin "x"; ExampleLoop.piped] ExampleLoop.start).2
     = runs ExampleLoop.start ++ more)
  ∧ Spec.recorded
      (Loop.runChain ExampleLoop.failing ExampleLoop.config
         [ExampleLoop.withStdin "x"; ExampleLoop.piped] ExampleLoop.start).2.
Proof.
  apply (runChain_invariant ExampleLoop.failing ExampleLoop.config
           [ExampleLoop.withStdin "x"; ExampleLoop.piped] ExampleLoop.start _
           (Loop.runChain ExampleLoop.failing ExampleLoop.config
              [ExampleLoop.withStdin "x"; ExampleLoop.piped] ExampleLoop.start).1).
  - intros r0 H0. discriminate.
  - apply surjective_pairing.
Defined.

(** ** [src/core/agent.mjs]: tool creation never fails the loop *)

Section SettlesRules.
Context {S : Type}.

Lemma settles_ret {A} (a : A) : Settles (mret a : M S A).
Proof. by intros s. Qed.

Lemma settles_throw {A} e : Settles (throw e : M S A).
Proof. by intros s. Qed.

Lemma settles_liftRes {A} (x : res A) : x ≠ Never → Settles (liftRes x : M S A).
Proof. by intros H s. Qed.

Lemma settles_modify (g : S → S) : Settles (modify g).
Proof. by intros s. Qed.

Lemma settles_bind {A B} (m : M S A) (k : A → M S B) :
  Settles m → (∀ a, Settles (k a)) → Settles (m ≫= k).
Proof.
  intros Hm Hk s. unfold mbind, M_bind. specialize (Hm s).
  destruct (m s) as [[a|e|] s1]; cbn in *; [apply Hk|done|done].
Qed.

Lemma settles_zoom {T A} (get : S → T) (set : T → S → S) (m : M T A) :
  Settles m → Settles (zoom get set m).
Proof.
  intros Hm s. unfold zoom. specialize (Hm (get s)).
  by destruct (m (get s)) as [r t].
Qed.

Lemma returns_tryCatch {A} (m : M S A) (h : Error → M S A) :
  Settles m → (∀ e, Returns (h e)) → Returns (tryCatch m h).
Proof.
  intros Hm Hh s. unfold tryCatch. specialize (Hm s).
  destruct (m s) as [[a|e|] s1]; cbn in *; [eauto|apply Hh|done].
Qed.
End SettlesRules.

Lemma res_bind_settles {A B} (x : res A) (k : A → res B) :
  x ≠ Never → (∀ a, k a ≠ Never) → x ≫= k ≠ Never.
Proof. intros Hx Hk. destruct x; cbn; [apply Hk|done|done]. Qed.

Lemma zod_array_settles {A} (item : json → res A) (l : list json) :
  (∀ j, item j ≠ Never) → Zod.array_ item l ≠ Never.
Proof.
  intros Hi. induction l as [|j l IH]; [done|]. cbn [Zod.array_].
  apply res_bind_settles; [done|intros a].
  apply res_bind_settles; [done|done].
Qed.

Lemma zod_settles :
  (∀ j, Zod.object_ j ≠ Never)
  ∧ (∀ v, Zod.string_ v ≠ Never)
  ∧ (∀ v, Zod.number_ v ≠ Never)
  ∧ (∀ v, Zod.boolean_optional v ≠ Never)
  ∧ (∀ v, Zod.enum_language v ≠ Never)
  ∧ (∀ d v, Zod.string_default d v ≠ Never).
Proof.
  repeat split; intros;
    unfold Zod.object_, Zod.string_default, Zod.string_, Zod.number_,
      Zod.boolean_optional, Zod.enum_language;
    repeat case_match; done.
Qed.

Ltac zod_settle :=
  destruct zod_settles as (? & ? & ? & ? & ? & ?);
  repeat (apply res_bind_settles; [|intros ?]); try done.

Lemma parseInput_settles (j : json) : parseInput j ≠ Never.
Proof. unfold parseInput. zod_settle. Qed.

Lemma parseOutput_settles (j : json) : parseOutput j ≠ Never.
Proof. unfold parseOutput. zod_settle. Qed.

Lemma zod_array_default_settles {A} (item : json → res A) (v : option json) :
  (∀ j, item j ≠ Never) → Zod.array_default item v ≠ Never.
Proof.
  intros Hi. unfold Zod.array_default. repeat case_match; try done.
  by apply zod_array_settles.
Qed.

Lemma parse_settles (j : json) : ToolManifest_parse j ≠ Never.
Proof.
  unfold ToolManifest_parse. zod_settle.
  - apply zod_array_default_settles, parseInput_settles.
  - apply zod_array_default_settles, parseOutput_settles.
Qed.

Lemma mkdirs_settles (above todo : list string) : Settles (Fs.mkdirs above todo).
Proof.
  revert above. induction todo as [|n todo IH]; intros above fs; [done|].
  cbn [Fs.mkdirs]. destruct (fs !! (above ++ [n])) as [[|c]|]; try done; apply IH.
Qed.

Lemma ensureDir_settles (p : string) : Settles (Fs.ensureDir p).
Proof.
  unfold Fs.ensureDir. destruct (Str.hasNul p); [done|apply mkdirs_settles].
Qed.

Lemma write_settles (p : string) (c : Content) : Settles (Fs.write p c).
Proof. intros fs. unfold Fs.write. by repeat case_match. Qed.

Lemma writeFiles_settles (dir : string) (files : list (string * json)) :
  Settles (Tools.writeFiles dir files).
Proof.
  induction files as [|[rel content] files IH]; [apply settles_ret|].
  cbn [Tools.writeFiles].
  apply settles_bind; [apply ensureDir_settles|intros _].
  apply settles_bind; [|intros _; apply IH].
  destruct content; first [apply settles_throw | apply write_settles].
Qed.

Lemma writeToolCode_settles (sb id : string) (files : list (string * json)) :
  Settles (Tools.writeToolCode sb id files).
Proof.
  unfold Tools.writeToolCode.
  apply settles_bind; [apply ensureDir_settles|intros _].
  apply settles_bind; [apply writeFiles_settles|intros _]. apply settles_ret.
Qed.

Lemma saveTool_settles (sb : string) (raw : json) : Settles (Tools.saveTool sb raw).
Proof.
  unfold Tools.saveTool.
  apply settles_bind; [apply settles_liftRes, parse_settles|intros m].
  apply settles_bind; [apply ensureDir_settles|intros _].
  apply settles_bind; [apply write_settles|intros _]. apply settles_ret.
Qed.

Section CreateToolFacts.
Variable w : World.
Variable config : Config.

Lemma dateNow_settles : Settles (Loop.dateNow w).
Proof. by intros a. Qed.

Lemma dateNow_returns : Returns (Loop.dateNow w).
Proof. intros a. by eexists _, _. Qed.

Ltac settle :=
  repeat first
    [ apply settles_ret
    | apply settles_throw
    | apply settles_modify
    | apply dateNow_settles
    | apply settles_zoom
    | apply writeToolCode_settles
    | apply saveTool_settles
    | apply settles_bind; [|intros ?]
    | progress unfold Loop.asString, Loop.setTools, inProc, inFs
    | match goal with
      | |- Settles (match ?x with _ => _ end) => destruct x
      | |- Settles (if ?x then _ else _) => destruct x
      end ].

Lemma createTool_returns (t : json) (a : Agent) :
  ∃ a',
    Loop.createTool w config t a = (Ok tt, a')
    ∧ (history (memory a') = history (memory a)
       ∨ ∃ e n,
           history (memory a')
           = history (memory a)
             ++ [mkTurn assistant ("Failed to create tool: " +:+ message w e)
                   (Some n)]
           ∧ tools a' = tools a ∧ created a' = created a).
Proof.
  unfold Loop.createTool, tryCatch.
  match goal with |- context [match ?b a with _ => _ end] => set (body := b) end.
  assert (Settles body) as Hsettles by (subst body; settle).
  assert (Preserves (λ x, history (memory x)) body) as Hhist
    by (subst body; frame).
  assert (PreservesOnFailure created body) as Hcreated.
  { subst body.
    repeat (apply preserves_on_failure_bind; [frame|intros ?]).
    unfold Loop.setTools. apply preserves_on_failure_modify. }
  assert (PreservesOnFailure tools body) as Htools.
  { subst body.
    repeat (apply preserves_on_failure_bind; [frame|intros ?]).
    unfold Loop.setTools. apply preserves_on_failure_modify. }
  specialize (Hsettles a).
  destruct (body a) as [[[]|e|] ab] eqn:Hb; [| |done].
  - exists ab. split; [done|]. left. by eapply Hhist.
  - eexists. split; [reflexivity|]. right.
    exists e, (now w (p_ticks (proc ab))). cbn.
    rewrite (Hhist _ _ _ Hb), (Hcreated _ _ _ Hb), (Htools _ _ _ Hb) by done.
    done.
Qed.

(** X19.  A turn of the loop over [plan.createTools] never throws and
    always settles: whatever goes wrong while the tool is written or its
    manifest validated is caught.  Either the history is as before, or
    the turn failed: then [tools] and [created] are as before and the
    history has one more assistant turn, the failure note. *)
Theorem createTool_never_throws (t : json) (a : Agent) :
  ∃ a',
    Loop.createTool w config t a = (Ok tt, a')
    ∧ (history (memory a') = history (memory a)
       ∨ ∃ e n,
           history (memory a')
           = history (memory a)
             ++ [mkTurn assistant ("Failed to create tool: " +:+ message w e)
                   (Some n)]
           ∧ tools a' = tools a ∧ created a' = created a).
Proof. apply createTool_returns. Qed.
End CreateToolFacts.

(** ** [src/core/agent.mjs]: the name of a missing module *)

Lemma span_chars (stop : ascii → bool) (s a b : string) :
  Js.span stop s = (a, b) →
  Spec.allChars (λ c, negb (stop c)) a = true
  ∧ match b with String c _ => stop c = true | EmptyString => True end.
Proof.
  revert a b. induction s as [|c s IH]; intros a b H; cbn in H.
  - by simplify_eq.
  - destruct (stop c) eqn:E; [by simplify_eq|].
    destruct (Js.span stop s) as [a' b'] eqn:E'. simplify_eq.
    destruct (IH _ _ eq_refl) as [Ha Hb]. cbn. by rewrite E, Ha.
Qed.

Lemma quotedHere_inv (prefix s g : string) :
  Js.quotedHere prefix s = Some g →
  g ≠ "" ∧ Spec.allChars (λ c, negb (Js.isQuote c)) g = true
  ∧ ∃ q1 q2 after,
      s = prefix +:+ String q1 (g +:+ String q2 after)
      ∧ Js.isQuote q1 = true ∧ Js.isQuote q2 = true.
Proof.
  unfold Js.quotedHere. intros H.
  destruct (Js.stripPrefix prefix s) as [[|q rest]|] eqn:Ep; try done.
  destruct (Js.isQuote q) eqn:Eq; [|done].
  destruct (Js.span Js.isQuote rest) as [[|c g'] [|q2 after]] eqn:Es; try done.
  simplify_eq. apply stripPrefix_inv in Ep.
  pose proof (span_inv _ _ _ _ Es) as Hrest.
  apply span_chars in Es as [Hg Hq2].
  split; [done|]. split; [done|]. exists q, q2, after. by rewrite Ep, Hrest.
Qed.

(** X20.  The package that the dependency heuristic reads from the error
    output: when the pattern matches, the name is not empty, holds no quote,
    and stands in the output between two quotes right after the message. *)
Theorem missing_module_name (prefix s g : string) :
  Js.matchQuoted prefix s = Some g →
  g ≠ "" ∧ Spec.allChars (λ c, negb (Js.isQuote c)) g = true
  ∧ ∃ before q1 q2 after,
      s = before +:+ prefix +:+ String q1 (g +:+ String q2 after)
      ∧ Js.isQuote q1 = true ∧ Js.isQuote q2 = true.
Proof.
  induction s as [|c s IH]; cbn [Js.matchQuoted]; intros H.
  - destruct (Js.quotedHere prefix "") as [g'|] eqn:E; [|done]. simplify_eq.
    apply quotedHere_inv in E as (Hne & Hg & q1 & q2 & after & Hs & H1 & H2).
    split; [done|]. split; [done|]. by exists "", q1, q2, after.
  - destruct (Js.quotedHere prefix (String c s)) as [g'|] eqn:E.
    + simplify_eq.
      apply quotedHere_inv in E as (Hne & Hg & q1 & q2 & after & Hs & H1 & H2).
      split; [done|]. split; [done|]. by exists "", q1, q2, after.
    + destruct (IH H) as (Hne & Hg & before & q1 & q2 & after & Hs & H1 & H2).
      split; [done|]. split; [done|].
      exists (String c before), q1, q2, after. by rewrite Hs.
Qed.

Lemma missing_module_name_witness :
  "requests" ≠ ""
  ∧ Spec.allChars (λ c, negb (Js.isQuote c)) "requests" = true
  ∧ ∃ before q1 q2 after,
      "Traceback: ModuleNotFoundError: No module named 'requests' (x)"
      = before +:+ Loop.missingModule python
        +:+ String q1 ("requests" +:+ String q2 after)
      ∧ Js.isQuote q1 = true ∧ Js.isQuote q2 = true.
Proof.
  apply (missing_module_name (Loop.missingModule python)
           "Traceback: ModuleNotFoundError: No module named 'requests' (x)"
           "requests").
  vm_compute. reflexivity.
Defined.

(** ** [src/core/memory.mjs]: other bounds of the summary *)

(** X21.  [summarizeHistory] for any bound: a history within the bound is
    returned as it is; a longer one is cut to its last [maxTurns] turns
    behind the note of how many were omitted -- except for the bound 0,
    where [slice(-0)] keeps every turn and the note says that 0 were
    omitted.  The memory is never changed. *)
Theorem summarizeHistory_any_bound (maxTurns : nat) (memory : Memory) :
  ∃ out,
    Mem.summarizeHistory maxTurns memory = (Ok out, memory)
    ∧ if bool_decide (length (history memory) ≤ maxTurns)%nat
      then out = history memory
      else if bool_decide (maxTurns = 0)%nat
      then out = Mem.omittedNote 0 :: history memory
      else out = Mem.omittedNote (length (history memory) - maxTurns)
                 :: drop (length (history memory) - maxTurns) (history memory)
           ∧ length out = S maxTurns.
Proof.
  unfold Mem.summarizeHistory.
  case_bool_decide as E; [by eexists|].
  eexists. split; [reflexivity|].
  case_bool_decide as E0.
  - subst maxTurns. cbn [Mem.sliceLast]. by rewrite Nat.sub_diag.
  - destruct maxTurns as [|k]; [done|]. cbn [Mem.sliceLast].
    rewrite length_drop.
    replace (length (history memory) - (length (history memory) - S k))%nat
      with (S k) by lia.
    split; [done|]. cbn [length]. rewrite length_drop. lia.
Qed.

(** ** [src/core/agent.mjs]: the history in the planning prompt *)

Lemma sliceLast_drop {A} (n : nat) (l : list A) :
  (0 < n)%nat → Mem.sliceLast n l = drop (length l - n) l.
Proof. by destruct n; [lia|]. Qed.

(** X22.  The history that [makePlanningPrompt] shows is made of the last
    20 turns of the memory, one line each: the summary that
    [summarizeHistory] puts in front of a long history never reaches the
    prompt, because only the last 20 entries of its result are kept. *)
Theorem planning_prompt_history (memory : Memory) :
  Prompt.historyText memory
  = (Ok (Str.join nl (Prompt.line <$> Mem.sliceLast 20 (history memory))),
     memory).
Proof.
  unfold Prompt.historyText, mbind, M_bind, Mem.summarizeHistory.
  case_bool_decide as E; [done|]. cbv [mret M_ret]. do 3 f_equal.
  rewrite !sliceLast_drop by lia. cbn [length]. rewrite length_drop.
  replace (S (length (history memory) - (length (history memory) - 40)) - 20)%nat
    with (S 20) by lia.
  cbn [drop]. rewrite drop_drop. do 2 f_equal. lia.
Qed.

(** ** [src/core/agent.mjs]: the id derived from the name of a tool *)

Section CharFacts.

Lemma allChars_app (P : ascii → bool) (a b : string) :
  Spec.allChars P (a +:+ b) = Spec.allChars P a && Spec.allChars P b.
Proof.
  induction a as [|c a IH]; [done|].
  rewrite str_app_cons. cbn [Spec.allChars]. by rewrite IH, andb_assoc.
Qed.

Lemma dashRuns_chars (inRun : bool) (s : string) :
  Spec.allChars Spec.idChar (Js.dashRuns inRun s) = true.
Proof.
  revert inRun. induction s as [|c s IH]; intros inRun; [done|].
  cbn [Js.dashRuns]. destruct (Js.isSlugChar c) eqn:E.
  - cbn [Spec.allChars]. unfold Spec.idChar at 1. by rewrite E, IH.
  - destruct inRun; [apply IH|]. cbn [Spec.allChars]. by rewrite IH.
Qed.

Lemma pretty_N_char_id (d : N) : Spec.idChar (pretty_N_char d) = true.
Proof. unfold pretty_N_char. by repeat case_match. Qed.

Lemma pretty_N_go_chars (x : N) (s : string) :
  Spec.allChars Spec.idChar s = true →
  Spec.allChars Spec.idChar (pretty_N_go x s) = true.
Proof.
  revert s. induction (N.lt_wf_0 x) as [x _ IH]; intros s Hs.
  assert (x = 0 ∨ 0 < x)%N as [->|?] by lia.
  - by rewrite pretty_N_go_0.
  - rewrite pretty_N_go_step by done. apply IH.
    + by apply N.div_lt.
    + cbn [Spec.allChars]. by rewrite pretty_N_char_id, Hs.
Qed.

Lemma pretty_N_chars (x : N) : Spec.allChars Spec.idChar (pretty x) = true.
Proof.
  unfold pretty, pretty_N. case_decide; [done|]. by apply pretty_N_go_chars.
Qed.

Lemma pretty_positive_chars (p : positive) :
  Spec.allChars Spec.idChar (pretty p) = true.
Proof. apply (pretty_N_chars (Npos p)). Qed.

Lemma pretty_Z_chars (n : Z) : Spec.allChars Spec.idChar (pretty n) = true.
Proof.
  destruct n as [|p|p]; [done|apply pretty_positive_chars|].
  change (pretty (Z.neg p)) with ("-" +:+ pretty p).
  by rewrite allChars_app, pretty_positive_chars.
Qed.

Lemma idChars_no_slash (s : string) :
  Spec.allChars Spec.idChar s = true → Str.hasChar Path.slash s = false.
Proof.
  induction s as [|c s IH]; [done|]. cbn [Spec.allChars Str.hasChar].
  intros [Hc Hs]%andb_true_iff. rewrite (IH Hs), orb_false_r.
  apply eqb_ascii_false. intros ->. by vm_compute in Hc.
Qed.

Lemma idChars_no_nul (s : string) :
  Spec.allChars Spec.idChar s = true → Str.hasNul s = false.
Proof.
  unfold Str.hasNul.
  induction s as [|c s IH]; [done|]. cbn [Spec.allChars Str.hasChar].
  intros [Hc Hs]%andb_true_iff. rewrite (IH Hs), orb_false_r.
  apply eqb_ascii_false. intros ->. by vm_compute in Hc.
Qed.

Lemma idChars_first (s : string) (c : ascii) (r : string) :
  Spec.allChars Spec.idChar s = true → Spec.idChar c = false → s ≠ String c r.
Proof. intros Hs Hc ->. cbn in Hs. by rewrite Hc in Hs. Qed.
End CharFacts.

(** X23.  The id that the loop derives for a tool planned without one --
    the name in lower case with every run of other characters turned into a
    dash, a dash, and the time -- is made of the characters a-z, 0-9 and the
    dash only.  It is therefore the name of a directory that [loadTools]
    accepts: not empty, without a slash or a NUL character, not hidden, and
    not [__proto__]. *)
Theorem derived_tool_id_is_directory_name (name : string) (n : Z) :
  Spec.allChars Spec.idChar
    (Js.dashRuns false (Js.toLowerCase name) +:+ "-" +:+ pretty n) = true
  ∧ Spec.directoryName
      (Js.dashRuns false (Js.toLowerCase name) +:+ "-" +:+ pretty n).
Proof.
  assert (Spec.allChars Spec.idChar
            (Js.dashRuns false (Js.toLowerCase name) +:+ "-" +:+ pretty n) = true)
    as Hchars.
  { rewrite !allChars_app, dashRuns_chars, pretty_Z_chars. done. }
  split; [done|]. repeat split.
  - destruct (Js.dashRuns false (Js.toLowerCase name)); discriminate.
  - by apply idChars_no_slash.
  - destruct (Js.dashRuns _ _ +:+ _) as [|c r] eqn:E; [done|].
    cbn [Str.startsWith]. rewrite andb_true_r. apply eqb_ascii_false.
    intros <-. by vm_compute in Hchars.
  - by apply idChars_first.
  - by apply idChars_no_nul.
Qed.

(** ** [src/core/sandbox.mjs]: the log file of a run *)

Section LogFile.
Variable w : World.

Lemma spawn_ok_inv sb sp lf onStdout onStderr p r p' :
  Sandbox._spawnWithLogs w sb sp lf onStdout onStderr p = (Ok r, p') →
  logFile r = lf ∧ p_fs p' = p_fs p.
Proof.
  intros H. apply spawn_inv in H as [-> ->]. by rewrite outcome_logFile.
Qed.

Lemma preserves_fs_spawn sb sp lf onStdout onStderr :
  Preserves p_fs (Sandbox._spawnWithLogs w sb sp lf onStdout onStderr).
Proof.
  intros p r p' H. unfold Sandbox._spawnWithLogs in H.
  destruct (Sandbox.refuses sp); [by simplify_eq|].
  destruct (Sandbox.handle _ _ _ _ _ _) as [c seen].
  destruct (negb (truthy _)).
  { destruct (Sandbox.settled c); by simplify_eq. }
  destruct (negb (isStr _)); [by simplify_eq|].
  destruct (brokenPipe _); [by simplify_eq|].
  destruct (Sandbox.settled c); by simplify_eq.
Qed.

Lemma backend_ok_inv (sb : Sandbox.t) (rq : Request) (lay : Sandbox.Layout)
    (docker : bool) (p p' : Proc) (r : RunResult) :
  (if docker then Sandbox.runDocker w sb rq lay else Sandbox.runLocal w sb rq lay) p
  = (Ok r, p') →
  logFile r = Sandbox.lay_logFile lay ∧ p_fs p' = p_fs p.
Proof.
  assert (∀ sp, Preserves p_fs (Sandbox.spawnLogged w sb rq lay sp)) as Hsp
    by (intros sp; apply preserves_fs_spawn).
  intros H. split.
  - destruct docker; unfold Sandbox.runDocker, Sandbox.runLocal in H;
      cbv zeta in H;
      apply bind_ok_inv in H as (? & ? & _ & H);
      apply bind_ok_inv in H as (? & ? & _ & H);
      by apply spawn_ok_inv in H as [? _].
  - revert H. generalize p'. generalize (Ok r). generalize p.
    change (Preserves p_fs (if docker then Sandbox.runDocker w sb rq lay
                            else Sandbox.runLocal w sb rq lay)).
    destruct docker; unfold Sandbox.runDocker, Sandbox.runLocal; cbv zeta;
      repeat first
        [ apply preserves_bind; [|intros ?]
        | apply Hsp
        | apply preserves_ret
        | case_match ].
Qed.

Lemma layout_ok_inv (sb : Sandbox.t) (rq : Request) (p p1 : Proc)
    (lay : Sandbox.Layout) :
  Sandbox.layout w sb rq p = (Ok lay, p1) →
  Sandbox.lay_logFile lay
  = Path.join [Path.join [Sandbox.sandboxDir sb; "runs"; Spec.runName w rq p];
               "exec.log"]
  ∧ Spec.dirsTo (p_fs p1)
      (Fs.locate (Path.join [Sandbox.sandboxDir sb; "runs"; Spec.runName w rq p])).
Proof.
  unfold Sandbox.layout. intros H.
  apply bind_ok_inv in H as ([] & pa & Ha & H).
  assert (p_ticks pa = p_ticks p) as Hticks.
  { unfold inFs, zoom in Ha. destruct (Sandbox.ensure sb (p_fs p)).
    by simplify_eq. }
  apply bind_ok_inv in H as (name & pb & Hb & H).
  assert (name = Spec.runName w rq p ∧ p_fs pb = p_fs pa) as [-> Hfs].
  { unfold Spec.runName. rewrite <- Hticks.
    destruct (rq_runId rq) as [i|]; [case_bool_decide|];
      cbv in Hb; by simplify_eq. }
  apply bind_ok_inv in H as ([] & pc & Hc & H).
  unfold inFs, zoom in Hc.
  destruct (Fs.ensureDir _ (p_fs pb)) as [rc fsc] eqn:Hmk. simplify_eq.
  apply ensureDir_ok in Hmk as [_ Hmk].
  apply dirsTo_mkdirs in Hmk.
  apply bind_ok_inv in H as (b1 & pd & Hd & H).
  apply bind_ok_inv in H as (b2 & pe & He & H).
  cbv [mret M_ret] in H. simplify_eq. cbn [Sandbox.lay_logFile].
  split; [done|].
  unfold inFs, zoom, Fs.pathExists, gets in Hd, He. by simplify_eq.
Qed.

(** X24.  A run that resolves names its log file
    [<sandboxDir>/runs/<runId>/exec.log] -- with the time for a missing or
    empty [runId] -- and the directory of the run exists when it
    returns. *)
Theorem run_log_file (sb : Sandbox.t) (rq : Request) (p p' : Proc)
    (r : RunResult) :
  Sandbox.run w sb rq p = (Ok r, p') →
  logFile r
  = Path.join [Path.join [Sandbox.sandboxDir sb; "runs"; Spec.runName w rq p];
               "exec.log"]
  ∧ Fs.isDir (p_fs p')
      (Fs.locate (Path.join [Sandbox.sandboxDir sb; "runs"; Spec.runName w rq p]))
    = true.
Proof.
  unfold Sandbox.run. intros H.
  apply bind_ok_inv in H as (lay & p1 & Hlay & H).
  apply bind_ok_inv in H as (docker & p2 & Hd & H).
  apply layout_ok_inv in Hlay as [Hlog Hdirs].
  destruct (hasDocker_char w p1) as (r0 & Hd' & _). rewrite Hd in Hd'.
  injection Hd' as _ ->.
  assert ((if docker then Sandbox.runDocker w sb rq lay
           else Sandbox.runLocal w sb rq lay)
            (mkProc (p_fs p1) (p_seen p1) (S (p_spawned p1)) (p_ticks p1))
          = (Ok r, p')) as Hrun by (by destruct docker).
  apply backend_ok_inv in Hrun as [Hr Hfs]. cbn [p_fs] in Hfs.
  split; [by rewrite Hr|]. rewrite Hfs. by apply dirsTo_isDir.
Qed.
End LogFile.

Lemma run_log_file_witness :
  logFile (mkResult None "par" "" "/sb/runs/a-1/exec.log")
  = Path.join [Path.join [Sandbox.sandboxDir Example.offline; "runs";
                          Spec.runName Example.hangs Example.request Example.blank];
               "exec.log"]
  ∧ Fs.isDir (p_fs (Sandbox.run Example.hangs Example.offline Example.request
                      Example.blank).2)
      (Fs.locate (Path.join [Sandbox.sandboxDir Example.offline; "runs";
                             Spec.runName Example.hangs Example.request
                               Example.blank]))
    = true.
Proof.
  apply (run_log_file Example.hangs Example.offline Example.request
           Example.blank).
  rewrite (surjective_pairing (Sandbox.run _ _ _ _)) at 1. f_equal.
Defined.

(** ** [src/core/tools.mjs]: files with plain paths stay in the tool directory *)

Section Confined.
Variable sandboxDir : string.
Variable toolId : string.
Hypothesis HtoolId : Spec.plainSegment toolId.

Lemma join_rel (b : string) (segs : list string) :
  segs ≠ [] → Forall Spec.plainSegment segs →
  Path.join [b; Str.join "/" segs] = Path.join (b :: segs).
Proof.
  intros Hne Hsegs. unfold Path.join.
  assert (Str.join "/" segs ≠ "") as Hrel.
  { destruct segs as [|x segs _] using rev_ind; [done|].
    apply join_last_nonempty. apply Forall_app in Hsegs as [_ Hx].
    apply Forall_cons in Hx as [(Hx & _) _]. done. }
  pose proof (filter_all (λ a, a ≠ "") segs (plain_not_empty _ Hsegs)) as Hf.
  destruct (decide (b = "")) as [->|Hb].
  - rewrite filter_cons_False by (intros H; by apply H).
    rewrite filter_cons_True by done. rewrite filter_nil.
    rewrite filter_cons_False by (intros H; by apply H). rewrite Hf.
    by destruct segs.
  - rewrite !filter_cons_True by done. rewrite filter_nil, Hf.
    destruct segs as [|x segs]; [done|]. reflexivity.
Qed.

Lemma locate_tool_file (segs : list string) :
  segs ≠ [] → Forall Spec.plainSegment segs →
  Fs.locate (Path.join [Path.join [sandboxDir; "tools"; toolId];
                        Str.join "/" segs])
  = Fs.locate (Path.join [sandboxDir; "tools"; toolId]) ++ segs.
Proof.
  intros Hne Hsegs.
  assert (Forall Spec.plainSegment ["tools"; toolId]) as Hdir.
  { repeat apply Forall_cons_2; [apply plain_tools|done|apply Forall_nil_2]. }
  rewrite join_rel by done.
  rewrite (join_join sandboxDir ["tools"; toolId] segs) by done.
  rewrite !locate_join; try done.
  - by rewrite <- List.app_assoc.
  - by apply Forall_app.
Qed.

Lemma writeFiles_confined (files : list (string * json)) (fs : FS)
    (loc : list string) (c : Content) :
  Forall (λ f, Spec.plainPath f.1) files →
  (Tools.writeFiles (Path.join [sandboxDir; "tools"; toolId]) files fs).2 !! loc
    = Some (File c) →
  fs !! loc = Some (File c)
  ∨ ∃ segs, segs ≠ []
      ∧ loc = Fs.locate (Path.join [sandboxDir; "tools"; toolId]) ++ segs.
Proof.
  revert fs. induction files as [|[rel content] files IH]; intros fs Hplain H.
  - by left.
  - apply Forall_cons in Hplain as [(segs & Hne & Hsegs & Hrel) Hplain].
    cbn [fst] in Hrel. subst rel. cbn [Tools.writeFiles] in H.
    set (abs := Path.join [Path.join [sandboxDir; "tools"; toolId];
                           Str.join "/" segs]) in *.
    set (wr := match content with
               | JStr s => Fs.writeFile abs s
               | _ => throw TypeError
               end) in *.
    unfold mbind at 1 in H. unfold M_bind at 1 in H.
    pose proof (ensureDir_files (Path.dirname abs) fs loc c) as Hmk.
    destruct (Fs.ensureDir _ fs) as [[[]| |] fs1]; cbn [snd] in *;
      [|left; by apply Hmk..].
    unfold mbind at 1 in H. unfold M_bind at 1 in H.
    assert (∀ r fs2,
              wr fs1 = (r, fs2) →
              ∀ loc' c', fs2 !! loc' = Some (File c') →
                fs1 !! loc' = Some (File c')
                ∨ ∃ segs', segs' ≠ []
                    ∧ loc' = Fs.locate (Path.join [sandboxDir; "tools"; toolId])
                             ++ segs') as Hwrite.
    { intros r fs2 Hw loc' c' Hl. subst wr.
      destruct content as [| | |s| |];
        try (unfold throw in Hw; injection Hw as _ <-; by left).
      unfold Fs.writeFile, Fs.write in Hw.
      destruct (Str.hasNul abs); [injection Hw as _ <-; by left|].
      destruct (_ || _); [injection Hw as _ <-; by left|].
      destruct (Fs.isDir fs1 _); injection Hw as _ <-; [|by left].
      destruct (decide (loc' = Fs.locate abs)) as [->|Hne'].
      - right. exists segs. split; [done|]. by apply locate_tool_file.
      - left. by rewrite lookup_insert_ne in Hl. }
    destruct (wr fs1) as [[[]| |] fs2] eqn:Hw; cbn [snd] in H.
    + apply IH in H; [|done]. destruct H as [H|H]; [|by right].
      destruct (Hwrite _ _ eq_refl _ _ H) as [H'|H']; [left; by apply Hmk|by right].
    + destruct (Hwrite _ _ eq_refl _ _ H) as [H'|H']; [left; by apply Hmk|by right].
    + destruct (Hwrite _ _ eq_refl _ _ H) as [H'|H']; [left; by apply Hmk|by right].
Qed.

(** X25.  When the id of the tool is a plain name and every path of
    [files] is made of plain segments (no [..], not absolute),
    [writeToolCode] keeps to the tool directory: whether it returns or
    throws half-way, a file found after the call was there before or lies
    under [<sandboxDir>/tools/<toolId>]. *)
Theorem writeToolCode_plain_paths_stay_inside (files : list (string * json))
    (fs : FS) (loc : list string) (c : Content) :
  Forall (λ f, Spec.plainPath f.1) files →
  (Tools.writeToolCode sandboxDir toolId files fs).2 !! loc = Some (File c) →
  fs !! loc = Some (File c)
  ∨ ∃ segs, segs ≠ []
      ∧ loc = Fs.locate (Path.join [sandboxDir; "tools"; toolId]) ++ segs.
Proof.
  intros Hplain H. unfold Tools.writeToolCode in H.
  unfold mbind at 1 in H. unfold M_bind at 1 in H.
  pose proof (ensureDir_files (Path.join [sandboxDir; "tools"; toolId])
                fs loc c) as Hmk.
  destruct (Fs.ensureDir _ fs) as [[[]| |] fs1]; cbn [snd] in *;
    [|left; by apply Hmk..].
  unfold mbind, M_bind in H.
  pose proof (writeFiles_confined files fs1 loc c Hplain) as Hw.
  destruct (Tools.writeFiles _ files fs1) as [[[]| |] fs2]; cbn [snd] in *;
    (destruct (Hw H) as [H'|H']; [left; by apply Hmk|by right]).
Qed.
End Confined.

Lemma writeToolCode_plain_paths_stay_inside_witness :
  (∅ : FS) !! [""; "sb"; "tools"; "t"; "lib"; "util.py"] = Some (File (Text "x"))
  ∨ ∃ segs, segs ≠ []
      ∧ [""; "sb"; "tools"; "t"; "lib"; "util.py"]
        = Fs.locate (Path.join ["/sb"; "tools"; "t"]) ++ segs.
Proof.
  apply (writeToolCode_plain_paths_stay_inside "/sb" "t" ltac:(by repeat split)
           [("lib/util.py", JStr "x")]).
  - apply Forall_cons_2; [|apply Forall_nil_2].
    exists ["lib"; "util.py"]. split; [done|]. split; [|reflexivity].
    repeat apply Forall_cons_2; [by repeat split..|apply Forall_nil_2].
  - vm_compute. reflexivity.
Defined.

(** ** [src/core/sandbox.mjs] and [src/core/agent.mjs]: the probe and the limits *)

(** X26.  The probe for the container engine has no timer: when
    [docker --version] neither exits nor fails to start, a run whose files
    are in place never settles, and only the probe has been spawned. *)
Theorem run_hangs_with_the_probe (w : World) (sb : Sandbox.t) (rq : Request)
    (p p1 : Proc) (lay : Sandbox.Layout) :
  Sandbox.layout w sb rq p = (Ok lay, p1) →
  dockerProbe w (p_spawned p1) = None →
  Sandbox.run w sb rq p
  = (Never, mkProc (p_fs p1) (p_seen p1) (S (p_spawned p1)) (p_ticks p1)).
Proof.
  intros Hlay Hprobe. unfold Sandbox.run.
  rewrite (bind_ok _ _ _ _ _ Hlay).
  unfold mbind, M_bind, Sandbox.hasDocker. by rewrite Hprobe.
Qed.

Lemma run_hangs_with_the_probe_witness :
  Sandbox.run Example.noProbe Example.offline Example.request Example.blank
  = (Never,
     mkProc (p_fs (Sandbox.layout Example.noProbe Example.offline Example.request
                     Example.blank).2)
            (p_seen (Sandbox.layout Example.noProbe Example.offline
                       Example.request Example.blank).2)
            (S (p_spawned (Sandbox.layout Example.noProbe Example.offline
                             Example.request Example.blank).2))
            (p_ticks (Sandbox.layout Example.noProbe Example.offline
                        Example.request Example.blank).2)).
Proof.
  apply (run_hangs_with_the_probe Example.noProbe Example.offline Example.request
           Example.blank _ Example.layoutOfRequest).
  - rewrite (surjective_pairing (Sandbox.layout _ _ _ _)) at 1. f_equal.
  - reflexivity.
Defined.

(** X27.  A configuration that does not set [limits.network] is read in two
    ways: the loop takes the network as allowed, so its dependency heuristic
    is on, while the sandbox it builds has the network off, so no run of it
    installs anything. *)
Theorem unset_network_is_read_twice (config : Config) :
  (∀ l, cfg_limits config = Some l → o_network l = None) →
  Loop.networkAllowed config = true
  ∧ network (Sandbox.limits (Loop.sandbox config)) = false.
Proof.
  intros H. unfold Loop.networkAllowed, Loop.sandbox. cbn [Sandbox.limits].
  destruct (cfg_limits config) as [l|]; [|done].
  unfold Sandbox.mkLimitsOf. cbn [network default id]. by rewrite (H l eq_refl).
Qed.

Lemma unset_network_is_read_twice_witness :
  Loop.networkAllowed (mkConfig "/data" "/sb" None false) = true
  ∧ network (Sandbox.limits (Loop.sandbox (mkConfig "/data" "/sb" None false)))
    = false.
Proof.
  apply (unset_network_is_read_twice (mkConfig "/data" "/sb" None false)).
  intros l H. discriminate.
Defined.

(** ** [src/core/agent.mjs]: the loop over [plan.createTools] *)

Section Materialize.
Variable w : World.
Variable config : Config.

Lemma createTool_step (t : json) (a : Agent) :
  ∃ a',
    Loop.createTool w config t a = (Ok tt, a')
    ∧ (∃ more, created a' = created a ++ more)
    ∧ (length (history (memory a')) ≤ S (length (history (memory a))))%nat.
Proof.
  destruct (createTool_returns w config t a) as (a' & H & Hh).
  exists a'. split; [done|]. split.
  - destruct (createTool_cases w config t a _ _ H) as [->|(i & ? & ? & ? & ? & _ & -> & _)].
    + exists []. by rewrite List.app_nil_r.
    + by eexists.
  - destruct Hh as [->|(e & n & -> & _)]; [lia|].
    rewrite length_app. cbn. lia.
Qed.

(** X28.  The loop over [plan.createTools] always returns: no failure of
    a tool stops it.  [created] only grows, and the history gains at most
    one turn for each planned tool. *)
Theorem materializeTools_always_returns (specs : list json) (a : Agent) :
  ∃ a',
    Loop.materializeTools w config specs a = (Ok tt, a')
    ∧ (∃ more, created a' = created a ++ more)
    ∧ (length (history (memory a'))
       ≤ length (history (memory a)) + length specs)%nat.
Proof.
  revert a. induction specs as [|t specs IH]; intros a.
  - exists a. split; [done|]. split; [|cbn; lia].
    exists []. by rewrite List.app_nil_r.
  - destruct (createTool_step t a) as (a1 & H1 & (m1 & E1) & L1).
    destruct (IH a1) as (a2 & H2 & (m2 & E2) & L2).
    exists a2. cbn [Loop.materializeTools]. unfold mbind, M_bind. rewrite H1.
    split; [done|]. split.
    + exists (m1 ++ m2). by rewrite E2, E1, <- List.app_assoc.
    + cbn [length]. lia.
Qed.
End Materialize.

(** ** [src/core/sandbox.mjs]: a run resolves *)

Section NulFacts.






#[local] Abbreviation noNulChars := (Forall (λ c : ascii, c ≠ Ascii.zero)).







End NulFacts.

Section RunResolves.
Variable w : World.




Ltac backend_cases sb rq lay :=
  destruct (rq_language rq);
  rewrite ?(bool_decide_true (python = python)), ?(bool_decide_true (node = node)),
    ?(bool_decide_false (python = node)), ?(bool_decide_false (node = python))
    by done;
  destruct (network (Sandbox.limits sb)) eqn:?, (Sandbox.lay_hasPyReq lay),
    (Sandbox.lay_hasNodePkg lay);
  cbn [andb].




End RunResolves.



(** ** [src/core/agent.mjs]: the entry of a tool planned without one *)

Lemma parse_language_times j m :
  ToolManifest_parse j = Ok m →
  prop "language" j = Some (JStr (languageName (m_language m)))
  ∧ prop "createdAt" j = Some (JNum (m_createdAt m))
  ∧ prop "updatedAt" j = Some (JNum (m_updatedAt m)).
Proof.
  unfold ToolManifest_parse. intros H.
  repeat match type of H with
  | (?x ≫= _) = Ok _ =>
      let E := fresh "E" in destruct x eqn:E; cbn [mbind res_bind] in H; [|done..]
  end.
  inversion H; subst. cbn [m_language m_createdAt m_updatedAt].
  match goal with E : Zod.object_ j = Ok ?o |- _ =>
    assert (o = j) as -> by (unfold Zod.object_ in E; by destruct j; simplify_eq)
  end.
  unfold Zod.number_, Zod.enum_language in *.
  repeat split; repeat (case_match; simplify_eq); try done.
  all: repeat match goal with
       | H : bool_decide _ = true |- _ => apply bool_decide_eq_true in H
       end; by subst.
Qed.

Section CreateToolEntry.
Variable w : World.
Variable config : Config.

(** The fields of the object that [createTool] hands to [saveTool]. *)
Lemma planned_fields (i n p l e ins outs u c up : json) :
  let raw := JObj [ ("id", i); ("name", n); ("purpose", p); ("language", l);
                    ("entry", e); ("inputs", ins); ("outputs", outs);
                    ("usage", u); ("createdAt", c); ("updatedAt", up) ] in
  prop "id" raw = Some i ∧ prop "language" raw = Some l
  ∧ prop "entry" raw = Some e ∧ prop "createdAt" raw = Some c
  ∧ prop "updatedAt" raw = Some up.
Proof. done. Qed.

(** C7.  A turn of the loop over [plan.createTools] that ends without
    recording a failure, on the specification of a tool that has no
    [entry], persists a manifest whose entry is [index.mjs], whatever the
    language: the id of the tool is added to [created], its record to
    [tools], and the manifest of that record, which is the content of the
    file [manifest.json] of the tool, has the id of the tool, the language
    that the specification gives ([node] when it gives none) and the
    entry [index.mjs]. *)
Theorem createTool_default_entry (t : json) (a a' : Agent) :
  prop "entry" t = None →
  Loop.createTool w config t a = (Ok tt, a') →
  history (memory a') = history (memory a) →
  ∃ toolId rec,
    created a' = created a ++ [toolId]
    ∧ tools a' !! toolId = Some rec
    ∧ m_id (manifest rec) = toolId
    ∧ m_entry (manifest rec) = "index.mjs"
    ∧ orElse (prop "language" t) (JStr "node")
      = JStr (languageName (m_language (manifest rec)))
    ∧ p_fs (proc a') !! Fs.locate (manifestPath rec)
      = Some (File (JsonDoc (manifestToJson (manifest rec)))).
Proof.
  intros Hentry H Hhist.
  destruct (createTool_inv w config t a (Ok tt) a' H)
    as [(_ & _ & toolId & rec & c & u & fs1 & Hsave & Hc & Ht)
       |[(_ & turn & Hh)|(_ & Hr)]]; [| |done].
  2:{ rewrite Hhist in Hh. by apply (longer_ne (history (memory a)) [turn]) in Hh. }
  exists toolId, rec.
  apply saveTool_ok in Hsave as (Hparse & _ & _ & Hfs).
  rewrite Hentry in Hparse.
  pose proof (parse_fields _ _ Hparse) as [Hi He].
  pose proof (parse_language_times _ _ Hparse) as (Hl & Hcr & Hup).
  match type of Hparse with
  | ToolManifest_parse (JObj [(_, ?i); (_, ?n); (_, ?p); (_, ?l); (_, ?e);
                              (_, ?ins); (_, ?outs); (_, ?us); (_, ?cr);
                              (_, ?up)]) = _ =>
      destruct (planned_fields i n p l e ins outs us cr up)
        as (Fi & Fl & Fe & Fc & Fu)
  end.
  rewrite Fi in Hi. rewrite Fe in He. rewrite Fl in Hl.
  rewrite Fc in Hcr. rewrite Fu in Hup. simplify_eq.
  rewrite stored_manifest in Hfs.
  2:{ split; [by rewrite <- Hcr | by rewrite <- Hup]. }
  cbn [orElse] in He. repeat split; try done. by injection He.
Qed.
End CreateToolEntry.

Lemma createTool_default_entry_witness :
  ∃ toolId rec,
    created (Loop.createTool ExampleLoop.failing ExampleLoop.config
               ExampleLoop.pySpec ExampleLoop.start).2
    = created ExampleLoop.start ++ [toolId]
    ∧ tools (Loop.createTool ExampleLoop.failing ExampleLoop.config
               ExampleLoop.pySpec ExampleLoop.start).2 !! toolId = Some rec
    ∧ m_id (manifest rec) = toolId
    ∧ m_entry (manifest rec) = "index.mjs"
    ∧ orElse (prop "language" ExampleLoop.pySpec) (JStr "node")
      = JStr (languageName (m_language (manifest rec)))
    ∧ p_fs (proc (Loop.createTool ExampleLoop.failing ExampleLoop.config
                    ExampleLoop.pySpec ExampleLoop.start).2)
        !! Fs.locate (manifestPath rec)
      = Some (File (JsonDoc (manifestToJson (manifest rec)))).
Proof.
  apply (createTool_default_entry ExampleLoop.failing ExampleLoop.config
           ExampleLoop.pySpec ExampleLoop.start).
  - reflexivity.
  - rewrite (surjective_pairing (Loop.createTool _ _ _ _)) at 1. f_equal.
  - vm_compute. reflexivity.
Defined.

(** The tool of the example is a python tool, and its entry is [index.mjs]. *)
Example createTool_python_example :
  ∃ a' rec,
    Loop.createTool ExampleLoop.failing ExampleLoop.config ExampleLoop.pySpec
      ExampleLoop.start = (Ok tt, a')
    ∧ created a' = ["upper"]
    ∧ tools a' !! "upper" = Some rec
    ∧ m_language (manifest rec) = python
    ∧ m_entry (manifest rec) = "index.mjs".
Proof. eexists _, _. split; [vm_compute; reflexivity|]. vm_compute. done. Qed.

(** ** [src/core/tools.mjs]: the catalog and the directories of [tools/] *)

Lemma own_lookup {A} (m : gmap string A) (k : string) :
  Js.own m !! k = if bool_decide (k = "__proto__") then None else m !! k.
Proof.
  unfold Js.own. case_bool_decide as E.
  - subst k. apply lookup_delete_eq.
  - by apply lookup_delete_ne.
Qed.

Section CatalogKeys.
Variable JSON_parse : string → option json.
Variable sandboxDir : string.

(** C10 (amended).  [loadTools] keys its result by the name of the
    directory of the tool under [tools/], not by the [id] of the manifest.
    When nothing but directories lies on the way to [tools/], it returns;
    and for every directory [tools/<d>] that [readdir] lists (its name is
    one path segment, without a NUL character), whose name does not begin
    with a dot and whose [manifest.json] parses against the schema, the
    assignment [out[d] = record] is made with the fields that the manifest
    gives, [id] included, whatever it says.  For every name but
    [__proto__] the record is then an own property of the result under the
    key [d]; for the directory named [__proto__] the assignment makes the
    record the prototype of the result, which has no own key of that
    name. *)
Theorem loadTools_keyed_by_directory (fs : FS) (d : string)
    (c : Content) (j : json) (m : Manifest) :
  Spec.listedName d →
  Spec.reachable fs (Fs.locate (Path.join [sandboxDir; "tools"])) →
  fs !! Fs.locate (Path.join [sandboxDir; "tools"; d]) = Some Dir →
  fs !! Fs.locate (Path.join [sandboxDir; "tools"; d; "manifest.json"])
    = Some (File c) →
  Spec.contentJson JSON_parse c = Some j →
  ToolManifest_parse j = Ok m →
  ∃ out fs',
    Tools.loadTools JSON_parse sandboxDir fs = (Ok out, fs')
    ∧ out !! d = Some (mkTool m (Path.join [sandboxDir; "tools"; d])
                         (Path.join [sandboxDir; "tools"; d; "manifest.json"]))
    ∧ Js.own out !! d
      = if bool_decide (d = "__proto__") then None
        else Some (mkTool m (Path.join [sandboxDir; "tools"; d])
                     (Path.join [sandboxDir; "tools"; d; "manifest.json"])).
Proof.
  intros Hd Hway Hdir Hfile Hc Hm.
  destruct (loadTools_returns JSON_parse sandboxDir fs Hway) as (out & fs' & Hload).
  exists out, fs'. split; [done|].
  rewrite locate_toolDir in Hdir by done.
  rewrite locate_manifest in Hfile by done.
  assert (out !! d = Some (mkTool m (Path.join [sandboxDir; "tools"; d])
                         (Path.join [sandboxDir; "tools"; d; "manifest.json"])))
    as Hout by (by eapply loadTools_lookup).
  split; [done|]. rewrite own_lookup, Hout. done.
Qed.
End CatalogKeys.

Lemma loadTools_keyed_by_directory_witness :
  ∃ out fs',
    Tools.loadTools ExampleStore.noText "/sb" ExampleStore.renamed = (Ok out, fs')
    ∧ out !! "a" = Some (mkTool (ExampleStore.manifestOf "b")
                           (Path.join ["/sb"; "tools"; "a"])
                           (Path.join ["/sb"; "tools"; "a"; "manifest.json"]))
    ∧ Js.own out !! "a"
      = if bool_decide ("a" = "__proto__") then None
        else Some (mkTool (ExampleStore.manifestOf "b")
                     (Path.join ["/sb"; "tools"; "a"])
                     (Path.join ["/sb"; "tools"; "a"; "manifest.json"])).
Proof.
  apply (loadTools_keyed_by_directory ExampleStore.noText "/sb"
           ExampleStore.renamed "a"
           (JsonDoc (manifestToJson (ExampleStore.manifestOf "b")))
           (manifestToJson (ExampleStore.manifestOf "b"))
           (ExampleStore.manifestOf "b")).
  - by repeat split.
  - vm_compute. reflexivity.
  - vm_compute. reflexivity.
  - vm_compute. reflexivity.
  - reflexivity.
  - vm_compute. reflexivity.
Defined.

(** ** [src/core/tools.mjs]: saving a tool, then loading the catalog *)

Section StoreRoundTrip.
Variable JSON_parse : string → option json.
Variable sandboxDir : string.

(** C6 (amended).  Let [saveTool] succeed on a manifest and return a
    record: its fields are those that the schema makes of the manifest.
    - When the id is a name that [loadTools] lists (one path segment
      without a NUL character, not beginning with a dot), [loadTools] then
      returns and leaves the file system as it is.  If [createdAt] and
      [updatedAt] are finite, the record that [saveTool] returned -- all
      the fields of the manifest and the two paths -- is assigned under
      the id: an own property of the catalog, except for the id
      [__proto__], which makes the record the prototype of the catalog.
      If one of the two is an infinity, which the schema accepts, the file
      holds [null] in its place, the manifest is skipped, and the catalog
      has nothing under the id.
    - When the id begins with a dot, a catalog that [loadTools] returns
      has nothing under the id. *)
Theorem save_then_load (raw : json) (fs fs1 : FS) (rec : ToolRecord) :
  Tools.saveTool sandboxDir raw fs = (Ok rec, fs1) →
  ToolManifest_parse raw = Ok (manifest rec)
  ∧ (Spec.listedName (m_id (manifest rec)) →
     ∃ out,
       Tools.loadTools JSON_parse sandboxDir fs1 = (Ok out, fs1)
       ∧ (Spec.finiteTimes (manifest rec) →
          out !! m_id (manifest rec) = Some rec
          ∧ Js.own out !! m_id (manifest rec)
            = if bool_decide (m_id (manifest rec) = "__proto__") then None
              else Some rec)
       ∧ (¬ Spec.finiteTimes (manifest rec) →
          out !! m_id (manifest rec) = None))
  ∧ (Str.startsWith "." (m_id (manifest rec)) = true →
     ∀ out fs2,
       Tools.loadTools JSON_parse sandboxDir fs1 = (Ok out, fs2) →
       out !! m_id (manifest rec) = None).
Proof.
  intros Hsave.
  apply saveTool_inv in Hsave as (fs0 & Hparse & Hpath & Hmpath & Hnul & Hmk & ->).
  split; [done|].
  destruct rec as [m p mp]. cbn [manifest path manifestPath] in *. subst p mp.
  set (d := m_id m) in *. split.
  - intros Hd.
    assert (Str.hasNul (Path.join [sandboxDir; "tools"]) = false) as Hroot.
    { rewrite hasNul_join_plain in Hnul by (done || plain_list).
      rewrite hasNul_join_plain by (done || plain_list).
      apply orb_false_iff in Hnul as [-> _]. done. }
    rewrite manifestPath_save by done.
    rewrite locate_toolDir in Hmk by done.
    rewrite locate_manifest by done.
    set (R := Spec.place sandboxDir) in *.
    assert (∀ pre suf, pre ≠ [] → R ++ ["tools"; d] = pre ++ suf →
                       fs0 !! pre = Some Dir) as Hdirs.
    { intros pre suf Hne E.
      by apply (mkdirs_ok_dirs [] (R ++ ["tools"; d]) fs fs0 pre suf). }
    set (doc := File (JsonDoc (Json.stored (manifestToJson m)))).
    set (fs1 := <[R ++ ["tools"; d; "manifest.json"] := doc]> fs0).
    assert (∀ pre suf, pre ≠ [] → suf ≠ [] →
                       R ++ ["tools"; d; "manifest.json"] = pre ++ suf →
                       fs1 !! pre = Some Dir) as Hdirs1.
    { intros pre suf Hne Hs E. unfold fs1.
      rewrite lookup_insert_ne by (rewrite E; intros E'; by apply (longer_ne pre suf)).
      destruct suf as [|x suf _] using rev_ind; [done|].
      apply (Hdirs pre suf Hne).
      change (R ++ ["tools"; d; "manifest.json"])
        with (R ++ ["tools"; d] ++ ["manifest.json"]) in E.
      rewrite !List.app_assoc in E. by apply app_inj_tail in E as [E _]. }
    destruct (loadTools_unchanged JSON_parse sandboxDir fs1 Hroot) as [out Hload].
    { intros pre suf Hne E. apply (Hdirs1 pre (suf ++ [d; "manifest.json"]) Hne).
      - by destruct suf.
      - rewrite List.app_assoc, <- E, <- List.app_assoc. done. }
    exists out. split; [done|]. split.
    + intros Hfin.
      assert (out !! d
              = Some (mkTool m (Path.join [sandboxDir; "tools"; d])
                        (Path.join [sandboxDir; "tools"; d; "manifest.json"])))
        as Hout.
      { eapply (loadTools_lookup sandboxDir JSON_parse fs1 fs1 out d
                  (JsonDoc (Json.stored (manifestToJson m)))
                  (Json.stored (manifestToJson m)) m); try done.
        - exists Dir. apply (Hdirs1 _ ["manifest.json"]);
            [apply place_tools_nonempty|done|].
          by rewrite <- List.app_assoc.
        - apply lookup_insert_eq.
        - by apply parse_stored. }
      split; [done|]. by rewrite own_lookup, Hout.
    + intros Hinf. destruct (out !! d) as [rec'|] eqn:E; [exfalso|done].
      apply loadTools_inv in Hload as (names & _ & _ & ->).
      apply loadOne_fold_inv in E as [E|[_ (_ & Hmp & c & j & Hf & Hc & Hp)]];
        [done|].
      rewrite Hmp, manifestPath_load, locate_manifest in Hf by done.
      unfold fs1 in Hf. rewrite lookup_insert_eq in Hf. unfold doc in Hf.
      assert (c = JsonDoc (Json.stored (manifestToJson m))) as ->
        by congruence.
      assert (j = Json.stored (manifestToJson m)) as ->
        by (unfold Spec.contentJson in Hc; congruence).
      by rewrite parse_stored_infinite in Hp.
  - intros Hdot out fs2 Hload.
    destruct (out !! d) as [rec'|] eqn:E; [exfalso|done].
    apply loadTools_inv in Hload as (names & _ & _ & ->).
    apply loadOne_fold_inv in E as [E|[Hin _]]; [done|].
    apply list_elem_of_filter in Hin as [Hin _]. fold d in Hdot. congruence.
Qed.
End StoreRoundTrip.

Lemma save_then_load_witness :
  ToolManifest_parse (manifestToJson (ExampleStore.manifestOf "echo"))
  = Ok (manifest (mkTool (ExampleStore.manifestOf "echo") "/sb/tools/echo"
                    "/sb/tools/echo/manifest.json"))
  ∧ (Spec.listedName "echo" →
     ∃ out,
       Tools.loadTools ExampleStore.noText "/sb" ExampleStore.saved.2
       = (Ok out, ExampleStore.saved.2)
       ∧ (Spec.finiteTimes (ExampleStore.manifestOf "echo") →
          out !! "echo"
          = Some (mkTool (ExampleStore.manifestOf "echo") "/sb/tools/echo"
                    "/sb/tools/echo/manifest.json")
          ∧ Js.own out !! "echo"
            = if bool_decide ("echo" = "__proto__") then None
              else Some (mkTool (ExampleStore.manifestOf "echo") "/sb/tools/echo"
                           "/sb/tools/echo/manifest.json"))
       ∧ (¬ Spec.finiteTimes (ExampleStore.manifestOf "echo") →
          out !! "echo" = None))
  ∧ (Str.startsWith "." "echo" = true →
     ∀ out fs2,
       Tools.loadTools ExampleStore.noText "/sb" ExampleStore.saved.2
       = (Ok out, fs2) →
       out !! "echo" = None).
Proof.
  apply (save_then_load ExampleStore.noText "/sb"
           (manifestToJson (ExampleStore.manifestOf "echo")) ∅
           ExampleStore.saved.2
           (mkTool (ExampleStore.manifestOf "echo") "/sb/tools/echo"
              "/sb/tools/echo/manifest.json")).
  change (ExampleStore.saved = (Ok (mkTool (ExampleStore.manifestOf "echo")
                                      "/sb/tools/echo" "/sb/tools/echo/manifest.json"),
                                ExampleStore.saved.2)).
  rewrite (surjective_pairing ExampleStore.saved) at 1. f_equal.
Defined.

(** The tool of the example is listed, its times are finite, and the
    catalog loaded after saving it holds its record and nothing else. *)
Example save_then_load_example :
  Spec.listedName "echo" ∧ Spec.finiteTimes (ExampleStore.manifestOf "echo")
  ∧ Tools.loadTools ExampleStore.noText "/sb" ExampleStore.saved.2
    = (Ok {[ "echo" := mkTool (ExampleStore.manifestOf "echo") "/sb/tools/echo"
                         "/sb/tools/echo/manifest.json" ]},
       ExampleStore.saved.2).
Proof.
  split; [by repeat split|]. split; [done|]. vm_compute. reflexivity.
Qed.

(** A manifest whose [createdAt] is [Infinity] passes the schema and is
    saved; the file then holds [null] for it, and [loadTools] skips the
    tool. *)
Example saved_infinite_tool_is_not_loaded :
  (Tools.saveTool "/sb"
     (manifestToJson (mkManifest "echo" "Echo" "prints its input" node
                        "index.mjs" [] [] "" (Infinite false) (ofZ 1))) ∅).1
  = Ok (mkTool (mkManifest "echo" "Echo" "prints its input" node "index.mjs"
                  [] [] "" (Infinite false) (ofZ 1))
          "/sb/tools/echo" "/sb/tools/echo/manifest.json")
  ∧ prop "createdAt"
      (Json.stored
         (manifestToJson (mkManifest "echo" "Echo" "prints its input" node
                            "index.mjs" [] [] "" (Infinite false) (ofZ 1))))
    = Some JNull
  ∧ (Tools.loadTools ExampleStore.noText "/sb"
       (Tools.saveTool "/sb"
          (manifestToJson (mkManifest "echo" "Echo" "prints its input" node
                             "index.mjs" [] [] "" (Infinite false) (ofZ 1))) ∅).2).1
    = Ok ∅.
Proof. split; [|split]; vm_compute; reflexivity. Qed.

(** A directory named [__proto__]: its record becomes the prototype of the
    catalog, which has no own property. *)
Example loadTools_proto_directory :
  (Tools.loadTools ExampleStore.noText "/sb"
     {[ [""; "sb"; "tools"; "__proto__"] := Dir;
        [""; "sb"; "tools"; "__proto__"; "manifest.json"]
          := File (JsonDoc (manifestToJson (ExampleStore.manifestOf "b"))) ]}).1
  = Ok {[ "__proto__" := mkTool (ExampleStore.manifestOf "b")
                           "/sb/tools/__proto__"
                           "/sb/tools/__proto__/manifest.json" ]}
  ∧ Js.own (A := ToolRecord)
      {[ "__proto__" := mkTool (ExampleStore.manifestOf "b")
                          "/sb/tools/__proto__"
                          "/sb/tools/__proto__/manifest.json" ]} = ∅.
Proof. split; vm_compute; reflexivity. Qed.
